(** * PodcastAutomation: the audio assembler and the stages around it

    A shallow embedding of [src/assembler/audio_assembler.py] (class
    [AudioAssembler]) and of the exception hierarchy of
    [src/utils/exceptions.py], with the properties of the assembly stage
    proved over it; then of the code that feeds the assembler and calls it
    ([src/generators/audio.py], [src/core/podcast.py],
    [src/core/pipeline.py], [src/core/config.py],
    [src/utils/llm_factory.py], [src/cli.py]).

    Layout of the development:
    - exceptions and the error monad; [Py]: Python floats, strings and
      [sorted]; [Pathlib]: paths;
    - [Np]      the numpy operations the assembler calls on 1-D arrays;
    - [Store]   an object store with aliasing, and the three array helpers of
                the class ([_adjust_volume], [_fade_in], [_fade_out]) as
                store transformers;
    - section [Assembler]: the helpers on array values and [assemble];
    - the quantities of the statements and concrete collaborators;
    - the stages around the assembler: the podcast data ([Json], [Podcast]),
      the audio generator ([Gen]), the pipeline ([Pipeline]), the model
      configuration, the LLM factory and the command line ([ModelConfig],
      [LLMFactory], [Cli]);
    - lemmas on slices, fades, the loop and the store, then the claims
      C1-C10, each with its theorem;
    - further properties of the assembler and of the other stages, X1-X29.

    Samples are IEEE binary64 values (Rocq's primitive floats, which also
    contain every binary32 value librosa produces).  What the third-party
    libraries compute (libm's [pow], numpy's element-wise product in the
    dtype of the array, soundfile, librosa, the file system) is not code of
    this repository: it enters as parameters. *)

From Stdlib Require Import ZArith Ascii String Floats Uint63.
From stdpp Require Import base list sorting strings pretty.

Set Warnings "-inexact-float".

(** ** Exceptions and results *)

(** The exception classes the assembler can meet: those of
    [src/utils/exceptions.py], the built-in ones raised by the code or by
    numpy, and any other [Exception] subclass of a library, by name. *)
Inductive exn_class : Type :=
  | PodcastGenerationError
  | ConfigurationError
  | ContentGenerationError
  | TranslationError
  | AudioGenerationError
  | AudioAssemblyError
  | ValueError
  | OverflowError
  | LibraryError (cls : string).

(** [class X(Base)]: the direct base class, as declared in exceptions.py;
    [None] stands for a direct subclass of a built-in class. *)
Definition base_class (c : exn_class) : option exn_class :=
  match c with
  | ConfigurationError | ContentGenerationError | TranslationError
  | AudioGenerationError | AudioAssemblyError => Some PodcastGenerationError
  | _ => None
  end.

(** An exception object: its class and [str(e)]. *)
Record exn : Type := Exn { exn_cls : exn_class; exn_str : string }.

Inductive result (A : Type) : Type :=
  | Ok (a : A)
  | Raise (e : exn).
Arguments Ok {A} a.
Arguments Raise {A} e.

Definition bind {A B} (r : result A) (k : A -> result B) : result B :=
  match r with
  | Ok a => k a
  | Raise e => Raise e
  end.

(** [x ← c; k] runs [k] on the value of [c] and propagates what [c] raises. *)
#[global] Instance result_ret : MRet result := fun A a => Ok a.
#[global] Instance result_bind : MBind result := fun A B k r => bind r k.

(** ** Python values *)

Module Py.

(** [float(n)] for an int within the 63-bit range. *)
Definition float_of_int (z : Z) : float :=
  if (z <? 0)%Z then (- PrimFloat.of_uint63 (Uint63.of_Z (- z)))%float
  else PrimFloat.of_uint63 (Uint63.of_Z z).

(** The integer part of [m * 2^e], [m > 0]. *)
Definition trunc_pos (m : positive) (e : Z) : Z :=
  match e with
  | Z0 => Zpos m
  | Zpos p => Z.shiftl (Zpos m) (Zpos p)
  | Zneg p => Z.shiftr (Zpos m) (Zpos p)
  end.

(** [int(x)] on a float: truncation toward zero. *)
Definition int (x : float) : result Z :=
  match Prim2SF x with
  | S754_zero _ => Ok 0%Z
  | S754_finite s m e =>
      let a := trunc_pos m e in Ok (if s then (- a)%Z else a)
  | S754_infinity _ =>
      Raise (Exn OverflowError "cannot convert float infinity to integer")
  | S754_nan => Raise (Exn ValueError "cannot convert float NaN to integer")
  end.

(** [round(x)] on a float: the nearest integer, ties to even. *)
Definition round_pos (m : positive) (e : Z) : Z :=
  match e with
  | Zneg p =>
      let q := Z.shiftr (Zpos m) (Zpos p) in
      let r := (Zpos m - Z.shiftl q (Zpos p))%Z in
      let half := Z.shiftl 1 (Zpos p - 1) in
      match (r ?= half)%Z with
      | Lt => q
      | Gt => (q + 1)%Z
      | Eq => if Z.even q then q else (q + 1)%Z
      end
  | _ => trunc_pos m e
  end.

Definition round (x : float) : result Z :=
  match Prim2SF x with
  | S754_zero _ => Ok 0%Z
  | S754_finite s m e =>
      let a := round_pos m e in Ok (if s then (- a)%Z else a)
  | S754_infinity _ =>
      Raise (Exn OverflowError "cannot convert float infinity to integer")
  | S754_nan => Raise (Exn ValueError "cannot convert float NaN to integer")
  end.

(** [needle in hay] on strings. *)
Fixpoint str_in (needle hay : string) : bool :=
  String.prefix needle hay ||
  match hay with
  | EmptyString => false
  | String _ rest => str_in needle rest
  end.

(** [sorted(xs, key=key)] on string keys: Python's sort is stable, so it is
    the one stable arrangement by [<=], which insertion builds directly. *)
Fixpoint insert_by {A} (key : A -> string) (x : A) (l : list A) : list A :=
  match l with
  | [] => [x]
  | y :: l' =>
      if String.leb (key x) (key y) then x :: l else y :: insert_by key x l'
  end.

Definition sorted {A} (key : A -> string) (l : list A) : list A :=
  foldr (insert_by key) [] l.

End Py.

(** ** pathlib *)

Module Pathlib.

(** A [pathlib.Path] (POSIX flavour): whether it is rooted, and its
    components. *)
Record Path : Type := MkPath { absolute : bool; parts : list string }.

(** Splitting at ['/'] ; empty and ['.'] components are dropped, as pathlib
    does when it parses a string. *)
Fixpoint split_slash (cur : string) (s : string) : list string :=
  match s with
  | EmptyString => [cur]
  | String c rest =>
      if Ascii.eqb c "/"%char then cur :: split_slash "" rest
      else split_slash (cur +:+ String c "") rest
  end.

Definition keep_part (s : string) : bool :=
  negb (String.eqb s "" || String.eqb s ".").

(** [Path(s)] *)
Definition path_of_string (s : string) : Path :=
  MkPath (String.prefix "/" s) (filter (fun p => keep_part p = true) (split_slash "" s)).

(** [p.name] *)
Definition name (p : Path) : string := default "" (last (parts p)).

(** [p / q] *)
Definition joinpath (p q : Path) : Path :=
  if absolute q then q else MkPath (absolute p) (parts p ++ parts q).

(** [str(p)] *)
Definition path_str (p : Path) : string :=
  match absolute p, parts p with
  | false, [] => "."
  | false, ps => String.concat "/" ps
  | true, ps => "/" +:+ String.concat "/" ps
  end.

End Pathlib.

(** ** numpy on one-dimensional arrays *)

Module Np.

(** What [sf.read] returns: a 1-D array for a mono file, a 2-D array
    (frames by channels) otherwise. *)
Inductive ndarray : Type :=
  | Arr1 (a : list float)
  | Arr2 (rows : list (list float)).

(** [np.zeros(n)] *)
Definition zeros (n : Z) : result (list float) :=
  if (n <? 0)%Z then Raise (Exn ValueError "negative dimensions are not allowed")
  else Ok (replicate (Z.to_nat n) 0%float).

(** [np.linspace(start, stop, num)] with the default [endpoint=True]:
    [arange(num) * step + start], the last entry overwritten by [stop]. *)
Definition linspace (start stop : float) (num : Z) : result (list float) :=
  if (num <? 0)%Z then
    Raise (Exn ValueError
             ("Number of samples, " +:+ pretty num +:+ ", must be non-negative."))
  else
    let div := (num - 1)%Z in
    let delta := (stop - start)%float in
    let y := (fun i => Py.float_of_int (Z.of_nat i)) <$> seq 0 (Z.to_nat num) in
    let y :=
      if (0 <? div)%Z then
        let step := (delta / Py.float_of_int div)%float in
        if (step =? 0)%float
        then (fun v => v / Py.float_of_int div * delta)%float <$> y
        else (fun v => v * step)%float <$> y
      else (fun v => v * delta)%float <$> y in
    let y := (fun v => v + start)%float <$> y in
    Ok (if (1 <? num)%Z then <[Z.to_nat (num - 1) := stop]> y else y).

(** [np.concatenate(arrays)] *)
Definition concatenate (arrays : list (list float)) : result (list float) :=
  match arrays with
  | [] => Raise (Exn ValueError "need at least one array to concatenate")
  | _ => Ok (concat arrays)
  end.

(** A basic slice [start:stop] (step 1); [None] is an omitted bound. *)
Record slice : Type := Slice { start : option Z; stop : option Z }.

(** [a[:k]] and [a[-k:]] *)
Definition upto (k : Z) : slice := Slice None (Some k).
Definition last_n (k : Z) : slice := Slice (Some (- k)%Z) None.

(** Python's clipping of a slice bound against the length. *)
Definition norm_index (len : nat) (i : Z) : nat :=
  if (i <? 0)%Z then Z.to_nat (Z.max (i + Z.of_nat len) 0)
  else Z.to_nat (Z.min i (Z.of_nat len)).

Definition bounds (len : nat) (s : slice) : nat * nat :=
  (from_option (norm_index len) 0%nat (start s),
   from_option (norm_index len) len (stop s)).

(** [a[s]]: the elements the slice selects. *)
Definition getitem (a : list float) (s : slice) : list float :=
  let '(lo, hi) := bounds (length a) s in take (hi - lo) (drop lo a).

(** The array after the elements selected by [s] became [v]
    ([length v] is the length of [a[s]]). *)
Definition update (a : list float) (s : slice) (v : list float) : list float :=
  let '(lo, _) := bounds (length a) s in
  take lo a ++ v ++ drop (lo + length v) a.

Definition shape_str (n : nat) : string := "(" +:+ pretty n +:+ ",)".

(** [a[s] *= other]: the in-place product writes into the view [a[s]], so
    [other] must have the length of the view or length 1 (broadcast);
    anything else is numpy's shape-mismatch [ValueError].  [mul] is the
    element-wise product in the dtype of [a]. *)
Definition imul (mul : float -> float -> float)
    (a : list float) (s : slice) (other : list float) : result (list float) :=
  let view := getitem a s in
  if decide (length other = length view) then
    Ok (update a s (zip_with mul view other))
  else if decide (length other = 1%nat) then
    Ok (update a s ((fun x => mul x (default 0%float (head other))) <$> view))
  else if decide (length view = 1%nat) then
    Raise (Exn ValueError
             ("non-broadcastable output operand with shape (1,) doesn't match the broadcast shape "
              +:+ shape_str (length other)))
  else
    Raise (Exn ValueError
             ("operands could not be broadcast together with shapes "
              +:+ shape_str (length view) +:+ " " +:+ shape_str (length other) +:+ " "
              +:+ shape_str (length view) +:+ " ")).

End Np.

(** ** Configuration and collaborators *)

Import Pathlib.

(** The fields of [AudioConfig] and [PodcastConfig] (src/core/config.py)
    the assembler reads.  A volume is a gain in dB, or [None]. *)
Record AudioConfig : Type := {
  cfg_output_file : string;
  cfg_music_path : string;
  cfg_vocal_volume : option float;
  cfg_bg_intro_volume : option float;
  cfg_bg_content_volume : option float;
  cfg_bg_outro_volume : option float
}.

Record PodcastConfig : Type := {
  cfg_output_dir : string;
  cfg_audio : AudioConfig
}.

(** The attributes of an [AudioAssembler] instance. *)
Record AudioAssembler : Type := {
  audio_dir : Path;
  output_file : string;
  music_path : Path;
  sample_rate : Z;
  vocal_volume : option float;
  bg_intro_volume : option float;
  bg_content_volume : option float;
  bg_outro_volume : option float
}.

(** [AudioAssembler.__init__] *)
Definition init (config : PodcastConfig) : AudioAssembler := {|
  audio_dir := path_of_string (cfg_output_dir config);
  output_file := cfg_output_file (cfg_audio config);
  music_path := path_of_string (cfg_music_path (cfg_audio config));
  sample_rate := 24000;
  vocal_volume := cfg_vocal_volume (cfg_audio config);
  bg_intro_volume := cfg_bg_intro_volume (cfg_audio config);
  bg_content_volume := cfg_bg_content_volume (cfg_audio config);
  bg_outro_volume := cfg_bg_outro_volume (cfg_audio config)
|}.

(** The [audio_files] argument of [assemble] when it is not [None]: a dict
    (in insertion order) or a list. *)
Inductive audio_files_arg : Type :=
  | FileDict (d : list (string * Path))
  | FileList (l : list Path).

(** What lies outside the repository: the file system, soundfile, librosa
    and the numeric kernels.  Each is a function of its arguments; a call
    that fails raises. *)
Record Env : Type := {
  (** names of the entries of a directory matching ['*.wav'], in the order
      the operating system lists them *)
  glob_wav : Path -> list string;
  (** [Path.mkdir(exist_ok=True, parents=True)] *)
  mkdir : Path -> result unit;
  (** [librosa.load(path, sr=rate)]: the mono waveform at [rate] *)
  librosa_load : Path -> Z -> result (list float);
  (** [sf.read(file)]: the samples and the file's sample rate *)
  sf_read : Path -> result (Np.ndarray * Z);
  (** [librosa.resample(audio, orig_sr, target_sr)] *)
  librosa_resample : Np.ndarray -> Z -> Z -> result Np.ndarray;
  (** [np.mean(rows, axis=1)] *)
  mean_axis1 : list (list float) -> list float;
  (** [sf.write(path, data, rate)] *)
  sf_write : Path -> list float -> Z -> result unit;
  (** [10 ** x] is [pow 10 x]; Python raises [OverflowError] on overflow *)
  pow : float -> float -> result float;
  (** the element-wise product of numpy, in the dtype of the array *)
  npmul : float -> float -> float
}.

(** The default of [duration_seconds] in [_fade_in] and [_fade_out]. *)
Definition default_fade : float := 0.5%float.

(** ** The array helpers over an object store

    numpy arrays are mutable objects: [audio.copy()] allocates, [a[s] *= f]
    writes into the object [a] names, [return audio] hands back the very
    object it was given.  A store maps each array object to its samples;
    objects are never freed, and a new one takes the next free index. *)

Module Store.

Abbreviation loc := nat.
Abbreviation store := (list (list float)).

(** A computation on the store that returns or raises. *)
Definition M (A : Type) : Type := store -> store * result A.

Definition ret {A} (a : A) : M A := fun h => (h, Ok a).

Definition bind {A B} (m : M A) (k : A -> M B) : M B :=
  fun h =>
    match m h with
    | (h', Ok a) => k a h'
    | (h', Raise e) => (h', Raise e)
    end.

#[global] Instance M_ret : MRet M := @ret.
#[global] Instance M_bind : MBind M := fun A B k m => bind m k.

(** A pure step that may raise. *)
Definition lift {A} (r : result A) : M A := fun h => (h, r).

(** The samples of a live object.  Python has no dangling names; the error
    marks a location that was never allocated. *)
Definition read (l : loc) : M (list float) :=
  fun h =>
    match h !! l with
    | Some a => (h, Ok a)
    | None => (h, Raise (Exn (LibraryError "ReferenceError") "no such object"))
    end.

Definition alloc (a : list float) : M loc :=
  fun h => (h ++ [a], Ok (length h)).

Definition write (l : loc) (a : list float) : M unit :=
  fun h => (<[l := a]> h, Ok tt).

(** [audio.copy()] *)
Definition copy (audio : loc) : M loc :=
  a ← read audio; alloc a.

Section Helpers.
Variable E : Env.
Variable self : AudioAssembler.

(** [a[s] *= other], on the object [a] *)
Definition imul (a : loc) (s : Np.slice) (other : list float) : M unit :=
  v ← read a;
  v' ← lift (Np.imul (npmul E) v s other);
  write a v'.

(** Lines 141-143 of [_adjust_volume]: the product with the amplitude
    factor, a new array. *)
Definition multiply_path (audio : loc) (db_change : float) : M loc :=
  factor ← lift (pow E 10 (db_change / 20)%float);
  a ← read audio;
  alloc ((fun x => npmul E x factor) <$> a).

Definition _adjust_volume (audio : loc) (db_change : float) : M loc :=
  if (db_change =? 0)%float then ret audio
  else multiply_path audio db_change.

Definition _fade_in (audio : loc) (duration_seconds : float) : M loc :=
  fade_length ← lift (Py.int (Py.float_of_int (sample_rate self) * duration_seconds)%float);
  fade ← lift (Np.linspace 0 1 fade_length);
  audio_copy ← copy audio;
  _ ← imul audio_copy (Np.upto fade_length) fade;
  ret audio_copy.

Definition _fade_out (audio : loc) (duration_seconds : float) : M loc :=
  fade_length ← lift (Py.int (Py.float_of_int (sample_rate self) * duration_seconds)%float);
  fade ← lift (Np.linspace 1 0 fade_length);
  audio_copy ← copy audio;
  _ ← imul audio_copy (Np.last_n fade_length) fade;
  ret audio_copy.

End Helpers.

End Store.

(** ** The assembler on array values

    [assemble] creates every array it works on and never writes into one
    after handing it on, so it is modelled on the samples themselves; the
    lemmas of section [StoreFacts] relate the helpers below to those over
    the store. *)

Section Assembler.
Variable E : Env.

Definition _create_silence (self : AudioAssembler) (duration_seconds : float)
    : result (list float) :=
  n ← Py.int (Py.float_of_int (sample_rate self) * duration_seconds)%float;
  Np.zeros n.

Definition _fade_in (self : AudioAssembler) (audio : list float)
    (duration_seconds : float) : result (list float) :=
  fade_length ← Py.int (Py.float_of_int (sample_rate self) * duration_seconds)%float;
  fade ← Np.linspace 0 1 fade_length;
  let audio_copy := audio in
  Np.imul (npmul E) audio_copy (Np.upto fade_length) fade.

Definition _fade_out (self : AudioAssembler) (audio : list float)
    (duration_seconds : float) : result (list float) :=
  fade_length ← Py.int (Py.float_of_int (sample_rate self) * duration_seconds)%float;
  fade ← Np.linspace 1 0 fade_length;
  let audio_copy := audio in
  Np.imul (npmul E) audio_copy (Np.last_n fade_length) fade.

Definition _adjust_volume (audio : list float) (db_change : float)
    : result (list float) :=
  if (db_change =? 0)%float then Ok audio
  else
    factor ← pow E 10 (db_change / 20)%float;
    Ok ((fun x => npmul E x factor) <$> audio).

(** [if volume is not None: audio = self._adjust_volume(audio, volume)] *)
Definition apply_volume (volume : option float) (audio : list float)
    : result (list float) :=
  match volume with
  | Some db => _adjust_volume audio db
  | None => Ok audio
  end.

(** Lines 58-60: the intro and outro excerpts of the music. *)
Definition samples_15s (self : AudioAssembler) : Z := (15 * sample_rate self)%Z.

Definition first_15s (self : AudioAssembler) (music_audio : list float) : list float :=
  if (samples_15s self <=? Z.of_nat (length music_audio))%Z
  then Np.getitem music_audio (Np.upto (samples_15s self))
  else music_audio.

Definition last_15s (self : AudioAssembler) (music_audio : list float) : list float :=
  if (samples_15s self <=? Z.of_nat (length music_audio))%Z
  then Np.getitem music_audio (Np.last_n (samples_15s self))
  else music_audio.

(** Lines 72-82: a segment read, resampled, folded to mono and gained.
    [audio.ndim > 1] holds of the 2-D arrays, and of them only. *)
Definition load_segment (self : AudioAssembler) (file : Path) : result (list float) :=
  '(audio, sr) ← sf_read E file;
  audio ← (if decide (sr ≠ sample_rate self)
           then librosa_resample E audio sr (sample_rate self)
           else Ok audio);
  let audio := match audio with
               | Np.Arr1 a => a
               | Np.Arr2 rows => mean_axis1 E rows
               end in
  apply_volume (vocal_volume self) audio.

(** Lines 84-88: the fade of segment [i] of [n]. *)
Definition apply_fades (self : AudioAssembler) (n i : nat) (audio : list float)
    : result (list float) :=
  if decide (i = 0%nat) then _fade_in self audio default_fade
  else if decide (Z.of_nat i = Z.of_nat n - 1)%Z then _fade_out self audio default_fade
  else Ok audio.

(** Lines 94-99: the pause that follows a file, by its name. *)
Definition gap_seconds (file : Path) : float :=
  if Py.str_in "_topic" (name file) then 1.5%float
  else if Py.str_in "_speaker" (name file) then 0.7%float
  else 1.0%float.

(** Lines 92-99: what follows segment [i] of [n] in [podcast_segments]. *)
Definition gap_after (self : AudioAssembler) (n i : nat) (file : Path)
    : result (list (list float)) :=
  if decide (Z.of_nat i ≠ Z.of_nat n - 1)%Z then
    silence ← _create_silence self (gap_seconds file);
    Ok [silence]
  else Ok [].

(** One iteration of the loop of lines 71-99. *)
Definition loop_body (self : AudioAssembler) (n i : nat) (file : Path)
    (podcast_segments : list (list float)) : result (list (list float)) :=
  audio ← load_segment self file;
  audio ← apply_fades self n i audio;
  let podcast_segments := podcast_segments ++ [audio] in
  gap ← gap_after self n i file;
  Ok (podcast_segments ++ gap).

(** The loop over [enumerate(audio_files)], from index [i] on. *)
Fixpoint loop (self : AudioAssembler) (n i : nat) (files : list Path)
    (podcast_segments : list (list float)) : result (list (list float)) :=
  match files with
  | [] => Ok podcast_segments
  | file :: rest =>
      podcast_segments ← loop_body self n i file podcast_segments;
      loop self n (S i) rest podcast_segments
  end.

(** Lines 38-45: the ordered list of segment files. *)
Definition resolve_files (self : AudioAssembler) (audio_files : option audio_files_arg)
    : result (list Path) :=
  match audio_files with
  | None =>
      let found :=
        (fun nm => joinpath (audio_dir self) (MkPath false [nm]))
          <$> Py.sorted id (glob_wav E (audio_dir self)) in
      match found with
      | [] => Raise (Exn ValueError
                       ("No WAV files found in " +:+ path_str (audio_dir self)))
      | _ => Ok found
      end
  | Some (FileDict d) => Ok (Py.sorted name (d.*2))
  | Some (FileList l) => Ok l
  end.

(** Lines 53-103: [podcast_segments] as handed to [np.concatenate]. *)
Definition build_segments (self : AudioAssembler) (audio_files : list Path)
    : result (list (list float)) :=
  music_audio ← librosa_load E (music_path self) (sample_rate self);
  first ← apply_volume (bg_intro_volume self) (first_15s self music_audio);
  last ← apply_volume (bg_outro_volume self) (last_15s self music_audio);
  podcast_segments ← loop self (length audio_files) 0 audio_files [first];
  Ok (podcast_segments ++ [last]).

(** The outcome of a successful call: the returned path and the buffer
    written there by [sf.write]. *)
Record assembled : Type := Assembled {
  output_path : Path;
  final_podcast : list float
}.

(** The body of the [try] block, lines 38-110. *)
Definition assemble_body (self : AudioAssembler)
    (audio_files : option audio_files_arg) (output_dir : option Path)
    : result assembled :=
  audio_files ← resolve_files self audio_files;
  let output_dir := default (audio_dir self) output_dir in
  _ ← mkdir E output_dir;
  let output_path := joinpath output_dir (path_of_string (output_file self)) in
  podcast_segments ← build_segments self audio_files;
  final_podcast ← Np.concatenate podcast_segments;
  _ ← sf_write E output_path final_podcast (sample_rate self);
  Ok (Assembled output_path final_podcast).

(** [except Exception as e: raise AudioAssemblyError(...)], lines 112-114. *)
Definition wrap (e : exn) : exn :=
  Exn AudioAssemblyError ("Podcast assembly failed: " +:+ exn_str e).

Definition assemble (self : AudioAssembler)
    (audio_files : option audio_files_arg) (output_dir : option Path)
    : result assembled :=
  match assemble_body self audio_files output_dir with
  | Ok out => Ok out
  | Raise e => Raise (wrap e)
  end.

End Assembler.

(** ** Quantities of the statements

    At the fixed rate of 24000 Hz a fade lasts 12000 samples and a music
    excerpt 360000. *)

(** The envelopes of [_fade_in] and [_fade_out] at the default duration. *)
Definition fade_in_ramp : list float :=
  match Np.linspace 0 1 12000 with Ok l => l | Raise _ => [] end.

Definition fade_out_ramp : list float :=
  match Np.linspace 1 0 12000 with Ok l => l | Raise _ => [] end.

(** A clip whose first 12000 samples were multiplied by the rising ramp. *)
Definition faded_in (E : Env) (audio : list float) : list float :=
  zip_with (npmul E) (take (Z.to_nat 12000) audio) fade_in_ramp
  ++ drop (Z.to_nat 12000) audio.

(** A clip whose last 12000 samples were multiplied by the falling ramp. *)
Definition faded_out (E : Env) (audio : list float) : list float :=
  take (length audio - Z.to_nat 12000) audio
  ++ zip_with (npmul E) (drop (length audio - Z.to_nat 12000) audio) fade_out_ramp.

(** A ramp of 12000 entries written out: entry [k] is [k * step + start],
    but for the last, which is [stop]. *)
Definition linear_ramp (start step stop : float) : list float :=
  <[Z.to_nat 11999 := stop]>
    ((fun i => (Py.float_of_int (Z.of_nat i) * step + start)%float)
       <$> seq 0 (Z.to_nat 12000)).

(** The pause after a file in samples: 1.5 s, 0.7 s or 1 s at 24000 Hz. *)
Definition gap_samples (file : Path) : Z :=
  if Py.str_in "_topic" (name file) then 36000%Z
  else if Py.str_in "_speaker" (name file) then 16800%Z
  else 24000%Z.

(** What a run of a fade leaves behind: every object that existed keeps
    its samples, and the result, when there is one, is a new object that
    holds what the fade computes on the samples of the argument. *)
Definition fade_frame (audio : Store.loc) (buf : list float)
    (h : list (list float)) (value : result (list float))
    (run : list (list float) * result Store.loc) : Prop :=
  let '(h', r) := run in
  h' !! audio = Some buf /\
  take (length h) h' = h /\
  match r with
  | Ok out => out ≠ audio /\ h !! out = None /\ exists v, value = Ok v /\ h' !! out = Some v
  | Raise e => value = Raise e
  end.

(** ** Concrete collaborators for the examples

    A configuration without gains, and an environment in which every
    segment file is one silent second at 24000 Hz, the music lasts twenty
    seconds, the working directory holds no [.wav] file and every file
    operation succeeds.  Its [pow] stands in for libm's at the exponents 0
    and 1, where it is exact. *)

Definition cfg_w : PodcastConfig := {|
  cfg_output_dir := "output";
  cfg_audio := {|
    cfg_output_file := "podcast.wav";
    cfg_music_path := "music/background.mp3";
    cfg_vocal_volume := None;
    cfg_bg_intro_volume := None;
    cfg_bg_content_volume := None;
    cfg_bg_outro_volume := None
  |}
|}.

Definition clip_w : list float := replicate (Z.to_nat 24000) 0%float.
Definition music_w : list float := replicate (Z.to_nat 480000) 0.25%float.

Definition E_w : Env := {|
  glob_wav := fun _ => [];
  mkdir := fun _ => Ok tt;
  librosa_load := fun _ _ => Ok music_w;
  sf_read := fun _ => Ok (Np.Arr1 clip_w, 24000%Z);
  librosa_resample := fun a _ _ => Ok a;
  mean_axis1 := fun rows => (fun _ => 0%float) <$> rows;
  sf_write := fun _ _ _ => Ok tt;
  pow := fun x y => if (y =? 0)%float then Ok 1%float else Ok x;
  npmul := PrimFloat.mul
|}.

Definition files_w : list Path :=
  [MkPath false ["output"; "a_topic.wav"];
   MkPath false ["output"; "b_speaker.wav"];
   MkPath false ["output"; "c.wav"]].

(** The class of the exception a call raised, if it raised. *)
Definition exn_cls_of {A} (r : result A) : option exn_class :=
  match r with Ok _ => None | Raise e => Some (exn_cls e) end.

(** "A gain of 0 dB exercises the multiply path": at 0 dB [_adjust_volume]
    does what lines 141-143 do, on the store [h] and the array [audio]. *)
Definition zero_db_multiplies (E : Env) (h : list (list float)) (audio : Store.loc) : Prop :=
  Store._adjust_volume E audio 0%float h = Store.multiply_path E audio 0%float h.

(** The same collaborators with clips of two samples and a music of one. *)
Definition E_short : Env := {|
  glob_wav := glob_wav E_w;
  mkdir := mkdir E_w;
  librosa_load := fun _ _ => Ok [0.25%float];
  sf_read := fun _ => Ok (Np.Arr1 [0.5%float; 0.5%float], 24000%Z);
  librosa_resample := librosa_resample E_w;
  mean_axis1 := mean_axis1 E_w;
  sf_write := sf_write E_w;
  pow := pow E_w;
  npmul := npmul E_w
|}.

(** The collaborators of [E_w] on another day: other [.wav] files lie in
    the working directory, and the disk is full. *)
Definition E_w2 : Env := {|
  glob_wav := fun _ => ["zz.wav"; "aa.wav"];
  mkdir := mkdir E_w;
  librosa_load := librosa_load E_w;
  sf_read := sf_read E_w;
  librosa_resample := librosa_resample E_w;
  mean_axis1 := mean_axis1 E_w;
  sf_write := fun _ _ _ => Raise (Exn (LibraryError "LibsndfileError") "No space left on device");
  pow := pow E_w;
  npmul := npmul E_w
|}.

(** Two runs read the same inputs: the music asset and the listed segment
    files have the same content in both, and the libraries compute the same
    functions. *)
Definition same_inputs (E1 E2 : Env) (self : AudioAssembler) (files : list Path) : Prop :=
  librosa_load E1 (music_path self) (sample_rate self)
    = librosa_load E2 (music_path self) (sample_rate self) /\
  (forall file, file ∈ files -> sf_read E1 file = sf_read E2 file) /\
  (forall audio sr, librosa_resample E1 audio sr (sample_rate self)
                    = librosa_resample E2 audio sr (sample_rate self)) /\
  (forall rows, mean_axis1 E1 rows = mean_axis1 E2 rows) /\
  (forall x, pow E1 10 x = pow E2 10 x) /\
  (forall x y, npmul E1 x y = npmul E2 x y).

(** The collaborators of [E_w] with the three segment files in the working
    directory, listed out of order. *)
Definition E_scan : Env := {|
  glob_wav := fun _ => ["c.wav"; "a_topic.wav"; "b_speaker.wav"];
  mkdir := mkdir E_w;
  librosa_load := librosa_load E_w;
  sf_read := sf_read E_w;
  librosa_resample := librosa_resample E_w;
  mean_axis1 := mean_axis1 E_w;
  sf_write := sf_write E_w;
  pow := pow E_w;
  npmul := npmul E_w
|}.

(** ** Further quantities

    Orders on file names, sample counts of a run. *)

(** Each element's key is at most the next one's. *)
Fixpoint ascending {A} (key : A -> string) (l : list A) : bool :=
  match l with
  | x :: (y :: _) as l' => String.leb (key x) (key y) && ascending key l'
  | _ => true
  end.

(** The number of samples in a list of buffers laid end to end. *)
Definition samples (buffers : list (list float)) : nat := length (concat buffers).

(** The samples of the pauses a run inserts: one after every file but the
    last. *)
Definition pause_samples (files : list Path) : nat :=
  sum_list ((fun file => Z.to_nat (gap_samples file)) <$> removelast files).

(** Two dicts of segment files for the examples: the same three entries,
    inserted in different orders. *)
Definition dict_w : list (string * Path) :=
  [("outro", MkPath false ["output"; "c.wav"]);
   ("intro", MkPath false ["output"; "a_topic.wav"]);
   ("talk", MkPath false ["output"; "b_speaker.wav"])].

Definition dict_w2 : list (string * Path) :=
  [("talk", MkPath false ["output"; "b_speaker.wav"]);
   ("outro", MkPath false ["output"; "c.wav"]);
   ("intro", MkPath false ["output"; "a_topic.wav"])].

(** Gain, then fade-in, on the store (lines 81-86 for the first segment). *)
Definition gain_then_fade_in (E : Env) (self : AudioAssembler)
    (audio : Store.loc) (db_change duration_seconds : float) : Store.M Store.loc :=
  audio ← Store._adjust_volume E audio db_change;
  Store._fade_in E self audio duration_seconds.

(** * The stages around the assembler

    The podcast data model ([src/core/podcast.py]), the audio generator
    ([src/generators/audio.py]), the model configuration
    ([src/core/config.py]) and the pipeline ([src/core/pipeline.py]). *)

(** ** Python dicts with string keys, in insertion order *)

Module Dict.

(** [d[k] = v]: an existing key keeps its place. *)
Fixpoint set {V} (d : list (string * V)) (k : string) (v : V) : list (string * V) :=
  match d with
  | [] => [(k, v)]
  | (k', v') :: d' =>
      if String.eqb k' k then (k', v) :: d' else (k', v') :: set d' k v
  end.

(** [d.get(k)] *)
Fixpoint get {V} (d : list (string * V)) (k : string) : option V :=
  match d with
  | [] => None
  | (k', v') :: d' => if String.eqb k' k then Some v' else get d' k
  end.

End Dict.

(** ** The values of [json.load] and the three ways the code reads them *)

Module Json.

#[local] Unset Elimination Schemes.

Inductive value : Type :=
  | Null
  | Bool (b : bool)
  | Int (n : Z)
  | Float (x : float)
  | Str (s : string)
  | List (l : list value)
  | Dict (d : list (string * value)).

#[local] Set Elimination Schemes.

(** [type(v).__name__] *)
Definition type_name (v : value) : string :=
  match v with
  | Null => "NoneType"
  | Bool _ => "bool"
  | Int _ => "int"
  | Float _ => "float"
  | Str _ => "str"
  | List _ => "list"
  | Dict _ => "dict"
  end.

Definition no_attribute (v : value) (attribute : string) : exn :=
  Exn (LibraryError "AttributeError")
      ("'" +:+ type_name v +:+ "' object has no attribute '" +:+ attribute +:+ "'").

(** [v.get(k, fallback)] *)
Definition get (v : value) (k : string) (fallback : value) : result value :=
  match v with
  | Dict d => Ok (default fallback (Dict.get d k))
  | _ => Raise (no_attribute v "get")
  end.

(** [v.items()] *)
Definition items (v : value) : result (list (string * value)) :=
  match v with
  | Dict d => Ok d
  | _ => Raise (no_attribute v "items")
  end.

(** [for x in v]: the elements of a list, the keys of a dict, the
    characters of a string. *)
Definition iter (v : value) : result (list value) :=
  match v with
  | List l => Ok l
  | Dict d => Ok (Str <$> d.*1)
  | Str s => Ok ((fun c => Str (String c "")) <$> list_ascii_of_string s)
  | _ => Raise (Exn (LibraryError "TypeError")
                    ("'" +:+ type_name v +:+ "' object is not iterable"))
  end.

(** [v] for an [Optional[str]] attribute. *)
Definition of_option (o : option string) : value :=
  match o with
  | Some s => Str s
  | None => Null
  end.

End Json.

(** ** The podcast data model (src/core/podcast.py)

    The dataclasses [Exchange], [Topic] and [Podcast]: [t] has the field
    types of the annotations.  [from_dict] stores whatever the data hold,
    of whatever type, so what it builds is an [obj], whose attributes are
    JSON values; [as_obj] is a [t] seen as such an object. *)

Module Exchange.

Record t : Type := Make {
  speaker : string;
  content : string;
  timestamp : string;
  original_content : option string
}.

Record obj : Type := MakeObj {
  o_speaker : Json.value;
  o_content : Json.value;
  o_timestamp : Json.value;
  o_original_content : Json.value
}.

Definition as_obj (self : t) : obj := {|
  o_speaker := Json.Str (speaker self);
  o_content := Json.Str (content self);
  o_timestamp := Json.Str (timestamp self);
  o_original_content := Json.of_option (original_content self)
|}.

(** [exchange.__dict__] *)
Definition __dict__ (self : t) : Json.value :=
  Json.Dict [("speaker", Json.Str (speaker self));
             ("content", Json.Str (content self));
             ("timestamp", Json.Str (timestamp self));
             ("original_content", Json.of_option (original_content self))].

End Exchange.

Module Topic.

Record t : Type := Make {
  title : string;
  exchanges : list Exchange.t
}.

Record obj : Type := MakeObj {
  o_title : string;
  o_exchanges : list Exchange.obj
}.

Definition as_obj (self : t) : obj := {|
  o_title := title self;
  o_exchanges := Exchange.as_obj <$> exchanges self
|}.

End Topic.

Module Podcast.

Record t : Type := Make {
  title : string;
  description : string;
  intro : string;
  outro : string;
  topics : list Topic.t;
  document_text : string;
  created_at : string;
  original_intro : option string;
  original_outro : option string
}.

Record obj : Type := MakeObj {
  o_title : Json.value;
  o_description : Json.value;
  o_intro : Json.value;
  o_outro : Json.value;
  o_topics : list Topic.obj;
  o_document_text : Json.value;
  o_created_at : Json.value;
  o_original_intro : Json.value;
  o_original_outro : Json.value
}.

Definition as_obj (self : t) : obj := {|
  o_title := Json.Str (title self);
  o_description := Json.Str (description self);
  o_intro := Json.Str (intro self);
  o_outro := Json.Str (outro self);
  o_topics := Topic.as_obj <$> topics self;
  o_document_text := Json.Str (document_text self);
  o_created_at := Json.Str (created_at self);
  o_original_intro := Json.of_option (original_intro self);
  o_original_outro := Json.of_option (original_outro self)
|}.

(** [{key: value} if value else {}] for an [Optional[str]] attribute. *)
Definition if_truthy (key : string) (o : option string) : list (string * Json.value) :=
  match o with
  | Some (String c s) => [(key, Json.Str (String c s))]
  | _ => []
  end.

(** The dict comprehension of lines 58-61. *)
Definition conversations (self : t) : list (string * Json.value) :=
  foldl (fun d topic =>
           Dict.set d (Topic.title topic)
             (Json.List (Exchange.__dict__ <$> Topic.exchanges topic)))
        [] (topics self).

Definition to_dict (self : t) : Json.value :=
  Json.Dict
    ([("metadata",
       Json.Dict [("title", Json.Str (title self));
                  ("description", Json.Str (description self));
                  ("timestamp", Json.Str (created_at self));
                  ("document", Json.Str (document_text self));
                  ("total_topics", Json.Int (Z.of_nat (length (topics self))))]);
      ("intro", Json.Str (intro self));
      ("conversations", Json.Dict (conversations self));
      ("outro", Json.Str (outro self))]
     ++ if_truthy "original_intro" (original_intro self)
     ++ if_truthy "original_outro" (original_outro self)).

(** Lines 84-91: one exchange of a conversation. *)
Definition exchange_of (exchange_data : Json.value) : result Exchange.obj :=
  speaker ← Json.get exchange_data "speaker" (Json.Str "");
  content ← Json.get exchange_data "content" (Json.Str "");
  timestamp ← Json.get exchange_data "timestamp" (Json.Str "");
  original_content ← Json.get exchange_data "original_content" Json.Null;
  Ok (Exchange.MakeObj speaker content timestamp original_content).

(** Lines 81-92: one conversation. *)
Definition topic_of (item : string * Json.value) : result Topic.obj :=
  exchanges_data ← Json.iter item.2;
  exchanges ← mapM exchange_of exchanges_data;
  Ok (Topic.MakeObj item.1 exchanges).

(** [data.get("metadata", {}).get(key, fallback)] *)
Definition metadata (data : Json.value) (key : string) (fallback : Json.value)
    : result Json.value :=
  m ← Json.get data "metadata" (Json.Dict []);
  Json.get m key fallback.

(** [Podcast.from_dict(data)]; [now] is [datetime.now().isoformat()]. *)
Definition from_dict (now : string) (data : Json.value) : result obj :=
  title ← metadata data "title" (Json.Str "");
  description ← metadata data "description" (Json.Str "");
  intro ← Json.get data "intro" (Json.Str "");
  outro ← Json.get data "outro" (Json.Str "");
  document_text ← metadata data "document" (Json.Str "");
  created_at ← metadata data "timestamp" (Json.Str now);
  original_intro ← Json.get data "original_intro" Json.Null;
  original_outro ← Json.get data "original_outro" Json.Null;
  conversations ← (c ← Json.get data "conversations" (Json.Dict []); Json.items c);
  topics ← mapM topic_of conversations;
  Ok {| o_title := title; o_description := description; o_intro := intro;
        o_outro := outro; o_topics := topics; o_document_text := document_text;
        o_created_at := created_at; o_original_intro := original_intro;
        o_original_outro := original_outro |}.

End Podcast.

(** ** The audio generator (src/generators/audio.py) *)

Module Gen.

(** [f'{i:02d}'] and [f'{j}'] for the indices of [enumerate(..., 1)]. *)
Definition fmt_02d (i : nat) : string :=
  if (i <? 10)%nat then "0" +:+ pretty i else pretty i.

(** [s.endswith(suffix)] *)
Definition endswith (suffix s : string) : bool :=
  String.prefix (String.rev suffix) (String.rev s).

(** [name.rfind('.')]: the index of the last dot. *)
Fixpoint rfind_dot (s : string) : option nat :=
  match s with
  | EmptyString => None
  | String c rest =>
      match rfind_dot rest with
      | Some i => Some (S i)
      | None => if Ascii.eqb c "."%char then Some 0%nat else None
      end
  end.

(** [Path(p).stem]: the final component without its last suffix. *)
Definition stem (p : Path) : string :=
  let nm := name p in
  match rfind_dot nm with
  | Some i =>
      if ((0 <? i) && (i <? String.length nm - 1))%nat
      then String.substring 0 i nm else nm
  | None => nm
  end.

(** The class attributes [LANG_CODES] and [VOICE_PREFIXES]. *)
Definition LANG_CODES : list (string * string) :=
  [("a", "American English"); ("b", "British English"); ("j", "Japanese");
   ("h", "Hindi"); ("p", "Portuguese"); ("z", "Chinese (Mandarin)");
   ("i", "Italian"); ("f", "French"); ("e", "Spanish")].

Definition VOICE_PREFIXES : list (string * list string) :=
  [("a", ["af_"; "am_"]); ("b", ["bf_"; "bm_"]); ("j", ["jf_"; "jm_"]);
   ("h", ["hf_"; "hm_"]); ("p", ["pf_"; "pm_"]); ("z", ["zf_"; "zm_"]);
   ("i", ["if_"; "im_"]); ("f", ["ff_"]); ("e", ["ef_"; "em_"])].

(** What the generator reads of the configuration ([config.audio]). *)
Record Config : Type := {
  cfg_audio_output_dir : string;
  cfg_chunk_size : Z;
  cfg_lang : string;
  cfg_host_voice : string;
  cfg_moderator_voice : string;
  cfg_guest_voice : string
}.

(** The attributes of an [AudioGenerator] instance. *)
Record AudioGenerator : Type := {
  output_dir : Path;
  chunk_size : Z;
  lang_code : string;
  host_voice : string;
  moderator_voice : string;
  guest_voice : string
}.

(** [self.voices] *)
Definition voices (self : AudioGenerator) : list (string * string) :=
  [("Host", host_voice self); ("Moderator", moderator_voice self);
   ("Guest", guest_voice self)].

(** What lies outside the repository: Kokoro, and Python's [str.lower]. *)
Record Kokoro : Type := {
  (** importing kokoro and building [KPipeline(lang_code)] *)
  kpipeline_init : string -> result unit;
  (** [list(self.pipeline(text, voice=voice, speed=1.0, split_pattern=...))]:
      the audio of each chunk *)
  speak : string -> string -> result (list (list float));
  (** [s.lower()] *)
  lower : string -> string
}.

Definition _extract_voice_name (voice_path : string) : string :=
  if endswith ".pt" voice_path then stem (path_of_string voice_path)
  else voice_path.

Definition quoted (s : string) : string := "'" +:+ s +:+ "'".

(** [d[k]], a [KeyError] when the key is missing. *)
Definition lookup_or_KeyError (d : list (string * string)) (k : string) : result string :=
  match Dict.get d k with
  | Some v => Ok v
  | None => Raise (Exn (LibraryError "KeyError") (quoted k))
  end.

Definition _validate_voice (lang_code voice role : string) : result unit :=
  let valid_prefixes := default [] (Dict.get VOICE_PREFIXES lang_code) in
  if negb (existsb (fun prefix => String.prefix prefix voice) valid_prefixes) then
    let prefix_examples := String.concat ", " (quoted <$> valid_prefixes) in
    language_name ← lookup_or_KeyError LANG_CODES lang_code;
    Raise (Exn ValueError
      ("The " +:+ role +:+ " voice '" +:+ voice
       +:+ "' does not match the language code '" +:+ lang_code +:+ "' ("
       +:+ language_name +:+ "). "
       +:+ "For this language, voice names should start with one of: "
       +:+ prefix_examples))
  else Ok tt.

(** The exception classes [except ImportError] catches. *)
Definition is_ImportError (c : exn_class) : bool :=
  match c with
  | LibraryError cls => String.eqb cls "ImportError" || String.eqb cls "ModuleNotFoundError"
  | _ => false
  end.

(** [AudioGenerator.__init__] *)
Definition init (E : Env) (K : Kokoro) (config : Config) : result AudioGenerator :=
  let output_dir := path_of_string (cfg_audio_output_dir config) in
  _ ← mkdir E output_dir;
  let lang_code := cfg_lang config in
  _ ← (if negb (existsb (fun entry => String.eqb entry.1 lang_code) LANG_CODES) then
         let valid_codes :=
           String.concat ", "
             ((fun entry => quoted entry.1 +:+ " (" +:+ entry.2 +:+ ")") <$> LANG_CODES) in
         Raise (Exn ValueError
                  ("Invalid language code '" +:+ lang_code
                   +:+ "'. Valid codes are: " +:+ valid_codes))
       else Ok tt);
  let host_voice := _extract_voice_name (cfg_host_voice config) in
  let moderator_voice := _extract_voice_name (cfg_moderator_voice config) in
  let guest_voice := _extract_voice_name (cfg_guest_voice config) in
  _ ← _validate_voice lang_code host_voice "host";
  _ ← _validate_voice lang_code moderator_voice "moderator";
  _ ← _validate_voice lang_code guest_voice "guest";
  match kpipeline_init K lang_code with
  | Ok _ =>
      Ok {| output_dir := output_dir; chunk_size := cfg_chunk_size config;
            lang_code := lang_code; host_voice := host_voice;
            moderator_voice := moderator_voice; guest_voice := guest_voice |}
  | Raise e =>
      if is_ImportError (exn_cls e) then
        let extra_info :=
          if String.eqb lang_code "j" then
            "For Japanese support, install: pip install misaki[ja]"
          else if String.eqb lang_code "z" then
            "For Chinese support, install: pip install misaki[zh]"
          else "Make sure Kokoro is installed: pip install kokoro" in
        Raise (Exn AudioGenerationError
                 ("Failed to initialize audio generator: " +:+ exn_str e
                  +:+ ". " +:+ extra_info))
      else Raise e
  end.

(** The files written so far, oldest first. *)
Abbreviation disk := (list (Path * list float)).

(** A computation that writes files and returns or raises. *)
Definition M (A : Type) : Type := disk -> disk * result A.

Definition ret {A} (a : A) : M A := fun d => (d, Ok a).

Definition bind {A B} (m : M A) (k : A -> M B) : M B :=
  fun d =>
    match m d with
    | (d', Ok a) => k a d'
    | (d', Raise e) => (d', Raise e)
    end.

#[global] Instance M_ret : MRet M := @ret.
#[global] Instance M_bind : MBind M := fun A B k m => bind m k.

Definition lift {A} (r : result A) : M A := fun d => (d, r).

Section Generator.
Variable E : Env.
Variable K : Kokoro.
Variable self : AudioGenerator.

(** [sf.write(output_path, final_audio, 24000)] *)
Definition write (output_path : Path) (final_audio : list float) : M unit :=
  fun d =>
    match sf_write E output_path final_audio 24000 with
    | Ok _ => (d ++ [(output_path, final_audio)], Ok tt)
    | Raise e => (d, Raise e)
    end.

(** Lines 183-189: the chunks, a pause of 0.3 s after each but the last. *)
Fixpoint collect (n i : nat) (items : list (list float))
    (audio_chunks : list (list float)) : result (list (list float)) :=
  match items with
  | [] => Ok audio_chunks
  | audio :: rest =>
      let audio_chunks := audio_chunks ++ [audio] in
      audio_chunks ←
        (if (Z.of_nat i <? Z.of_nat n - 1)%Z then
           pause ← (n ← Py.int (Py.float_of_int 24000 * 0.3)%float; Np.zeros n);
           Ok (audio_chunks ++ [pause])
         else Ok audio_chunks);
      collect n (S i) rest audio_chunks
  end.

(** The [try] block of [_generate_audio_for_text], lines 168-196. *)
Definition speak_and_write (text : string) (output_path : Path) (voice : string)
    : M unit :=
  generator_items ← lift (speak K text voice);
  audio_chunks ← lift (collect (length generator_items) 0 generator_items []);
  match audio_chunks with
  | [] => ret tt
  | _ =>
      final_audio ← lift (Np.concatenate audio_chunks);
      write output_path final_audio
  end.

(** Lines 203-215: the message of the [AudioGenerationError]. *)
Definition failure_message (voice : string) (e : exn) : string :=
  let error_msg :=
    "Failed to generate audio with voice '" +:+ voice
    +:+ "' for language '" +:+ lang_code self +:+ "'" in
  let low := lower K (exn_str e) in
  let error_msg :=
    if Py.str_in "voice not found" low || Py.str_in "voice unavailable" low then
      let error_msg :=
        error_msg +:+ ". Make sure the voice '" +:+ voice +:+ "' is available for "
        +:+ default "the selected language" (Dict.get LANG_CODES (lang_code self)) in
      if String.eqb (lang_code self) "j" && Py.str_in "not found" low then
        error_msg +:+ ". For Japanese support, run: pip install misaki[ja]"
      else if String.eqb (lang_code self) "z" && Py.str_in "not found" low then
        error_msg +:+ ". For Chinese support, run: pip install misaki[zh]"
      else error_msg
    else error_msg in
  error_msg +:+ ": " +:+ exn_str e.

Definition _generate_audio_for_text (text : string) (output_path : Path)
    (voice : string) : M unit :=
  fun d =>
    match speak_and_write text output_path voice d with
    | (d', Ok r) => (d', Ok r)
    | (d', Raise e) => (d', Raise (Exn AudioGenerationError (failure_message voice e)))
    end.

(** The file names of lines 135, 144, 151 and 158. *)
Definition intro_name : string := "00_intro.wav".
Definition outro_name : string := "99_outro.wav".
Definition topic_name (i : nat) : string := fmt_02d i +:+ "_0_topic.wav".
Definition exchange_name (i j : nat) (speaker : string) : string :=
  fmt_02d i +:+ "_" +:+ pretty j +:+ "_speaker_" +:+ lower K speaker +:+ ".wav".

(** [self.output_dir / file_name] *)
Definition in_output_dir (file_name : string) : Path :=
  joinpath (output_dir self) (path_of_string file_name).

(** The inner loop of lines 149-154, from exchange [j] on. *)
Fixpoint generate_exchanges (i j : nat) (exchanges : list Exchange.t)
    (audio_files : list (string * Path)) : M (list (string * Path)) :=
  match exchanges with
  | [] => ret audio_files
  | exchange :: rest =>
      let exchange_path := in_output_dir (exchange_name i j (Exchange.speaker exchange)) in
      guest ← lift (lookup_or_KeyError (voices self) "Guest");
      let voice := default guest (Dict.get (voices self) (Exchange.speaker exchange)) in
      _ ← _generate_audio_for_text (Exchange.content exchange) exchange_path voice;
      let audio_files :=
        Dict.set audio_files
          ("topic_" +:+ pretty i +:+ "_exchange_" +:+ pretty j) exchange_path in
      generate_exchanges i (S j) rest audio_files
  end.

(** The loop of lines 140-154, from topic [i] on. *)
Fixpoint generate_topics (i : nat) (topics : list Topic.t)
    (audio_files : list (string * Path)) : M (list (string * Path)) :=
  match topics with
  | [] => ret audio_files
  | topic :: rest =>
      let topic_path := in_output_dir (topic_name i) in
      host ← lift (lookup_or_KeyError (voices self) "Host");
      _ ← _generate_audio_for_text
            ("Topic " +:+ pretty i +:+ ": " +:+ Topic.title topic) topic_path host;
      let audio_files := Dict.set audio_files ("topic_" +:+ pretty i) topic_path in
      audio_files ← generate_exchanges i 1 (Topic.exchanges topic) audio_files;
      generate_topics (S i) rest audio_files
  end.

Definition generate (podcast : Podcast.t) : M (list (string * Path)) :=
  let audio_files := [] in
  let intro_path := in_output_dir intro_name in
  host ← lift (lookup_or_KeyError (voices self) "Host");
  _ ← _generate_audio_for_text (Podcast.intro podcast) intro_path host;
  let audio_files := Dict.set audio_files "intro" intro_path in
  audio_files ← generate_topics 1 (Podcast.topics podcast) audio_files;
  let outro_path := in_output_dir outro_name in
  host ← lift (lookup_or_KeyError (voices self) "Host");
  _ ← _generate_audio_for_text (Podcast.outro podcast) outro_path host;
  let audio_files := Dict.set audio_files "outro" outro_path in
  ret audio_files.

End Generator.

End Gen.

(** ** The pipeline (src/core/pipeline.py) *)

Module Pipeline.

(** What the pipeline reads of the configuration: the part the assembler
    reads, the part the generator reads. *)
Record Config : Type := {
  assembly : PodcastConfig;
  generation : Gen.Config
}.

(** What lies outside the repository or is not modelled here: the language
    models of the simulation and of the translation, and the JSON files. *)
Record Stages : Type := {
  (** [PodcastSimulation(config)] *)
  simulation_init : result unit;
  (** [TranslationService(config)] *)
  translation_init : result unit;
  (** [self.simulation.run_podcast_simulation()] *)
  run_podcast_simulation : result Podcast.t;
  (** [self.translation_service.process(podcast)] *)
  process : Podcast.t -> result Podcast.t;
  (** [path.exists()] *)
  path_exists : Path -> bool;
  (** [open(path, 'r')], [json.load] and [Podcast.from_dict], for a file
      whose values have the types of the dataclass fields *)
  load_podcast : Path -> result Podcast.t;
  (** [open(path, 'w')] and [json.dump(data, f, ...)] *)
  json_dump : Path -> Json.value -> result unit
}.

(** The attributes of a [PodcastPipeline] that [run] reads. *)
Record PodcastPipeline : Type := {
  output_dir : Path;
  audio_generator : Gen.AudioGenerator;
  audio_assembler : AudioAssembler;
  (** [self.config.audio.output_file] *)
  config_output_file : string
}.

Section Pipeline.
Variable E : Env.
Variable K : Gen.Kokoro.
Variable S : Stages.

(** [PodcastPipeline.__init__] *)
Definition init (config : Config) : result PodcastPipeline :=
  let output_dir := path_of_string (cfg_output_dir (assembly config)) in
  _ ← mkdir E output_dir;
  _ ← simulation_init S;
  _ ← translation_init S;
  audio_generator ← Gen.init E K (generation config);
  let audio_assembler := init (assembly config) in
  Ok {| output_dir := output_dir;
        audio_generator := audio_generator;
        audio_assembler := audio_assembler;
        config_output_file := cfg_output_file (cfg_audio (assembly config)) |}.

Variable self : PodcastPipeline.

Definition _save_podcast_json (podcast : Podcast.t) (filename : string) : result Path :=
  let json_path := joinpath (output_dir self) (path_of_string filename) in
  _ ← json_dump S json_path (Podcast.to_dict podcast);
  Ok json_path.

(** [skip.get(stage, False)] *)
Definition skipped (skip : list (string * bool)) (stage : string) : bool :=
  default false (Dict.get skip stage).

(** Stage 1, lines 61-82. *)
Definition content_stage (skip : list (string * bool)) : result Podcast.t :=
  if negb (skipped skip "content") then
    podcast ← run_podcast_simulation S;
    _ ← _save_podcast_json podcast "podcast_data_original.json";
    Ok podcast
  else
    let podcast_json_path :=
      joinpath (output_dir self) (path_of_string "podcast_data_original.json") in
    let podcast_json_path :=
      if negb (path_exists S podcast_json_path)
      then joinpath (output_dir self) (path_of_string "podcast_data.json")
      else podcast_json_path in
    load_podcast S podcast_json_path.

(** Stage 2, lines 84-96. *)
Definition translation_stage (skip : list (string * bool)) (podcast : Podcast.t)
    : result Podcast.t :=
  if negb (skipped skip "translation") then
    podcast ← process S podcast;
    _ ← _save_podcast_json podcast "podcast_data_translated.json";
    Ok podcast
  else Ok podcast.

(** Stage 3, lines 98-105: [audio_files] stays [None] when skipped. *)
Definition audio_stage (skip : list (string * bool)) (podcast : Podcast.t)
    : Gen.M (option audio_files_arg) :=
  if negb (skipped skip "audio") then
    audio_files ← Gen.generate E K (audio_generator self) podcast;
    mret (Some (FileDict audio_files))
  else mret None.

(** Stage 4, lines 107-117. *)
Definition assembly_stage (skip : list (string * bool))
    (audio_files : option audio_files_arg) : result Path :=
  if negb (skipped skip "assembly") then
    out ← assemble E (audio_assembler self) audio_files None;
    Ok (output_path out)
  else Ok (joinpath (output_dir self) (path_of_string (config_output_file self))).

(** The [try] block of [run], lines 60-125. *)
Definition run_body (skip_stages : option (list (string * bool))) : Gen.M Path :=
  let skip := default [] skip_stages in
  podcast ← Gen.lift (content_stage skip);
  podcast ← Gen.lift (translation_stage skip podcast);
  audio_files ← audio_stage skip podcast;
  Gen.lift (assembly_stage skip audio_files).

(** Lines 126-128. *)
Definition wrap (e : exn) : exn :=
  Exn PodcastGenerationError ("Pipeline execution failed: " +:+ exn_str e).

Definition run (skip_stages : option (list (string * bool))) : Gen.M Path :=
  fun d =>
    match run_body skip_stages d with
    | (d', Ok final_podcast_path) => (d', Ok final_podcast_path)
    | (d', Raise e) => (d', Raise (wrap e))
    end.

End Pipeline.

End Pipeline.
(** ** Model names and providers (src/core/config.py, src/utils/llm_factory.py) *)

Module ModelConfig.

(** [LLMProviderConfig] *)
Record LLMProviderConfig : Type := {
  openai_api_key : option string;
  anthropic_api_key : option string;
  groq_api_key : option string;
  ollama_base_url : string
}.

(** [ModelConfig] *)
Record t : Type := {
  topic_generator : string;
  podcast_moderator : string;
  podcast_host : string;
  podcast_guest : string;
  intro_generator : string;
  outro_generator : string;
  translator : string;
  kokoro_path : option string;
  providers : LLMProviderConfig
}.

(** [s.split(sep, 1)] for a separator of one character. *)
Fixpoint split1 (sep : ascii) (s : string) : list string :=
  match s with
  | EmptyString => [EmptyString]
  | String c rest =>
      if Ascii.eqb c sep then [EmptyString; rest]
      else match split1 sep rest with
           | first :: others => String c first :: others
           | [] => [String c EmptyString]
           end
  end.

(** [l[1]] *)
Definition item1 (l : list string) : result string :=
  match l !! 1%nat with
  | Some x => Ok x
  | None => Raise (Exn (LibraryError "IndexError") "list index out of range")
  end.

Definition get_provider_for_model (model_name : string) : result (string * string) :=
  if String.prefix "ollama/" model_name then
    model ← item1 (split1 "/" model_name); Ok ("ollama", model)
  else if String.prefix "openai/" model_name then
    model ← item1 (split1 "/" model_name); Ok ("openai", model)
  else if String.prefix "anthropic/" model_name then
    model ← item1 (split1 "/" model_name); Ok ("anthropic", model)
  else if String.prefix "groq/" model_name then
    model ← item1 (split1 "/" model_name); Ok ("groq", model)
  else Ok ("ollama", model_name).

End ModelConfig.

Module LLMFactory.

(** [os.environ] *)
Abbreviation environ := (list (string * string)).

(** The constructors of the four llama-index classes: model, context
    window, base URL or API key, further keyword arguments. *)
Record Backends (LLM : Type) : Type := {
  Ollama : string -> Z -> string -> list (string * Json.value) -> result LLM;
  OpenAI : string -> Z -> option string -> list (string * Json.value) -> result LLM;
  Anthropic : string -> Z -> option string -> list (string * Json.value) -> result LLM;
  Groq : string -> Z -> option string -> list (string * Json.value) -> result LLM
}.

Arguments Ollama {LLM}.
Arguments OpenAI {LLM}.
Arguments Anthropic {LLM}.
Arguments Groq {LLM}.

(** [if key:] for an optional string: neither [None] nor empty. *)
Definition is_set (key : option string) : bool :=
  match key with
  | Some (String _ _) => true
  | _ => false
  end.

Definition _setup_environment_variables (provider : string)
    (provider_config : ModelConfig.LLMProviderConfig) (env : environ) : environ :=
  if String.eqb provider "openai"
     && is_set (ModelConfig.openai_api_key provider_config) then
    Dict.set env "OPENAI_API_KEY"
      (default "" (ModelConfig.openai_api_key provider_config))
  else if String.eqb provider "anthropic"
          && is_set (ModelConfig.anthropic_api_key provider_config) then
    Dict.set env "ANTHROPIC_API_KEY"
      (default "" (ModelConfig.anthropic_api_key provider_config))
  else if String.eqb provider "groq"
          && is_set (ModelConfig.groq_api_key provider_config) then
    Dict.set env "GROQ_API_KEY"
      (default "" (ModelConfig.groq_api_key provider_config))
  else env.

Definition create_llm {LLM} (B : Backends LLM) (model_name : string)
    (model_config : ModelConfig.t) (context_window : Z)
    (additional_kwargs : option (list (string * Json.value))) (env : environ)
    : environ * result LLM :=
  match ModelConfig.get_provider_for_model model_name with
  | Raise e => (env, Raise e)
  | Ok (provider, base_model_name) =>
      let provider_config := ModelConfig.providers model_config in
      let kwargs := default [] additional_kwargs in
      let env := _setup_environment_variables provider provider_config env in
      if String.eqb provider "ollama" then
        (env, Ollama B base_model_name context_window
                (ModelConfig.ollama_base_url provider_config) kwargs)
      else if String.eqb provider "openai" then
        (env, OpenAI B base_model_name context_window
                (ModelConfig.openai_api_key provider_config) kwargs)
      else if String.eqb provider "anthropic" then
        (env, Anthropic B base_model_name context_window
                (ModelConfig.anthropic_api_key provider_config) kwargs)
      else if String.eqb provider "groq" then
        (env, Groq B base_model_name context_window
                (ModelConfig.groq_api_key provider_config) kwargs)
      else (env, Raise (Exn ValueError ("Unsupported provider: " +:+ provider)))
  end.

End LLMFactory.

(** ** The command line (src/cli.py) *)

Module Cli.

(** Lines 226-229 of [main]: a model name without a slash gets the prefix
    [ollama/]. *)
Definition with_provider (model_name : string) : string :=
  if negb (String.eqb model_name "") && negb (Py.str_in "/" model_name)
  then "ollama/" +:+ model_name
  else model_name.

(** Lines 218-230 of [main]: the loop over [model_fields]. *)
Definition normalize_models (models : ModelConfig.t) : ModelConfig.t := {|
  ModelConfig.topic_generator := with_provider (ModelConfig.topic_generator models);
  ModelConfig.podcast_moderator := with_provider (ModelConfig.podcast_moderator models);
  ModelConfig.podcast_host := with_provider (ModelConfig.podcast_host models);
  ModelConfig.podcast_guest := ModelConfig.podcast_guest models;
  ModelConfig.intro_generator := with_provider (ModelConfig.intro_generator models);
  ModelConfig.outro_generator := with_provider (ModelConfig.outro_generator models);
  ModelConfig.translator := with_provider (ModelConfig.translator models);
  ModelConfig.kokoro_path := ModelConfig.kokoro_path models;
  ModelConfig.providers := ModelConfig.providers models
|}.

(** The values of a configuration as [yaml.safe_load] builds it.  A mapping
    is an object: the value names it, and the heap holds its entries. *)
Inductive pyval : Type :=
  | PNone
  | PBool (b : bool)
  | PInt (n : Z)
  | PFloat (x : float)
  | PStr (s : string)
  | PList (l : list Json.value)
  | PRef (l : nat).

Abbreviation loc := nat.
Abbreviation heap := (list (list (string * pyval))).

Definition type_name (v : pyval) : string :=
  match v with
  | PNone => "NoneType"
  | PBool _ => "bool"
  | PInt _ => "int"
  | PFloat _ => "float"
  | PStr _ => "str"
  | PList _ => "list"
  | PRef _ => "dict"
  end.

(** A computation on the heap that returns or raises. *)
Definition M (A : Type) : Type := heap -> heap * result A.

Definition ret {A} (a : A) : M A := fun h => (h, Ok a).

Definition bind {A B} (m : M A) (k : A -> M B) : M B :=
  fun h =>
    match m h with
    | (h', Ok a) => k a h'
    | (h', Raise e) => (h', Raise e)
    end.

#[global] Instance M_ret : MRet M := @ret.
#[global] Instance M_bind : MBind M := fun A B k m => bind m k.

Definition raise {A} (cls message : string) : M A :=
  fun h => (h, Raise (Exn (LibraryError cls) message)).

(** The entries of a live dict.  Python has no dangling names; the error
    marks a location that was never allocated. *)
Definition read (l : loc) : M (list (string * pyval)) :=
  fun h =>
    match h !! l with
    | Some d => (h, Ok d)
    | None => (h, Raise (Exn (LibraryError "ReferenceError") "no such object"))
    end.

Definition write (l : loc) (d : list (string * pyval)) : M unit :=
  fun h => (<[l := d]> h, Ok tt).

(** [{}] and [d.copy()]: a new object. *)
Definition alloc (d : list (string * pyval)) : M loc :=
  fun h => (h ++ [d], Ok (length h)).

Definition copy (l : loc) : M loc := d ← read l; alloc d.

(** [k in v] *)
Definition contains (v : pyval) (k : string) : M bool :=
  match v with
  | PRef l => d ← read l; ret (bool_decide (k ∈ d.*1))
  | PStr s => ret (Py.str_in k s)
  | PList l =>
      ret (existsb (fun x => match x with
                             | Json.Str s => String.eqb s k
                             | _ => false
                             end) l)
  | _ => raise "TypeError" ("argument of type '" +:+ type_name v +:+ "' is not iterable")
  end.

(** [v[k]] *)
Definition getitem (v : pyval) (k : string) : M pyval :=
  match v with
  | PRef l =>
      d ← read l;
      match Dict.get d k with
      | Some x => ret x
      | None => raise "KeyError" ("'" +:+ k +:+ "'")
      end
  | PStr _ => raise "TypeError" "string indices must be integers, not 'str'"
  | PList _ => raise "TypeError" "list indices must be integers or slices, not str"
  | _ => raise "TypeError" ("'" +:+ type_name v +:+ "' object is not subscriptable")
  end.

(** [v[k] = x] *)
Definition setitem (v : pyval) (k : string) (x : pyval) : M unit :=
  match v with
  | PRef l => d ← read l; write l (Dict.set d k x)
  | PList _ => raise "TypeError" "list indices must be integers or slices, not str"
  | _ => raise "TypeError"
           ("'" +:+ type_name v +:+ "' object does not support item assignment")
  end.

(** What [override_config] reads of the parsed arguments. *)
Record Namespace : Type := {
  pdf : option string;
  topics : option Z;
  turns : option Z;
  output_dir : option string;
  log_level : string;
  log_file : option string;
  verbose : bool;
  openai_api_key : option string;
  anthropic_api_key : option string;
  groq_api_key : option string;
  ollama_url : option string
}.

(** [if args.x:] for an optional string and an optional integer. *)
Definition given (o : option string) : option string :=
  match o with
  | Some (String c s) => Some (String c s)
  | _ => None
  end.

Definition given_int (o : option Z) : option Z :=
  match o with
  | Some n => if (n =? 0)%Z then None else Some n
  | None => None
  end.

(** [if x: d[k] = x] *)
Definition set_if_given (d : pyval) (k : string) (o : option pyval) : M unit :=
  match o with
  | Some x => setitem d k x
  | None => ret tt
  end.

(** [if k not in d: d[k] = {}] *)
Definition ensure_dict (d : pyval) (k : string) : M unit :=
  has ← contains d k;
  if negb has then (new ← alloc []; setitem d k (PRef new)) else ret tt.

(** Lines 179-192: an API key from the arguments, else from the
    environment. *)
Definition set_api_key (updated_config : pyval) (k : string) (arg : option string)
    (env : list (string * string)) (variable : string) : M unit :=
  match given arg, Dict.get env variable with
  | Some key, _ | None, Some key =>
      models ← getitem updated_config "models";
      providers ← getitem models "providers";
      setitem providers k (PStr key)
  | None, None => ret tt
  end.

Definition override_config (config : loc) (args : Namespace)
    (env : list (string * string)) : M loc :=
  updated ← copy config;
  let updated_config := PRef updated in
  _ ← set_if_given updated_config "pdf_path" (PStr <$> given (pdf args));
  _ ← set_if_given updated_config "num_topics" (PInt <$> given_int (topics args));
  _ ← set_if_given updated_config "num_turns" (PInt <$> given_int (turns args));
  _ ← match given (output_dir args) with
      | Some dir =>
          _ ← setitem updated_config "output_dir" (PStr dir);
          _ ← ensure_dict updated_config "audio";
          audio ← getitem updated_config "audio";
          setitem audio "output_dir" (PStr dir)
      | None => ret tt
      end;
  _ ← ensure_dict updated_config "logging";
  logging ← getitem updated_config "logging";
  _ ← setitem logging "level" (PStr (log_level args));
  _ ← match given (log_file args) with
      | Some file =>
          logging ← getitem updated_config "logging";
          setitem logging "file" (PStr file)
      | None => ret tt
      end;
  _ ← (if verbose args then
         logging ← getitem updated_config "logging";
         setitem logging "verbose" (PBool true)
       else ret tt);
  _ ← ensure_dict updated_config "models";
  models ← getitem updated_config "models";
  has ← contains models "providers";
  _ ← (if negb has then
         new ← alloc [];
         models ← getitem updated_config "models";
         setitem models "providers" (PRef new)
       else ret tt);
  _ ← set_api_key updated_config "openai_api_key" (openai_api_key args) env "OPENAI_API_KEY";
  _ ← set_api_key updated_config "anthropic_api_key" (anthropic_api_key args) env
        "ANTHROPIC_API_KEY";
  _ ← set_api_key updated_config "groq_api_key" (groq_api_key args) env "GROQ_API_KEY";
  _ ← match given (ollama_url args) with
      | Some url =>
          models ← getitem updated_config "models";
          providers ← getitem models "providers";
          setitem providers "ollama_base_url" (PStr url)
      | None => ret tt
      end;
  ret updated.

End Cli.
(** ** Quantities for the generator

    What [generate] puts on disk and in its dict, segment by segment. *)

(** An ASCII decimal digit. *)
Definition is_digit (c : ascii) : bool :=
  ((48 <=? N_of_ascii c) && (N_of_ascii c <=? 57))%N.

Fixpoint all_digits (s : string) : bool :=
  match s with
  | EmptyString => true
  | String c rest => is_digit c && all_digits rest
  end.

(** No ['/'] in the string. *)
Fixpoint no_slash (s : string) : bool :=
  match s with
  | EmptyString => true
  | String c rest => negb (Ascii.eqb c "/"%char) && no_slash rest
  end.

(** The segments of a podcast, numbered as [enumerate(..., 1)] numbers
    them. *)
Inductive segment : Type :=
  | Intro
  | Announcement (i : nat)
  | Spoken (i j : nat) (speaker : string)
  | Outro.

Definition segment_key (s : segment) : string :=
  match s with
  | Intro => "intro"
  | Announcement i => "topic_" +:+ pretty i
  | Spoken i j _ => "topic_" +:+ pretty i +:+ "_exchange_" +:+ pretty j
  | Outro => "outro"
  end.

Definition segment_file (K : Gen.Kokoro) (s : segment) : string :=
  match s with
  | Intro => Gen.intro_name
  | Announcement i => Gen.topic_name i
  | Spoken i j speaker => Gen.exchange_name K i j speaker
  | Outro => Gen.outro_name
  end.

Definition segment_entry (K : Gen.Kokoro) (self : Gen.AudioGenerator)
    (s : segment) : string * Path :=
  (segment_key s, Gen.in_output_dir self (segment_file K s)).

Fixpoint exchange_segments (i j : nat) (exchanges : list Exchange.t) : list segment :=
  match exchanges with
  | [] => []
  | exchange :: rest =>
      Spoken i j (Exchange.speaker exchange) :: exchange_segments i (S j) rest
  end.

Fixpoint topic_segments (i : nat) (topics : list Topic.t) : list segment :=
  match topics with
  | [] => []
  | topic :: rest =>
      Announcement i :: exchange_segments i 1 (Topic.exchanges topic)
        ++ topic_segments (S i) rest
  end.

Definition segments (podcast : Podcast.t) : list segment :=
  Intro :: topic_segments 1 (Podcast.topics podcast) ++ [Outro].

(** The order of generation: the intro, the topics in turn (announcement,
    then exchanges), the outro. *)
Definition before (a b : segment) : Prop :=
  match a, b with
  | Outro, _ | _, Intro => False
  | Intro, _ | _, Outro => True
  | Announcement i, Announcement i' => i < i'
  | Announcement i, Spoken i' _ _ => i <= i'
  | Spoken i _ _, Announcement i' => i < i'
  | Spoken i j _, Spoken i' j' _ => i < i' \/ (i = i' /\ j < j')
  end.

(** At most 99 topics, of at most 9 exchanges each. *)
Definition in_range (s : segment) : Prop :=
  match s with
  | Announcement i => 1 <= i <= 99
  | Spoken i j _ => 1 <= i <= 99 /\ 1 <= j <= 9
  | _ => True
  end.

Definition small (podcast : Podcast.t) : Prop :=
  length (Podcast.topics podcast) <= 99 /\
  Forall (fun topic => length (Topic.exchanges topic) <= 9) (Podcast.topics podcast).

(** [d.update(entries)] *)
Definition dict_update {V} (d : list (string * V)) (entries : list (string * V))
    : list (string * V) :=
  foldl (fun d entry => Dict.set d entry.1 entry.2) d entries.

(** Every speaker of the podcast satisfies [P]. *)
Definition speakers (P : string -> Prop) (podcast : Podcast.t) : Prop :=
  Forall (fun topic => Forall (fun exchange => P (Exchange.speaker exchange))
                         (Topic.exchanges topic))
         (Podcast.topics podcast).

(** A speaker whose lowercased name has no ['/']. *)
Definition plain (K : Gen.Kokoro) (speaker : string) : Prop :=
  no_slash (Gen.lower K speaker) = true.

(** What [_generate_audio_for_text] collects for chunks of audio: the
    chunks, 0.3 s of silence between two of them. *)
Fixpoint pauses_between (chunks : list (list float)) : list (list float) :=
  match chunks with
  | [] => []
  | [audio] => [audio]
  | audio :: rest =>
      audio :: replicate (Z.to_nat 7200) 0%float :: pauses_between rest
  end.

Definition with_pauses (chunks : list (list float)) : list float :=
  concat (pauses_between chunks).

(** The voice of an exchange (line 152). *)
Definition voice_of (self : Gen.AudioGenerator) (exchange : Exchange.t) : string :=
  default (Gen.guest_voice self)
    (Dict.get (Gen.voices self) (Exchange.speaker exchange)).

(** ** A generator and podcasts for the examples *)

(** [str.lower] on ASCII letters. *)
Definition lower_char (c : ascii) : ascii :=
  let n := N_of_ascii c in
  if ((65 <=? n) && (n <=? 90))%N then ascii_of_N (n + 32) else c.

Fixpoint ascii_lower (s : string) : string :=
  match s with
  | EmptyString => EmptyString
  | String c rest => String (lower_char c) (ascii_lower rest)
  end.

(** A pipeline that speaks every non-empty text as one short chunk, and an
    empty text as no chunk at all. *)
Definition K_w : Gen.Kokoro := {|
  Gen.kpipeline_init := fun _ => Ok tt;
  Gen.speak := fun text _ => if String.eqb text "" then Ok [] else Ok [[0.5%float]];
  Gen.lower := ascii_lower
|}.

(** A pipeline that speaks every text as two chunks. *)
Definition K_w2 : Gen.Kokoro := {|
  Gen.kpipeline_init := fun _ => Ok tt;
  Gen.speak := fun _ _ => Ok [[0.5%float]; [0.25%float; 0.125%float]];
  Gen.lower := ascii_lower
|}.

(** A pipeline without audio. *)
Definition K_mute : Gen.Kokoro := {|
  Gen.kpipeline_init := fun _ => Ok tt;
  Gen.speak := fun _ _ => Ok [];
  Gen.lower := ascii_lower
|}.

(** A pipeline whose voices are missing. *)
Definition K_fail : Gen.Kokoro := {|
  Gen.kpipeline_init := fun _ => Ok tt;
  Gen.speak := fun _ _ => Raise (Exn (LibraryError "RuntimeError") "Voice not found");
  Gen.lower := ascii_lower
|}.

Definition gen_cfg_w : Gen.Config := {|
  Gen.cfg_audio_output_dir := "output";
  Gen.cfg_chunk_size := 200;
  Gen.cfg_lang := "b";
  Gen.cfg_host_voice := "bf_emma";
  Gen.cfg_moderator_voice := "voices/bf_isabella.pt";
  Gen.cfg_guest_voice := "bm_george"
|}.

Definition gen_w : Gen.AudioGenerator := {|
  Gen.output_dir := MkPath false ["output"];
  Gen.chunk_size := 200;
  Gen.lang_code := "b";
  Gen.host_voice := "bf_emma";
  Gen.moderator_voice := "bf_isabella";
  Gen.guest_voice := "bm_george"
|}.

Definition say (speaker content : string) : Exchange.t :=
  Exchange.Make speaker content "" None.

Definition podcast_of (topics : list Topic.t) : Podcast.t :=
  Podcast.Make "Title" "About" "Welcome" "Goodbye" topics "" "" None None.

(** One topic, one question and its answer. *)
Definition podcast_w : Podcast.t :=
  podcast_of [Topic.Make "Agents" [say "Moderator" "Why?"; say "Guest" "Because."]].

(** One topic of five turns and one more question: eleven exchanges. *)
Definition podcast_long : Podcast.t :=
  podcast_of
    [Topic.Make "Agents"
       [say "Moderator" "1"; say "Guest" "2"; say "Moderator" "3"; say "Guest" "4";
        say "Moderator" "5"; say "Guest" "6"; say "Moderator" "7"; say "Guest" "8";
        say "Moderator" "9"; say "Guest" "10"; say "Moderator" "11"]].

(** The pause the assembler puts after the file of a segment. *)
Definition segment_gap (K : Gen.Kokoro) (s : segment) : float :=
  match s with
  | Intro | Outro => 1.0%float
  | Announcement _ => 1.5%float
  | Spoken _ _ speaker =>
      if Py.str_in "_topic" ("_" +:+ Gen.lower K speaker +:+ ".wav")
      then 1.5%float else 0.7%float
  end.

(** A voice name of the form the language [lang] asks for. *)
Definition voice_of_language (lang voice : string) : Prop :=
  exists gender rest,
    voice = lang +:+ gender +:+ "_" +:+ rest /\ (gender = "f" \/ gender = "m").
(** ** A pipeline for the examples *)

(** A directory that still holds the podcast of an earlier run. *)
Definition E_prev : Env := {|
  glob_wav := fun _ => ["podcast.wav"; "99_outro.wav"; "00_intro.wav"];
  mkdir := mkdir E_w;
  librosa_load := librosa_load E_w;
  sf_read := sf_read E_w;
  librosa_resample := librosa_resample E_w;
  mean_axis1 := mean_axis1 E_w;
  sf_write := sf_write E_w;
  pow := pow E_w;
  npmul := npmul E_w
|}.

(** Stages that succeed and change nothing. *)
Definition S_w : Pipeline.Stages := {|
  Pipeline.simulation_init := Ok tt;
  Pipeline.translation_init := Ok tt;
  Pipeline.run_podcast_simulation := Ok podcast_w;
  Pipeline.process := fun podcast => Ok podcast;
  Pipeline.path_exists := fun _ => true;
  Pipeline.load_podcast := fun _ => Ok podcast_w;
  Pipeline.json_dump := fun _ _ => Ok tt
|}.

(** A configuration whose audio files go to a directory of their own. *)
Definition pipeline_cfg_w : Pipeline.Config := {|
  Pipeline.assembly := cfg_w;
  Pipeline.generation := {|
    Gen.cfg_audio_output_dir := "output/audio";
    Gen.cfg_chunk_size := 200;
    Gen.cfg_lang := "b";
    Gen.cfg_host_voice := "bf_emma";
    Gen.cfg_moderator_voice := "bf_isabella";
    Gen.cfg_guest_voice := "bm_george"
  |}
|}.

Definition pipeline_w : Pipeline.PodcastPipeline := {|
  Pipeline.output_dir := MkPath false ["output"];
  Pipeline.audio_generator := {|
    Gen.output_dir := MkPath false ["output"; "audio"];
    Gen.chunk_size := 200;
    Gen.lang_code := "b";
    Gen.host_voice := "bf_emma";
    Gen.moderator_voice := "bf_isabella";
    Gen.guest_voice := "bm_george"
  |};
  Pipeline.audio_assembler := init cfg_w;
  Pipeline.config_output_file := "podcast.wav"
|}.
(** ** Quantities for the podcast data *)

(** What [value if value else nothing] keeps of an optional string. *)
Definition truthy (o : option string) : option string :=
  match o with
  | Some (String c s) => Some (String c s)
  | _ => None
  end.

(** A podcast as it comes back from its own dict when no two topics share
    a title. *)
Definition reloaded (p : Podcast.t) : Podcast.t :=
  Podcast.Make (Podcast.title p) (Podcast.description p) (Podcast.intro p)
    (Podcast.outro p) (Podcast.topics p) (Podcast.document_text p)
    (Podcast.created_at p) (truthy (Podcast.original_intro p))
    (truthy (Podcast.original_outro p)).

(** The conversations of a podcast by title, as the dict comprehension of
    [to_dict] keeps them. *)
Definition by_title (topics : list Topic.t) : list (string * list Exchange.t) :=
  dict_update [] ((fun topic => (Topic.title topic, Topic.exchanges topic)) <$> topics).

(** [[exchange.__dict__ for exchange in exchanges]] *)
Definition exchanges_json (exchanges : list Exchange.t) : Json.value :=
  Json.List (Exchange.__dict__ <$> exchanges).

(** Two topics under one title. *)
Definition podcast_twice : Podcast.t :=
  podcast_of [Topic.Make "Agents" [say "Moderator" "Why?"];
              Topic.Make "Agents" [say "Guest" "Because."]].
(** ** Quantities for the model names and the command line *)

(** The providers [get_provider_for_model] knows. *)
Definition known_providers : list string := ["ollama"; "openai"; "anthropic"; "groq"].

(** Constructors that record how they were called. *)
Inductive llm_call : Type :=
  | CallOllama (model : string) (context_window : Z) (base_url : string)
  | CallOpenAI (model : string) (context_window : Z) (api_key : option string)
  | CallAnthropic (model : string) (context_window : Z) (api_key : option string)
  | CallGroq (model : string) (context_window : Z) (api_key : option string).

Definition B_w : LLMFactory.Backends llm_call := {|
  LLMFactory.Ollama := fun model window url _ => Ok (CallOllama model window url);
  LLMFactory.OpenAI := fun model window key _ => Ok (CallOpenAI model window key);
  LLMFactory.Anthropic := fun model window key _ => Ok (CallAnthropic model window key);
  LLMFactory.Groq := fun model window key _ => Ok (CallGroq model window key)
|}.

Definition models_w : ModelConfig.t := {|
  ModelConfig.topic_generator := "qwen2.5:14b";
  ModelConfig.podcast_moderator := "llama3.1:8b";
  ModelConfig.podcast_host := "llama3.1:8b";
  ModelConfig.podcast_guest := "llama3.1:8b";
  ModelConfig.intro_generator := "qwen2.5:14b";
  ModelConfig.outro_generator := "llama3.1:8b";
  ModelConfig.translator := "qwen2.5:14b";
  ModelConfig.kokoro_path := None;
  ModelConfig.providers := {|
    ModelConfig.openai_api_key := None;
    ModelConfig.anthropic_api_key := None;
    ModelConfig.groq_api_key := None;
    ModelConfig.ollama_base_url := "http://localhost:11434"
  |}
|}.

(** The model names [main] rewrites (its list [model_fields]). *)
Definition model_fields (models : ModelConfig.t) : list string :=
  [ModelConfig.topic_generator models; ModelConfig.podcast_moderator models;
   ModelConfig.podcast_host models; ModelConfig.intro_generator models;
   ModelConfig.outro_generator models; ModelConfig.translator models].

(** The dict object [c] of the heap maps [k] to [v]. *)
Definition holds (c : Cli.loc) (k : string) (v : Cli.pyval) (h : Cli.heap) : Prop :=
  exists d, h !! c = Some d /\ Dict.get d k = Some v.

(** A computation that assigns to no key outside [keys], in any dict, and
    frees nothing. *)
Definition writes {A} (keys : list string) (m : Cli.M A) : Prop :=
  forall h h' r, m h = (h', r) ->
    (forall c k v, k ∉ keys -> holds c k v h -> holds c k v h') /\
    (forall c, is_Some (h !! c) -> is_Some (h' !! c)).

(** A configuration with a logging section, and the arguments of a plain
    call. *)
Definition heap_w : Cli.heap :=
  [[("pdf_path", Cli.PStr "paper.pdf"); ("logging", Cli.PRef 1)];
   [("level", Cli.PStr "DEBUG")]].

Definition args_w : Cli.Namespace := {|
  Cli.pdf := None; Cli.topics := None; Cli.turns := None; Cli.output_dir := Some "out";
  Cli.log_level := "INFO"; Cli.log_file := None; Cli.verbose := false;
  Cli.openai_api_key := None; Cli.anthropic_api_key := None;
  Cli.groq_api_key := None; Cli.ollama_url := None
|}.
(** ** Further quantities for the generated podcast and its data *)




(** The two errors of reading a value of the wrong type. *)
Definition lookup_error (e : exn) : Prop :=
  exn_cls e = LibraryError "AttributeError" \/ exn_cls e = LibraryError "TypeError".

(** Data of the shape [from_dict] expects: a dict whose [metadata], when
    present, is a dict, and whose [conversations], when present, is a dict
    of lists of dicts.  No key is required. *)
Definition is_dict (v : Json.value) : Prop :=
  match v with
  | Json.Dict _ => True
  | _ => False
  end.

Definition is_conversation (v : Json.value) : Prop :=
  match v with
  | Json.List exchanges => Forall is_dict exchanges
  | _ => False
  end.

Definition shaped (data : Json.value) : Prop :=
  match data with
  | Json.Dict d =>
      match Dict.get d "metadata" with
      | Some metadata => is_dict metadata
      | None => True
      end /\
      match Dict.get d "conversations" with
      | Some (Json.Dict conversations) =>
          Forall (fun item => is_conversation item.2) conversations
      | Some _ => False
      | None => True
      end
  | _ => False
  end.

(** The number of conversations in the data. *)
Definition conversation_count (data : Json.value) : nat :=
  match data with
  | Json.Dict d =>
      match Dict.get d "conversations" with
      | Some (Json.Dict conversations) => length conversations
      | _ => 0
      end
  | _ => 0
  end.

(** A file with one conversation and nothing else. *)
Definition data_w : Json.value :=
  Json.Dict [("conversations",
              Json.Dict [("Agents", Json.List [Json.Dict [("speaker", Json.Str "Guest")]])])].
(** * Properties *)

(** ** The error monad *)

Lemma bind_Ok {A B} (r : result A) (k : A -> result B) (b : B) :
  (r ≫= k) = Ok b -> exists a, r = Ok a /\ k a = Ok b.
Proof. destruct r as [a|e]; [eauto | discriminate]. Qed.

Lemma bind_Raise {A B} (r : result A) (k : A -> result B) (e : exn) :
  (r ≫= k) = Raise e -> r = Raise e \/ exists a, r = Ok a /\ k a = Raise e.
Proof.
  destruct r as [a|e']; intros H; [right; eauto |].
  left. injection H as ->. reflexivity.
Qed.

Lemma bind_of_Ok {A B} (r : result A) (k : A -> result B) (a : A) :
  r = Ok a -> (r ≫= k) = k a.
Proof. intros ->. reflexivity. Qed.

Lemma bind_of_Raise {A B} (r : result A) (k : A -> result B) (e : exn) :
  r = Raise e -> (r ≫= k) = Raise e.
Proof. intros ->. reflexivity. Qed.

(** ** Slices and in-place products *)

Section NpFacts.
Implicit Types (a v other : list float) (k : Z).

Lemma linspace_length start stop num l :
  Np.linspace start stop num = Ok l -> length l = Z.to_nat num.
Proof.
  unfold Np.linspace. destruct (num <? 0)%Z; [discriminate|].
  intros [= <-].
  destruct (1 <? num)%Z, (0 <? num - 1)%Z;
    try destruct (_ =? _)%float;
    rewrite ?length_insert, !length_fmap, length_seq; reflexivity.
Qed.

Lemma linspace_ok start stop num :
  (0 <= num)%Z -> exists l, Np.linspace start stop num = Ok l.
Proof.
  intros Hnum. unfold Np.linspace.
  destruct (Z.ltb_spec num 0); [lia | eauto].
Qed.

Lemma getitem_upto a k :
  (0 <= k)%Z -> Np.getitem a (Np.upto k) = take (Z.to_nat k) a.
Proof.
  intros Hk. unfold Np.getitem, Np.bounds, Np.upto, Np.norm_index; simpl.
  destruct (Z.ltb_spec k 0); [lia|].
  rewrite Nat.sub_0_r, drop_0.
  destruct (Z.le_gt_cases k (Z.of_nat (length a))).
  - rewrite Z.min_l by lia. reflexivity.
  - rewrite Z.min_r, Nat2Z.id by lia. rewrite !take_ge by lia. reflexivity.
Qed.

Lemma getitem_last_n a k :
  (0 < k)%Z -> Np.getitem a (Np.last_n k) = drop (length a - Z.to_nat k) a.
Proof.
  intros Hk. unfold Np.getitem, Np.bounds, Np.last_n, Np.norm_index; simpl.
  destruct (Z.ltb_spec (- k) 0); [|lia].
  replace (Z.to_nat (Z.max (- k + Z.of_nat (length a)) 0))
    with (length a - Z.to_nat k)%nat by lia.
  apply take_ge. rewrite length_drop. lia.
Qed.

Lemma update_upto a k v : Np.update a (Np.upto k) v = v ++ drop (length v) a.
Proof. reflexivity. Qed.

Lemma update_last_n a k v :
  (0 < k)%Z -> length v = length (Np.getitem a (Np.last_n k)) ->
  Np.update a (Np.last_n k) v = take (length a - Z.to_nat k) a ++ v.
Proof.
  intros Hk Hv. rewrite getitem_last_n, length_drop in Hv by assumption.
  unfold Np.update, Np.bounds, Np.last_n, Np.norm_index; simpl.
  destruct (Z.ltb_spec (- k) 0); [|lia].
  replace (Z.to_nat (Z.max (- k + Z.of_nat (length a)) 0))
    with (length a - Z.to_nat k)%nat by lia.
  rewrite (drop_ge a) by lia. rewrite app_nil_r. reflexivity.
Qed.

Lemma imul_same mul a s other :
  length other = length (Np.getitem a s) ->
  Np.imul mul a s other = Ok (Np.update a s (zip_with mul (Np.getitem a s) other)).
Proof. intros H. unfold Np.imul. rewrite decide_True by assumption. reflexivity. Qed.

Lemma imul_mismatch mul a s other :
  length other ≠ length (Np.getitem a s) -> length other ≠ 1%nat ->
  exists msg, Np.imul mul a s other = Raise (Exn ValueError msg).
Proof.
  intros H1 H2. unfold Np.imul. rewrite !decide_False by assumption.
  destruct (decide _); eauto.
Qed.

(** An in-place product never changes the length of the array. *)
Lemma imul_length mul a s other a' :
  Np.imul mul a s other = Ok a' -> length a' = length a.
Proof.
  unfold Np.imul, Np.update, Np.getitem.
  destruct (Np.bounds (length a) s) as [lo hi] eqn:Hb.
  assert (Hlo : (lo <= length a)%nat).
  { unfold Np.bounds in Hb. injection Hb as <- _.
    destruct (Np.start s) as [i|]; simpl; [|lia].
    unfold Np.norm_index. destruct (Z.ltb_spec i 0); lia. }
  repeat case_decide; intros [= <-];
    rewrite !length_app, ?length_zip_with, ?length_fmap,
      !length_take, !length_drop in *; lia.
Qed.

End NpFacts.

(** ** The fades at the fixed rate *)

Section FadeFacts.
Variable E : Env.
Variable cfg : PodcastConfig.

Lemma fade_length_default :
  Py.int (Py.float_of_int (sample_rate (init cfg)) * default_fade)%float = Ok 12000%Z.
Proof. vm_compute. reflexivity. Qed.

Lemma linspace_in : Np.linspace 0 1 12000 = Ok fade_in_ramp.
Proof.
  unfold fade_in_ramp.
  destruct (linspace_ok 0 1 12000) as [l ->]; [lia | reflexivity].
Qed.

Lemma linspace_out : Np.linspace 1 0 12000 = Ok fade_out_ramp.
Proof.
  unfold fade_out_ramp.
  destruct (linspace_ok 1 0 12000) as [l ->]; [lia | reflexivity].
Qed.

Lemma fade_in_ramp_length : length fade_in_ramp = Z.to_nat 12000.
Proof. apply (linspace_length 0 1), linspace_in. Qed.

Lemma fade_out_ramp_length : length fade_out_ramp = Z.to_nat 12000.
Proof. apply (linspace_length 1 0), linspace_out. Qed.

Lemma _fade_in_unfold audio :
  _fade_in E (init cfg) audio default_fade
  = Np.imul (npmul E) audio (Np.upto 12000) fade_in_ramp.
Proof.
  unfold _fade_in.
  rewrite (bind_of_Ok _ _ _ fade_length_default).
  rewrite (bind_of_Ok _ _ _ linspace_in). reflexivity.
Qed.

Lemma _fade_out_unfold audio :
  _fade_out E (init cfg) audio default_fade
  = Np.imul (npmul E) audio (Np.last_n 12000) fade_out_ramp.
Proof.
  unfold _fade_out.
  rewrite (bind_of_Ok _ _ _ fade_length_default).
  rewrite (bind_of_Ok _ _ _ linspace_out). reflexivity.
Qed.

Lemma _fade_in_long audio :
  (12000 <= Z.of_nat (length audio))%Z ->
  _fade_in E (init cfg) audio default_fade = Ok (faded_in E audio).
Proof.
  intros Hlen. rewrite _fade_in_unfold.
  assert (Hv : length fade_in_ramp = length (Np.getitem audio (Np.upto 12000))).
  { rewrite getitem_upto, length_take, fade_in_ramp_length by lia. lia. }
  rewrite imul_same by exact Hv.
  rewrite update_upto, length_zip_with, <- Hv, Nat.min_id, fade_in_ramp_length.
  rewrite getitem_upto by lia. reflexivity.
Qed.

Lemma _fade_out_long audio :
  (12000 <= Z.of_nat (length audio))%Z ->
  _fade_out E (init cfg) audio default_fade = Ok (faded_out E audio).
Proof.
  intros Hlen. rewrite _fade_out_unfold.
  assert (Hv : length fade_out_ramp = length (Np.getitem audio (Np.last_n 12000))).
  { rewrite getitem_last_n, length_drop, fade_out_ramp_length by lia. lia. }
  rewrite imul_same by exact Hv.
  rewrite update_last_n; [| lia | rewrite length_zip_with, <- Hv; lia].
  rewrite getitem_last_n by lia. reflexivity.
Qed.

(** A clip shorter than the fade window: the in-place product raises. *)
Lemma _fade_in_short audio :
  (Z.of_nat (length audio) < 12000)%Z ->
  exists msg, _fade_in E (init cfg) audio default_fade = Raise (Exn ValueError msg).
Proof.
  intros Hlen. rewrite _fade_in_unfold. apply imul_mismatch.
  - rewrite getitem_upto, length_take, fade_in_ramp_length by lia. lia.
  - rewrite fade_in_ramp_length. lia.
Qed.

Lemma _fade_out_short audio :
  (Z.of_nat (length audio) < 12000)%Z ->
  exists msg, _fade_out E (init cfg) audio default_fade = Raise (Exn ValueError msg).
Proof.
  intros Hlen. rewrite _fade_out_unfold. apply imul_mismatch.
  - rewrite getitem_last_n, length_drop, fade_out_ramp_length by lia. lia.
  - rewrite fade_out_ramp_length. lia.
Qed.

Lemma faded_in_length audio :
  (12000 <= Z.of_nat (length audio))%Z -> length (faded_in E audio) = length audio.
Proof.
  intros Hlen. unfold faded_in.
  rewrite length_app, length_zip_with, length_take, length_drop, fade_in_ramp_length.
  lia.
Qed.

Lemma faded_out_length audio :
  (12000 <= Z.of_nat (length audio))%Z -> length (faded_out E audio) = length audio.
Proof.
  intros Hlen. unfold faded_out.
  rewrite length_app, length_zip_with, length_take, length_drop, fade_out_ramp_length.
  lia.
Qed.

End FadeFacts.

(** ** Music excerpts *)

Lemma music_excerpts (cfg : PodcastConfig) (music_audio : list float) :
  ((Z.of_nat (length music_audio) < 15 * 24000)%Z ->
     first_15s (init cfg) music_audio = music_audio /\
     last_15s (init cfg) music_audio = music_audio) /\
  ((15 * 24000 <= Z.of_nat (length music_audio))%Z ->
     first_15s (init cfg) music_audio = take (Z.to_nat (15 * 24000)) music_audio /\
     last_15s (init cfg) music_audio
       = drop (length music_audio - Z.to_nat (15 * 24000)) music_audio /\
     Z.of_nat (length (first_15s (init cfg) music_audio)) = (15 * 24000)%Z /\
     Z.of_nat (length (last_15s (init cfg) music_audio)) = (15 * 24000)%Z).
Proof.
  unfold first_15s, last_15s, samples_15s.
  change (sample_rate (init cfg)) with 24000%Z.
  split; intros Hlen.
  - destruct (Z.leb_spec (15 * 24000) (Z.of_nat (length music_audio))); [lia|].
    split; reflexivity.
  - destruct (Z.leb_spec (15 * 24000) (Z.of_nat (length music_audio))); [|lia].
    rewrite getitem_upto, getitem_last_n by lia.
    rewrite length_take, length_drop.
    repeat split; lia.
Qed.

(** ** Silence *)

Section SilenceFacts.
Variable E : Env.
Variable cfg : PodcastConfig.

Lemma gap_length (file : Path) :
  Py.int (Py.float_of_int (sample_rate (init cfg)) * gap_seconds file)%float
  = Ok (gap_samples file).
Proof.
  unfold gap_seconds, gap_samples.
  destruct (Py.str_in "_topic" _); [vm_compute; reflexivity|].
  destruct (Py.str_in "_speaker" _); vm_compute; reflexivity.
Qed.

(** Truncation and rounding agree on the three pauses. *)
Lemma gap_round (file : Path) :
  Py.round (Py.float_of_int (sample_rate (init cfg)) * gap_seconds file)%float
  = Ok (gap_samples file).
Proof.
  unfold gap_seconds, gap_samples.
  destruct (Py.str_in "_topic" _); [vm_compute; reflexivity|].
  destruct (Py.str_in "_speaker" _); vm_compute; reflexivity.
Qed.

Lemma gap_samples_pos (file : Path) : (0 < gap_samples file)%Z.
Proof. unfold gap_samples. repeat destruct (Py.str_in _ _); lia. Qed.

Lemma _create_silence_gap (file : Path) :
  _create_silence (init cfg) (gap_seconds file)
  = Ok (replicate (Z.to_nat (gap_samples file)) 0%float).
Proof.
  unfold _create_silence. rewrite (bind_of_Ok _ _ _ (gap_length file)).
  unfold Np.zeros. pose proof (gap_samples_pos file).
  destruct (Z.ltb_spec (gap_samples file) 0); [lia | reflexivity].
Qed.

End SilenceFacts.

(** ** The loop over the segments *)

Section LoopFacts.
Variable E : Env.
Variable self : AudioAssembler.
Variable n : nat.

Lemma gap_after_Ok i file gap :
  gap_after self n i file = Ok gap ->
  (Z.of_nat i = Z.of_nat n - 1 /\ gap = [])%Z \/
  (Z.of_nat i ≠ Z.of_nat n - 1)%Z /\
    exists silence, _create_silence self (gap_seconds file) = Ok silence
                    /\ gap = [silence].
Proof.
  unfold gap_after. case_decide as Hi.
  - intros H. apply bind_Ok in H as (silence & Hs & [= <-]). right. eauto.
  - intros [= <-]. left. split; [lia | reflexivity].
Qed.

Lemma loop_body_Ok i file acc acc' :
  loop_body E self n i file acc = Ok acc' ->
  exists pre audio gap,
    load_segment E self file = Ok pre /\
    apply_fades E self n i pre = Ok audio /\
    gap_after self n i file = Ok gap /\
    acc' = (acc ++ [audio]) ++ gap.
Proof.
  unfold loop_body. intros H.
  apply bind_Ok in H as (pre & Hpre & H).
  apply bind_Ok in H as (audio & Haudio & H).
  apply bind_Ok in H as (gap & Hgap & [= <-]).
  eauto 8.
Qed.

(** Where the loop leaves each segment and each pause: segment [j] of the
    remaining files sits two places per file after what was there before,
    the pause right behind it unless the segment is the last. *)
Lemma loop_inv files : forall i acc segs,
  loop E self n i files acc = Ok segs ->
  (i + length files = n)%nat ->
  length segs
    = (length acc + 2 * length files - (if files is [] then 0 else 1))%nat /\
  (forall k, (k < length acc)%nat -> segs !! k = acc !! k) /\
  forall j file, files !! j = Some file ->
    exists pre audio,
      load_segment E self file = Ok pre /\
      apply_fades E self n (i + j) pre = Ok audio /\
      segs !! (length acc + 2 * j)%nat = Some audio /\
      ((i + j + 1 < n)%nat ->
       exists silence,
         _create_silence self (gap_seconds file) = Ok silence /\
         segs !! (length acc + 2 * j + 1)%nat = Some silence).
Proof.
  induction files as [|file rest IH]; intros i acc segs Hloop Hn.
  - injection Hloop as <-. simpl. split; [lia|]. split; [reflexivity|].
    intros j f Hj. discriminate.
  - simpl in Hloop. apply bind_Ok in Hloop as (acc' & Hbody & Hloop).
    apply loop_body_Ok in Hbody as (pre & audio & gap & Hpre & Haudio & Hgap & ->).
    simpl in Hn.
    destruct (IH _ _ _ Hloop ltac:(lia)) as (Hlen & Hkeep & Hat).
    assert (Hacc : forall k, (k < length acc)%nat ->
              segs !! k = acc !! k).
    { intros k Hk. rewrite Hkeep by (rewrite !length_app; simpl; lia).
      rewrite <- app_assoc. apply lookup_app_l. exact Hk. }
    assert (Haud : segs !! length acc = Some audio).
    { rewrite Hkeep by (rewrite !length_app; simpl; lia).
      rewrite <- app_assoc. rewrite lookup_app_r by lia.
      rewrite Nat.sub_diag. reflexivity. }
    apply gap_after_Ok in Hgap as [[Hi ->] | (Hi & silence & Hsil & ->)].
    + (* the last file *)
      assert (rest = []) as -> by (destruct rest; [reflexivity | simpl in Hn; lia]).
      rewrite app_nil_r in *.
      split; [rewrite Hlen, length_app; simpl; lia|].
      split; [exact Hacc|].
      intros [|j] f Hj; [|discriminate]. injection Hj as <-.
      exists pre, audio. rewrite !Nat.add_0_r.
      repeat split; try assumption. lia.
    + assert (Hrest : rest ≠ []) by (intros ->; simpl in Hn; lia).
      split.
      { rewrite Hlen, !length_app. simpl. destruct rest; [congruence | simpl; lia]. }
      split; [exact Hacc|].
      intros [|j] f Hj.
      * injection Hj as <-. exists pre, audio. rewrite !Nat.add_0_r.
        repeat split; try assumption.
        intros _. exists silence. split; [assumption|].
        rewrite Hkeep by (rewrite !length_app; simpl; lia).
        rewrite lookup_app_r by (rewrite length_app; simpl; lia).
        rewrite length_app. simpl.
        replace (length acc + 1 - (length acc + 1))%nat with 0%nat by lia.
        reflexivity.
      * simpl in Hj. destruct (Hat _ _ Hj) as (pre' & audio' & Hp & Hf & Hs & Hg).
        exists pre', audio'.
        replace (i + S j)%nat with (S i + j)%nat by lia.
        rewrite !length_app in Hs, Hg. simpl in Hs, Hg.
        replace (length acc + 2 * S j)%nat
          with (length acc + 1 + 1 + 2 * j)%nat by lia.
        repeat split; assumption.
Qed.

(** [podcast_segments] at [np.concatenate]: the intro excerpt, what the
    loop appended, the outro excerpt. *)
Lemma build_segments_Ok files segs :
  build_segments E self files = Ok segs ->
  exists music_audio first last body,
    librosa_load E (music_path self) (sample_rate self) = Ok music_audio /\
    apply_volume E (bg_intro_volume self) (first_15s self music_audio) = Ok first /\
    apply_volume E (bg_outro_volume self) (last_15s self music_audio) = Ok last /\
    loop E self (length files) 0 files [first] = Ok body /\
    segs = body ++ [last].
Proof.
  unfold build_segments. intros H.
  apply bind_Ok in H as (music_audio & Hm & H).
  apply bind_Ok in H as (first & Hf & H).
  apply bind_Ok in H as (last & Hl & H).
  apply bind_Ok in H as (body & Hb & [= <-]).
  eauto 10.
Qed.

End LoopFacts.

(** ** When the loop runs to its end *)

Section Totality.
Variable E : Env.
Variable cfg : PodcastConfig.

Lemma apply_fades_first n pre :
  apply_fades E (init cfg) n 0 pre = _fade_in E (init cfg) pre default_fade.
Proof. reflexivity. Qed.

Lemma apply_fades_last n i pre :
  i ≠ 0%nat -> S i = n ->
  apply_fades E (init cfg) n i pre = _fade_out E (init cfg) pre default_fade.
Proof.
  intros Hi Hn. unfold apply_fades.
  rewrite decide_False by exact Hi. rewrite decide_True by lia. reflexivity.
Qed.

Lemma apply_fades_middle n i pre :
  i ≠ 0%nat -> S i ≠ n -> apply_fades E (init cfg) n i pre = Ok pre.
Proof.
  intros Hi Hn. unfold apply_fades.
  rewrite decide_False by exact Hi. rewrite decide_False by lia. reflexivity.
Qed.

(** A fade that returned was given at least the fade window, and returned
    the faded clip. *)
Lemma _fade_in_Ok pre audio :
  _fade_in E (init cfg) pre default_fade = Ok audio ->
  (12000 <= Z.of_nat (length pre))%Z /\ audio = faded_in E pre.
Proof.
  intros H. destruct (Z.le_gt_cases 12000 (Z.of_nat (length pre))) as [Hle|Hgt].
  - split; [exact Hle|]. rewrite (_fade_in_long E cfg pre Hle) in H. congruence.
  - destruct (_fade_in_short E cfg pre Hgt) as [msg Hmsg]. congruence.
Qed.

Lemma _fade_out_Ok pre audio :
  _fade_out E (init cfg) pre default_fade = Ok audio ->
  (12000 <= Z.of_nat (length pre))%Z /\ audio = faded_out E pre.
Proof.
  intros H. destruct (Z.le_gt_cases 12000 (Z.of_nat (length pre))) as [Hle|Hgt].
  - split; [exact Hle|]. rewrite (_fade_out_long E cfg pre Hle) in H. congruence.
  - destruct (_fade_out_short E cfg pre Hgt) as [msg Hmsg]. congruence.
Qed.

Lemma apply_fades_total n i pre :
  (12000 <= Z.of_nat (length pre))%Z ->
  exists audio, apply_fades E (init cfg) n i pre = Ok audio.
Proof.
  intros Hlen. unfold apply_fades. repeat case_decide.
  - rewrite _fade_in_long by exact Hlen. eauto.
  - rewrite _fade_out_long by exact Hlen. eauto.
  - eauto.
Qed.

Lemma gap_after_total n i file :
  exists gap, gap_after (init cfg) n i file = Ok gap.
Proof.
  unfold gap_after. case_decide; [|eauto].
  rewrite _create_silence_gap. simpl. eauto.
Qed.

(** Segments that load and last at least half a second carry the loop to
    its end. *)
Lemma loop_total n files :
  (forall file, file ∈ files ->
     exists pre, load_segment E (init cfg) file = Ok pre /\
                 (12000 <= Z.of_nat (length pre))%Z) ->
  forall i acc, exists segs, loop E (init cfg) n i files acc = Ok segs.
Proof.
  induction files as [|file rest IH]; intros Hall i acc.
  - simpl. eauto.
  - destruct (Hall file) as (pre & Hpre & Hlen); [left|].
    destruct (apply_fades_total n i pre Hlen) as [audio Haudio].
    destruct (gap_after_total n i file) as [gap Hgap].
    destruct (IH (fun f Hf => Hall f (list_elem_of_further _ _ _ Hf))
                (S i) ((acc ++ [audio]) ++ gap)) as [segs Hsegs].
    exists segs. simpl. unfold loop_body.
    rewrite (bind_of_Ok _ _ _ Hpre), (bind_of_Ok _ _ _ Haudio).
    cbv zeta. rewrite (bind_of_Ok _ _ _ Hgap). exact Hsegs.
Qed.

Lemma load_segment_mono file a :
  sf_read E file = Ok (Np.Arr1 a, 24000%Z) ->
  vocal_volume (init cfg) = None ->
  load_segment E (init cfg) file = Ok a.
Proof.
  intros Hread Hvol. unfold load_segment.
  rewrite (bind_of_Ok _ _ _ Hread). cbv beta iota.
  rewrite decide_False by (intros Hne; apply Hne; reflexivity).
  rewrite Hvol. reflexivity.
Qed.

Lemma build_segments_total files music_audio first last :
  librosa_load E (music_path (init cfg)) (sample_rate (init cfg)) = Ok music_audio ->
  apply_volume E (bg_intro_volume (init cfg)) (first_15s (init cfg) music_audio) = Ok first ->
  apply_volume E (bg_outro_volume (init cfg)) (last_15s (init cfg) music_audio) = Ok last ->
  (forall file, file ∈ files ->
     exists pre, load_segment E (init cfg) file = Ok pre /\
                 (12000 <= Z.of_nat (length pre))%Z) ->
  exists segs, build_segments E (init cfg) files = Ok segs.
Proof.
  intros Hm Hf Hl Hall. unfold build_segments.
  rewrite (bind_of_Ok _ _ _ Hm), (bind_of_Ok _ _ _ Hf), (bind_of_Ok _ _ _ Hl).
  destruct (loop_total (length files) files Hall 0%nat [first]) as [body Hbody].
  rewrite (bind_of_Ok _ _ _ Hbody). eauto.
Qed.

End Totality.

(** The example environment: every call of the loop returns. *)
Lemma load_segment_w (file : Path) : load_segment E_w (init cfg_w) file = Ok clip_w.
Proof. apply load_segment_mono; reflexivity. Qed.

Lemma clip_w_length : Z.of_nat (length clip_w) = 24000%Z.
Proof. unfold clip_w. rewrite length_replicate. lia. Qed.

Lemma music_w_length : Z.of_nat (length music_w) = 480000%Z.
Proof. unfold music_w. rewrite length_replicate. lia. Qed.

Lemma build_segments_w (files : list Path) :
  exists segs, build_segments E_w (init cfg_w) files = Ok segs.
Proof.
  apply (build_segments_total E_w cfg_w files music_w
           (first_15s (init cfg_w) music_w) (last_15s (init cfg_w) music_w));
    try reflexivity.
  intros file _. exists clip_w. split; [apply load_segment_w|].
  rewrite clip_w_length. lia.
Qed.

(** ** The helpers over the store *)

Section StoreFacts.
Variable E : Env.
Variable self : AudioAssembler.

Lemma lookup_fresh (h : list (list float)) (a : list float) :
  (h ++ [a]) !! length h = Some a.
Proof. rewrite lookup_app_r, Nat.sub_diag by lia. reflexivity. Qed.

Lemma insert_fresh (h : list (list float)) (a v : list float) :
  <[length h := v]> (h ++ [a]) = h ++ [v].
Proof.
  rewrite insert_app_r_alt, Nat.sub_diag by lia. reflexivity.
Qed.

(** [copy] then an in-place product on the copy: the store grows by one
    object, which holds the product when it succeeds and the plain copy
    when it raises. *)
Lemma copy_imul (audio : Store.loc) (s : Np.slice) (fade : list float)
    (h : list (list float)) (buf : list float) :
  h !! audio = Some buf ->
  (audio_copy ← Store.copy audio;
   _ ← Store.imul E audio_copy s fade;
   Store.ret audio_copy) h
  = match Np.imul (npmul E) buf s fade with
    | Ok v => (h ++ [v], Ok (length h))
    | Raise e => (h ++ [buf], Raise e)
    end.
Proof.
  intros Hbuf.
  unfold mbind, Store.M_bind, Store.bind, Store.copy, Store.imul,
    Store.read, Store.alloc, Store.lift, Store.write, Store.ret.
  unfold mbind, Store.M_bind, Store.bind.
  rewrite Hbuf, lookup_fresh.
  destruct (Np.imul (npmul E) buf s fade) as [v|e]; [|reflexivity].
  rewrite insert_fresh. reflexivity.
Qed.

Lemma store_fade_in (audio : Store.loc) (d : float)
    (h : list (list float)) (buf : list float) :
  h !! audio = Some buf ->
  Store._fade_in E self audio d h
  = match Py.int (Py.float_of_int (sample_rate self) * d)%float
            ≫= Np.linspace 0 1 with
    | Raise e => (h, Raise e)
    | Ok fade =>
        match _fade_in E self buf d with
        | Ok v => (h ++ [v], Ok (length h))
        | Raise e => (h ++ [buf], Raise e)
        end
    end.
Proof.
  intros Hbuf. unfold Store._fade_in, _fade_in.
  unfold mbind at 1 2, Store.M_bind, Store.bind at 1 2, Store.lift.
  destruct (Py.int _) as [n|e]; [|reflexivity]. simpl.
  destruct (Np.linspace 0 1 n) as [fade|e]; [|reflexivity]. simpl.
  apply (copy_imul audio (Np.upto n) fade h buf Hbuf).
Qed.

Lemma store_fade_out (audio : Store.loc) (d : float)
    (h : list (list float)) (buf : list float) :
  h !! audio = Some buf ->
  Store._fade_out E self audio d h
  = match Py.int (Py.float_of_int (sample_rate self) * d)%float
            ≫= Np.linspace 1 0 with
    | Raise e => (h, Raise e)
    | Ok fade =>
        match _fade_out E self buf d with
        | Ok v => (h ++ [v], Ok (length h))
        | Raise e => (h ++ [buf], Raise e)
        end
    end.
Proof.
  intros Hbuf. unfold Store._fade_out, _fade_out.
  unfold mbind at 1 2, Store.M_bind, Store.bind at 1 2, Store.lift.
  destruct (Py.int _) as [n|e]; [|reflexivity]. simpl.
  destruct (Np.linspace 1 0 n) as [fade|e]; [|reflexivity]. simpl.
  apply (copy_imul audio (Np.last_n n) fade h buf Hbuf).
Qed.

Lemma fade_frame_in audio d h buf :
  h !! audio = Some buf ->
  fade_frame audio buf h (_fade_in E self buf d) (Store._fade_in E self audio d h).
Proof.
  intros Hbuf. rewrite (store_fade_in audio d h buf Hbuf).
  pose proof (lookup_lt_Some _ _ _ Hbuf) as Hlt.
  unfold _fade_in.
  destruct (Py.int _) as [n|e]; simpl.
  2:{ repeat split; [assumption | apply take_ge; lia]. }
  destruct (Np.linspace 0 1 n) as [fade|e]; simpl.
  2:{ repeat split; [assumption | apply take_ge; lia]. }
  destruct (Np.imul _ _ _ _) as [v|e]; simpl.
  - rewrite lookup_app_l, take_app_length by assumption.
    repeat split; try assumption; try lia.
    + apply lookup_ge_None. lia.
    + exists v. split; [reflexivity | apply lookup_fresh].
  - rewrite lookup_app_l, take_app_length by assumption. repeat split; assumption.
Qed.

Lemma fade_frame_out audio d h buf :
  h !! audio = Some buf ->
  fade_frame audio buf h (_fade_out E self buf d) (Store._fade_out E self audio d h).
Proof.
  intros Hbuf. rewrite (store_fade_out audio d h buf Hbuf).
  pose proof (lookup_lt_Some _ _ _ Hbuf) as Hlt.
  unfold _fade_out.
  destruct (Py.int _) as [n|e]; simpl.
  2:{ repeat split; [assumption | apply take_ge; lia]. }
  destruct (Np.linspace 1 0 n) as [fade|e]; simpl.
  2:{ repeat split; [assumption | apply take_ge; lia]. }
  destruct (Np.imul _ _ _ _) as [v|e]; simpl.
  - rewrite lookup_app_l, take_app_length by assumption.
    repeat split; try assumption; try lia.
    + apply lookup_ge_None. lia.
    + exists v. split; [reflexivity | apply lookup_fresh].
  - rewrite lookup_app_l, take_app_length by assumption. repeat split; assumption.
Qed.

(** [_adjust_volume] over the store, against the version on samples. *)
Lemma store_adjust_volume (audio : Store.loc) (db : float)
    (h : list (list float)) (buf : list float) :
  h !! audio = Some buf ->
  Store._adjust_volume E audio db h
  = if (db =? 0)%float then (h, Ok audio)
    else match _adjust_volume E buf db with
         | Ok v => (h ++ [v], Ok (length h))
         | Raise e => (h, Raise e)
         end.
Proof.
  intros Hbuf. unfold Store._adjust_volume, _adjust_volume, Store.multiply_path.
  destruct (db =? 0)%float; [reflexivity|].
  unfold mbind at 1 2, Store.M_bind, Store.bind, Store.lift, Store.read, Store.alloc.
  destruct (pow E 10 _) as [factor|e]; [|reflexivity]. simpl.
  rewrite Hbuf. reflexivity.
Qed.

End StoreFacts.

(** * The claims *)

(** ** Music excerpts *)

(** C8. A music track shorter than 15 s (15 * 24000 samples) gives a head
    and a tail excerpt that are each the whole track; a track of at least
    15 s gives as head its first 15 * 24000 samples and as tail its last
    15 * 24000 samples. *)
Theorem C8_music_excerpts (cfg : PodcastConfig) (music_audio : list float) :
  ((Z.of_nat (length music_audio) < 15 * 24000)%Z ->
     first_15s (init cfg) music_audio = music_audio /\
     last_15s (init cfg) music_audio = music_audio) /\
  ((15 * 24000 <= Z.of_nat (length music_audio))%Z ->
     first_15s (init cfg) music_audio = take (Z.to_nat (15 * 24000)) music_audio /\
     last_15s (init cfg) music_audio
       = drop (length music_audio - Z.to_nat (15 * 24000)) music_audio /\
     Z.of_nat (length (first_15s (init cfg) music_audio)) = (15 * 24000)%Z /\
     Z.of_nat (length (last_15s (init cfg) music_audio)) = (15 * 24000)%Z).
Proof.
  unfold first_15s, last_15s, samples_15s.
  change (sample_rate (init cfg)) with 24000%Z.
  destruct (Z.leb_spec (15 * 24000) (Z.of_nat (length music_audio))) as [Hge|Hlt].
  - split; [lia|]. intros _.
    rewrite getitem_upto, getitem_last_n by lia.
    rewrite length_take, length_drop.
    repeat split; lia.
  - split; [|lia]. intros _. split; reflexivity.
Qed.

Lemma C8_music_excerpts_witness :
  (first_15s (init cfg_w) [1%float; 2%float] = [1%float; 2%float] /\
   last_15s (init cfg_w) [1%float; 2%float] = [1%float; 2%float]) /\
  Z.of_nat (length (first_15s (init cfg_w) music_w)) = (15 * 24000)%Z.
Proof.
  split.
  - apply (proj1 (C8_music_excerpts cfg_w [1%float; 2%float])). simpl. lia.
  - assert (H : (15 * 24000 <= Z.of_nat (length music_w))%Z)
      by (unfold music_w; rewrite length_replicate; lia).
    exact (proj1 (proj2 (proj2 (proj2 (C8_music_excerpts cfg_w music_w) H)))).
Defined.

(** ** Errors *)

(** C3, as the code has it. With no explicit segments and no [.wav] file in
    the working directory, the [ValueError] "No WAV files found in <dir>"
    raised by the scan is caught by the handler of [assemble], and the
    caller receives an [AudioAssemblyError] whose message carries it. *)
Theorem C3_no_segments_wrapped (E : Env) (cfg : PodcastConfig) (output_dir : option Path) :
  glob_wav E (audio_dir (init cfg)) = [] ->
  resolve_files E (init cfg) None
    = Raise (Exn ValueError ("No WAV files found in " +:+ path_str (audio_dir (init cfg)))) /\
  assemble E (init cfg) None output_dir
    = Raise (Exn AudioAssemblyError
               ("Podcast assembly failed: No WAV files found in "
                +:+ path_str (audio_dir (init cfg)))).
Proof.
  intros Hglob.
  assert (Hres : resolve_files E (init cfg) None
    = Raise (Exn ValueError ("No WAV files found in " +:+ path_str (audio_dir (init cfg))))).
  { unfold resolve_files. rewrite Hglob. reflexivity. }
  split; [exact Hres|].
  unfold assemble, assemble_body. rewrite (bind_of_Raise _ _ _ Hres). reflexivity.
Qed.

Lemma C3_no_segments_wrapped_witness :
  assemble E_w (init cfg_w) None None
  = Raise (Exn AudioAssemblyError "Podcast assembly failed: No WAV files found in output").
Proof. exact (proj2 (C3_no_segments_wrapped E_w cfg_w None eq_refl)). Defined.

(** C3, as stated, fails: after an empty scan the caller does not receive
    the error type of "no segments found" (in the code a [ValueError]) but
    an [AudioAssemblyError]. *)
Lemma C3_counterexample :
  glob_wav E_w (audio_dir (init cfg_w)) = [] /\
  exn_cls_of (assemble E_w (init cfg_w) None None) = Some AudioAssemblyError /\
  ~ exists msg, assemble E_w (init cfg_w) None None = Raise (Exn ValueError msg).
Proof.
  split; [reflexivity|]. split; [reflexivity|].
  intros [msg H]. vm_compute in H. discriminate H.
Qed.

(** C6. Whatever the body of [assemble] raises, at whatever stage, the call
    raises an [AudioAssemblyError] whose message is "Podcast assembly
    failed: " followed by the text of the cause; a call that does not raise
    returns what the body returns.  In particular a failure of the music
    load, of a segment read, of a resampling or of the final write reaches
    the caller in that form. *)
Theorem C6_single_error_type (E : Env) (self : AudioAssembler)
    (audio_files : option audio_files_arg) (output_dir : option Path) :
  match assemble E self audio_files output_dir with
  | Ok out => assemble_body E self audio_files output_dir = Ok out
  | Raise e =>
      exn_cls e = AudioAssemblyError /\
      exists cause,
        assemble_body E self audio_files output_dir = Raise cause /\
        exn_str e = "Podcast assembly failed: " +:+ exn_str cause
  end.
Proof.
  unfold assemble.
  destruct (assemble_body E self audio_files output_dir) as [out|cause].
  - reflexivity.
  - split; [reflexivity|]. exists cause. split; reflexivity.
Qed.

(** Each stage of the body hands its failure to the handler. *)
Section StageFailures.
Variable E : Env.
Variable self : AudioAssembler.
Variables (audio_files : option audio_files_arg) (output_dir : option Path).
Variable files : list Path.
Hypothesis Hfiles : resolve_files E self audio_files = Ok files.
Hypothesis Hmkdir : mkdir E (default (audio_dir self) output_dir) = Ok tt.

Lemma segments_failure_reaches_caller cause :
  build_segments E self files = Raise cause ->
  assemble E self audio_files output_dir = Raise (wrap cause).
Proof.
  intros H. unfold assemble, assemble_body.
  rewrite (bind_of_Ok _ _ _ Hfiles), (bind_of_Ok _ _ _ Hmkdir).
  rewrite (bind_of_Raise _ _ _ H). reflexivity.
Qed.

Lemma music_failure_reaches_caller cause :
  librosa_load E (music_path self) (sample_rate self) = Raise cause ->
  assemble E self audio_files output_dir = Raise (wrap cause).
Proof.
  intros H. apply segments_failure_reaches_caller.
  unfold build_segments. rewrite (bind_of_Raise _ _ _ H). reflexivity.
Qed.

Lemma read_failure_reaches_caller music_audio first last file rest cause :
  librosa_load E (music_path self) (sample_rate self) = Ok music_audio ->
  apply_volume E (bg_intro_volume self) (first_15s self music_audio) = Ok first ->
  apply_volume E (bg_outro_volume self) (last_15s self music_audio) = Ok last ->
  files = file :: rest ->
  sf_read E file = Raise cause ->
  assemble E self audio_files output_dir = Raise (wrap cause).
Proof.
  intros Hm Hf Hl Hfl Hread. apply segments_failure_reaches_caller.
  rewrite Hfl. unfold build_segments.
  rewrite (bind_of_Ok _ _ _ Hm), (bind_of_Ok _ _ _ Hf), (bind_of_Ok _ _ _ Hl).
  simpl loop. unfold loop_body, load_segment.
  rewrite (bind_of_Raise _ _ _ Hread). reflexivity.
Qed.

Lemma resample_failure_reaches_caller music_audio first last file rest audio sr cause :
  librosa_load E (music_path self) (sample_rate self) = Ok music_audio ->
  apply_volume E (bg_intro_volume self) (first_15s self music_audio) = Ok first ->
  apply_volume E (bg_outro_volume self) (last_15s self music_audio) = Ok last ->
  files = file :: rest ->
  sf_read E file = Ok (audio, sr) ->
  sr ≠ sample_rate self ->
  librosa_resample E audio sr (sample_rate self) = Raise cause ->
  assemble E self audio_files output_dir = Raise (wrap cause).
Proof.
  intros Hm Hf Hl Hfl Hread Hsr Hres. apply segments_failure_reaches_caller.
  rewrite Hfl. unfold build_segments.
  rewrite (bind_of_Ok _ _ _ Hm), (bind_of_Ok _ _ _ Hf), (bind_of_Ok _ _ _ Hl).
  simpl loop. unfold loop_body, load_segment.
  rewrite (bind_of_Ok _ _ _ Hread). cbv beta iota.
  rewrite decide_True by exact Hsr.
  rewrite (bind_of_Raise _ _ _ Hres). reflexivity.
Qed.

Lemma write_failure_reaches_caller segs final cause :
  build_segments E self files = Ok segs ->
  Np.concatenate segs = Ok final ->
  sf_write E (joinpath (default (audio_dir self) output_dir)
                (path_of_string (output_file self))) final (sample_rate self)
    = Raise cause ->
  assemble E self audio_files output_dir = Raise (wrap cause).
Proof.
  intros Hs Hc Hw. unfold assemble, assemble_body.
  rewrite (bind_of_Ok _ _ _ Hfiles), (bind_of_Ok _ _ _ Hmkdir).
  rewrite (bind_of_Ok _ _ _ Hs), (bind_of_Ok _ _ _ Hc).
  rewrite (bind_of_Raise _ _ _ Hw). reflexivity.
Qed.

End StageFailures.

(** ** Buffers and aliasing *)

(** C7. [_fade_in] and [_fade_out] work on a copy: after either call the
    argument holds the samples it held before, so does every other array
    that existed, and the result (when the call returns) is a new array
    holding the faded samples. *)
Theorem C7_fades_leave_argument (E : Env) (self : AudioAssembler)
    (audio : Store.loc) (duration_seconds : float)
    (h : list (list float)) (buf : list float) :
  h !! audio = Some buf ->
  fade_frame audio buf h (_fade_in E self buf duration_seconds)
    (Store._fade_in E self audio duration_seconds h) /\
  fade_frame audio buf h (_fade_out E self buf duration_seconds)
    (Store._fade_out E self audio duration_seconds h).
Proof.
  intros Hbuf. split; [apply fade_frame_in | apply fade_frame_out]; exact Hbuf.
Qed.

Lemma C7_fades_leave_argument_witness :
  fade_frame 0 [1; 1; 1]%float [[1; 1; 1]%float]
    (_fade_in E_w (init cfg_w) [1; 1; 1]%float 0.0001%float)
    (Store._fade_in E_w (init cfg_w) 0 0.0001%float [[1; 1; 1]%float]) /\
  fade_frame 0 [1; 1; 1]%float [[1; 1; 1]%float]
    (_fade_out E_w (init cfg_w) [1; 1; 1]%float 0.0001%float)
    (Store._fade_out E_w (init cfg_w) 0 0.0001%float [[1; 1; 1]%float]).
Proof.
  exact (C7_fades_leave_argument E_w (init cfg_w) 0%nat 0.0001%float
           [[1; 1; 1]%float] [1; 1; 1]%float eq_refl).
Defined.

(** The fade of the example runs: the copy gets the ramp, the argument
    stays. *)
Example fade_in_on_store :
  Store._fade_in E_w (init cfg_w) 0 0.0001%float [[1; 1; 1]%float]
  = ([[1; 1; 1]%float; [0; 1; 1]%float], Ok 1%nat).
Proof. vm_compute. reflexivity. Qed.

(** C4, as the code has it. [_adjust_volume] returns its argument itself,
    without multiplying, when the gain compares equal to 0; otherwise it
    returns a new array, every sample multiplied by [10 ** (db / 20)].  A
    gain of [None] does not call it.  So 0 dB and [None] both leave the
    buffer as it was, sample for sample. *)
Theorem C4_gain (E : Env) (audio : Store.loc) (db_change : float)
    (h : list (list float)) (buf : list float) :
  h !! audio = Some buf ->
  Store._adjust_volume E audio db_change h
    = (if (db_change =? 0)%float then (h, Ok audio)
       else match pow E 10 (db_change / 20)%float with
            | Ok factor =>
                (h ++ [(fun x => npmul E x factor) <$> buf], Ok (length h))
            | Raise e => (h, Raise e)
            end) /\
  Store._adjust_volume E audio 0%float h = (h, Ok audio) /\
  apply_volume E (Some 0%float) buf = Ok buf /\
  apply_volume E None buf = Ok buf.
Proof.
  intros Hbuf. split; [|repeat split].
  rewrite (store_adjust_volume E audio db_change h buf Hbuf).
  unfold _adjust_volume.
  destruct (db_change =? 0)%float; [reflexivity|].
  destruct (pow E 10 _); reflexivity.
Qed.

Lemma C4_gain_witness :
  Store._adjust_volume E_w 0 20%float [[0.5%float]]
  = ([[0.5%float]; [5%float]], Ok 1%nat) /\
  Store._adjust_volume E_w 0 0%float [[0.5%float]] = ([[0.5%float]], Ok 0%nat).
Proof.
  destruct (C4_gain E_w 0%nat 20%float [[0.5%float]] [0.5%float] eq_refl)
    as (H6 & _).
  destruct (C4_gain E_w 0%nat 0%float [[0.5%float]] [0.5%float] eq_refl)
    as (_ & H0 & _).
  split; [exact H6 | exact H0].
Defined.

(** C4, as stated, fails: at 0 dB the multiply path is not taken.  The call
    returns the array it was given and the store is as before, where the
    product would have made a new array. *)
Lemma C4_counterexample :
  Store._adjust_volume E_w 0 0%float [[0.5%float]] = ([[0.5%float]], Ok 0%nat) /\
  Store.multiply_path E_w 0 0%float [[0.5%float]]
    = ([[0.5%float]; [0.5%float]], Ok 1%nat) /\
  ~ zero_db_multiplies E_w [[0.5%float]] 0.
Proof.
  split; [reflexivity|]. split; [reflexivity|].
  unfold zero_db_multiplies. intros H. vm_compute in H. discriminate H.
Qed.

(** ** Pauses between segments *)

(** C2. After every segment but the last, [podcast_segments] holds a buffer
    of zeros whose length is [round(duration_seconds * 24000)], where
    [duration_seconds] is 1.5 when the file name contains "_topic", else 0.7
    when it contains "_speaker", else 1.0; right after the last segment
    comes the outro excerpt, which ends the list, whatever the name. *)
Theorem C2_silence_gaps (E : Env) (cfg : PodcastConfig)
    (files : list Path) (segs : list (list float)) (i : nat) (file : Path) :
  build_segments E (init cfg) files = Ok segs ->
  files !! i = Some file ->
  let duration_seconds :=
    if Py.str_in "_topic" (name file) then 1.5%float
    else if Py.str_in "_speaker" (name file) then 0.7%float
    else 1.0%float in
  ((S i < length files)%nat ->
     exists k,
       Py.round (Py.float_of_int 24000 * duration_seconds)%float = Ok k /\
       segs !! (2 * i + 2)%nat = Some (replicate (Z.to_nat k) 0%float)) /\
  (S i = length files ->
     length segs = (2 * i + 3)%nat /\
     exists music_audio last,
       librosa_load E (music_path (init cfg)) (sample_rate (init cfg)) = Ok music_audio /\
       apply_volume E (bg_outro_volume (init cfg)) (last_15s (init cfg) music_audio)
         = Ok last /\
       segs !! (2 * i + 2)%nat = Some last).
Proof.
  intros Hsegs Hfile duration_seconds.
  apply build_segments_Ok in Hsegs
    as (music_audio & first & last & body & Hm & Hf & Hl & Hbody & ->).
  pose proof (lookup_lt_Some _ _ _ Hfile) as Hi.
  destruct (loop_inv E (init cfg) (length files) files 0 [first] body Hbody eq_refl)
    as (Hlen & _ & Hat).
  destruct files as [|f0 rest] eqn:Hfs; [simpl in Hi; lia|]. rewrite <- Hfs in *.
  assert (Hlen' : length body = (2 * length files)%nat).
  { rewrite Hlen, Hfs. simpl. lia. }
  destruct (Hat i file Hfile) as (pre & audio & _ & _ & _ & Hgap).
  split.
  - intros Hlt. destruct (Hgap ltac:(lia)) as (silence & Hsil & Hpos).
    exists (gap_samples file). split; [apply (gap_round cfg file)|].
    rewrite _create_silence_gap in Hsil. injection Hsil as <-.
    rewrite lookup_app_l by lia.
    replace (2 * i + 2)%nat with (length [first] + 2 * i + 1)%nat by (simpl; lia).
    exact Hpos.
  - intros Hlast. split; [rewrite length_app; simpl; lia|].
    exists music_audio, last. repeat split; try assumption.
    replace (2 * i + 2)%nat with (length body) by lia.
    rewrite lookup_app_r, Nat.sub_diag by lia. reflexivity.
Qed.

Lemma C2_silence_gaps_witness :
  exists segs,
    build_segments E_w (init cfg_w) files_w = Ok segs /\
    ((2 < 3)%nat ->
       exists k,
         Py.round (Py.float_of_int 24000 * 0.7)%float = Ok k /\
         segs !! 4%nat = Some (replicate (Z.to_nat k) 0%float)).
Proof.
  destruct (build_segments_w files_w) as [segs Hsegs].
  exists segs. split; [exact Hsegs|].
  exact (proj1 (C2_silence_gaps E_w cfg_w files_w segs 1%nat
                  (MkPath false ["output"; "b_speaker.wav"]) Hsegs eq_refl)).
Defined.

(** ** Fades *)

(** The two envelopes are linear ramps: entry [k] is [k * step + start]
    with [step = (stop - start) / 11999], the last entry is [stop] itself;
    the rising one starts at exactly 0 and ends at exactly 1, the falling
    one the other way round. *)
Lemma ramp_linear :
  fade_in_ramp = linear_ramp 0 (1 / 11999) 1 /\
  fade_out_ramp = linear_ramp 1 (-1 / 11999) 0.
Proof.
  unfold fade_in_ramp, fade_out_ramp, linear_ramp, Np.linspace.
  change (12000 <? 0)%Z with false.
  change (0 <? 12000 - 1)%Z with true.
  change (1 <? 12000)%Z with true.
  change ((1 - 0) / Py.float_of_int (12000 - 1))%float with (1 / 11999)%float.
  change ((0 - 1) / Py.float_of_int (12000 - 1))%float with (-1 / 11999)%float.
  change (1 / 11999 =? 0)%float with false.
  change (-1 / 11999 =? 0)%float with false.
  cbv beta iota zeta. change (Z.to_nat (12000 - 1)) with (Z.to_nat 11999).
  rewrite <- !list_fmap_compose. split; reflexivity.
Qed.

Lemma linear_ramp_ends (start step stop : float) :
  linear_ramp start step stop !! 0%nat = Some (0 * step + start)%float /\
  linear_ramp start step stop !! Z.to_nat 11999 = Some stop.
Proof.
  unfold linear_ramp. split.
  - rewrite list_lookup_insert_ne by lia.
    rewrite list_lookup_fmap, lookup_seq_lt by lia. reflexivity.
  - apply list_lookup_insert_eq. rewrite length_fmap, length_seq. lia.
Qed.

Lemma ramp_ends :
  fade_in_ramp !! 0%nat = Some 0%float /\
  fade_in_ramp !! Z.to_nat 11999 = Some 1%float /\
  fade_out_ramp !! 0%nat = Some 1%float /\
  fade_out_ramp !! Z.to_nat 11999 = Some 0%float.
Proof.
  destruct ramp_linear as [-> ->].
  destruct (linear_ramp_ends 0 (1 / 11999) 1) as [H1 H2].
  destruct (linear_ramp_ends 1 (-1 / 11999) 0) as [H3 H4].
  repeat split; assumption.
Qed.

Section FadedFacts.
Variable E : Env.

(** Past the window a faded-in clip is the clip. *)
Lemma faded_in_rest audio k :
  (12000 <= Z.of_nat (length audio))%Z -> (12000 <= Z.of_nat k)%Z ->
  faded_in E audio !! k = audio !! k.
Proof.
  intros Hlen Hk. unfold faded_in.
  rewrite lookup_app_r; rewrite length_zip_with, length_take, fade_in_ramp_length;
    [|lia].
  rewrite lookup_drop. f_equal. lia.
Qed.

Lemma faded_in_window audio k x r :
  audio !! k = Some x -> fade_in_ramp !! k = Some r ->
  faded_in E audio !! k = Some (npmul E x r).
Proof.
  intros Hx Hr. unfold faded_in.
  pose proof (lookup_lt_Some _ _ _ Hr) as Hk. rewrite fade_in_ramp_length in Hk.
  pose proof (lookup_lt_Some _ _ _ Hx) as Hk'.
  rewrite lookup_app_l
    by (rewrite length_zip_with, length_take, fade_in_ramp_length; lia).
  rewrite lookup_zip_with, lookup_take_lt, Hx, Hr by lia. reflexivity.
Qed.

(** Before the window a faded-out clip is the clip. *)
Lemma faded_out_rest audio k :
  (Z.of_nat k + 12000 < Z.of_nat (length audio))%Z ->
  faded_out E audio !! k = audio !! k.
Proof.
  intros Hk. unfold faded_out.
  rewrite lookup_app_l by (rewrite length_take; lia).
  apply lookup_take_lt. lia.
Qed.

Lemma faded_out_window audio k x r :
  (12000 <= Z.of_nat (length audio))%Z ->
  audio !! (length audio - Z.to_nat 12000 + k)%nat = Some x ->
  fade_out_ramp !! k = Some r ->
  faded_out E audio !! (length audio - Z.to_nat 12000 + k)%nat = Some (npmul E x r).
Proof.
  intros Hlen Hx Hr. unfold faded_out.
  rewrite lookup_app_r by (rewrite length_take; lia).
  rewrite length_take.
  replace (length audio - Z.to_nat 12000 + k
           - (length audio - Z.to_nat 12000) `min` length audio)%nat
    with k by lia.
  rewrite lookup_zip_with, lookup_drop, Hx, Hr. reflexivity.
Qed.

End FadedFacts.

(** C5. In a run over [n >= 1] segments the first segment enters the output
    faded in and the last (when [n >= 2]) faded out, every segment in
    between as it was loaded.  The fade-in changes at most the first 12000
    samples (half a second) of the clip and the fade-out at most the last
    12000, each by the product with a linear ramp (from 0 to 1, from 1 to
    0); lengths are kept.  With a single segment the output holds that
    segment faded in only. *)
Theorem C5_fades (E : Env) (cfg : PodcastConfig)
    (files : list Path) (segs : list (list float)) :
  build_segments E (init cfg) files = Ok segs ->
  (1 <= length files)%nat ->
  (fade_in_ramp = linear_ramp 0 (1 / 11999) 1 /\
   fade_out_ramp = linear_ramp 1 (-1 / 11999) 0) /\
  (exists file pre,
     files !! 0%nat = Some file /\
     load_segment E (init cfg) file = Ok pre /\
     segs !! 1%nat = Some (faded_in E pre) /\
     length (faded_in E pre) = length pre /\
     (forall k, (12000 <= Z.of_nat k)%Z -> faded_in E pre !! k = pre !! k) /\
     (forall k x r, pre !! k = Some x -> fade_in_ramp !! k = Some r ->
                    faded_in E pre !! k = Some (npmul E x r))) /\
  (forall i file, (0 < i)%nat -> (S i < length files)%nat ->
     files !! i = Some file ->
     exists pre, load_segment E (init cfg) file = Ok pre /\
                 segs !! (2 * i + 1)%nat = Some pre) /\
  ((2 <= length files)%nat ->
   exists file pre,
     files !! (length files - 1)%nat = Some file /\
     load_segment E (init cfg) file = Ok pre /\
     segs !! (2 * length files - 1)%nat = Some (faded_out E pre) /\
     length (faded_out E pre) = length pre /\
     (forall k, (Z.of_nat k + 12000 < Z.of_nat (length pre))%Z ->
                faded_out E pre !! k = pre !! k) /\
     (forall k x r,
        pre !! (length pre - Z.to_nat 12000 + k)%nat = Some x ->
        fade_out_ramp !! k = Some r ->
        faded_out E pre !! (length pre - Z.to_nat 12000 + k)%nat
          = Some (npmul E x r))) /\
  (length files = 1%nat -> length segs = 3%nat).
Proof.
  intros Hsegs Hn.
  apply build_segments_Ok in Hsegs
    as (music_audio & first & last & body & Hm & Hf & Hl & Hbody & ->).
  destruct (loop_inv E (init cfg) (length files) files 0 [first] body Hbody eq_refl)
    as (Hlen & _ & Hat).
  assert (Hlen' : length body = (2 * length files)%nat).
  { rewrite Hlen. destruct files; simpl in *; lia. }
  assert (Hin : forall j, (j < length files)%nat ->
            (body ++ [last]) !! (2 * j + 1)%nat = body !! (length [first] + 2 * j)%nat).
  { intros j Hj. rewrite lookup_app_l by lia. f_equal. simpl. lia. }
  split; [exact ramp_linear|].
  repeat split.
  - destruct (lookup_lt_is_Some_2 files 0%nat ltac:(lia)) as [file Hfile].
    destruct (Hat 0%nat file Hfile) as (pre & audio & Hpre & Hfade & Hpos & _).
    rewrite apply_fades_first in Hfade.
    apply _fade_in_Ok in Hfade as [Hlong ->].
    exists file, pre. repeat split; try assumption.
    + rewrite <- Hpos. apply (Hin 0%nat). lia.
    + apply faded_in_length. exact Hlong.
    + intros k Hk. apply faded_in_rest; assumption.
    + intros k x r. apply faded_in_window.
  - intros i file Hi Hlt Hfile.
    destruct (Hat i file Hfile) as (pre & audio & Hpre & Hfade & Hpos & _).
    rewrite apply_fades_middle in Hfade by lia. injection Hfade as <-.
    exists pre. split; [assumption|]. rewrite Hin by lia. exact Hpos.
  - intros Hn2.
    destruct (lookup_lt_is_Some_2 files (length files - 1)%nat ltac:(lia))
      as [file Hfile].
    destruct (Hat _ file Hfile) as (pre & audio & Hpre & Hfade & Hpos & _).
    rewrite apply_fades_last in Hfade by lia.
    apply _fade_out_Ok in Hfade as [Hlong ->].
    exists file, pre. repeat split; try assumption.
    + replace (2 * length files - 1)%nat with (2 * (length files - 1) + 1)%nat by lia.
      rewrite Hin by lia. exact Hpos.
    + apply faded_out_length. exact Hlong.
    + intros k Hk. apply faded_out_rest. exact Hk.
    + intros k x r. apply faded_out_window. exact Hlong.
  - intros H1. rewrite length_app, Hlen', H1. reflexivity.
Qed.

Lemma C5_fades_witness :
  exists segs,
    build_segments E_w (init cfg_w) files_w = Ok segs /\
    segs !! 1%nat = Some (faded_in E_w clip_w) /\
    segs !! 3%nat = Some clip_w /\
    segs !! 5%nat = Some (faded_out E_w clip_w).
Proof.
  destruct (build_segments_w files_w) as [segs Hsegs].
  exists segs. split; [exact Hsegs|].
  destruct (C5_fades E_w cfg_w files_w segs Hsegs ltac:(simpl; lia))
    as (_ & (f0 & pre0 & Hf0 & Hp0 & Hs0 & _) & Hmid & Hlast & _).
  injection Hf0 as <-. rewrite load_segment_w in Hp0. injection Hp0 as <-.
  split; [exact Hs0|].
  destruct (Hmid 1%nat (MkPath false ["output"; "b_speaker.wav"])
              ltac:(lia) ltac:(simpl; lia) eq_refl) as (pre1 & Hp1 & Hs1).
  rewrite load_segment_w in Hp1. injection Hp1 as <-.
  split; [exact Hs1|].
  destruct (Hlast ltac:(simpl; lia)) as (f2 & pre2 & _ & Hp2 & Hs2 & _).
  rewrite load_segment_w in Hp2. injection Hp2 as <-.
  exact Hs2.
Defined.

(** ** Clips shorter than the fade *)

Lemma assemble_body_Ok (E : Env) (self : AudioAssembler)
    (audio_files : option audio_files_arg) (output_dir : option Path) (out : assembled) :
  assemble_body E self audio_files output_dir = Ok out ->
  exists files segs,
    resolve_files E self audio_files = Ok files /\
    mkdir E (default (audio_dir self) output_dir) = Ok tt /\
    build_segments E self files = Ok segs /\
    Np.concatenate segs = Ok (final_podcast out) /\
    output_path out = joinpath (default (audio_dir self) output_dir)
                        (path_of_string (output_file self)) /\
    sf_write E (output_path out) (final_podcast out) (sample_rate self) = Ok tt.
Proof.
  unfold assemble_body. intros H.
  apply bind_Ok in H as (files & Hfiles & H).
  apply bind_Ok in H as ([] & Hmk & H).
  apply bind_Ok in H as (segs & Hsegs & H).
  apply bind_Ok in H as (final & Hfinal & H).
  apply bind_Ok in H as ([] & Hw & [= <-]).
  exists files, segs. simpl. repeat split; assumption.
Qed.

Lemma assemble_Ok (E : Env) (self : AudioAssembler)
    (audio_files : option audio_files_arg) (output_dir : option Path) (out : assembled) :
  assemble E self audio_files output_dir = Ok out ->
  assemble_body E self audio_files output_dir = Ok out.
Proof.
  unfold assemble. destruct (assemble_body _ _ _ _); [trivial | discriminate].
Qed.

(** C10. A clip of fewer than 12000 samples makes [_fade_in] and
    [_fade_out] raise numpy's shape-mismatch [ValueError]; they do not fade
    what there is.  So a call of [assemble] whose first or last segment has
    fewer than 12000 samples once loaded raises [AudioAssemblyError] and
    returns nothing. *)
Theorem C10_short_clip (E : Env) (cfg : PodcastConfig) :
  (forall audio,
     (Z.of_nat (length audio) < 12000)%Z ->
     (exists msg, _fade_in E (init cfg) audio default_fade = Raise (Exn ValueError msg)) /\
     (exists msg, _fade_out E (init cfg) audio default_fade = Raise (Exn ValueError msg))) /\
  (forall audio_files output_dir files i file pre,
     resolve_files E (init cfg) audio_files = Ok files ->
     files !! i = Some file ->
     i = 0%nat \/ S i = length files ->
     load_segment E (init cfg) file = Ok pre ->
     (Z.of_nat (length pre) < 12000)%Z ->
     exists msg,
       assemble E (init cfg) audio_files output_dir
       = Raise (Exn AudioAssemblyError msg)).
Proof.
  split.
  - intros audio Hlen. split; [apply _fade_in_short | apply _fade_out_short]; exact Hlen.
  - intros audio_files output_dir files i file pre Hfiles Hfile Hpos Hpre Hlen.
    unfold assemble.
    destruct (assemble_body E (init cfg) audio_files output_dir) as [out|e] eqn:Hbody;
      [exfalso | unfold wrap; eauto].
    apply assemble_body_Ok in Hbody as (files' & segs & Hfiles' & _ & Hsegs & _).
    rewrite Hfiles in Hfiles'. injection Hfiles' as <-.
    apply build_segments_Ok in Hsegs as (m & first & last & body & _ & _ & _ & Hloop & _).
    destruct (loop_inv E (init cfg) (length files) files 0 [first] body Hloop eq_refl)
      as (_ & _ & Hat).
    destruct (Hat i file Hfile) as (pre' & audio & Hpre' & Hfade & _).
    rewrite Hpre in Hpre'. injection Hpre' as <-. simpl in Hfade.
    destruct (decide (i = 0%nat)) as [->|Hi].
    + rewrite apply_fades_first in Hfade. apply _fade_in_Ok in Hfade as [Hlong _]. lia.
    + rewrite apply_fades_last in Hfade by (destruct Hpos; [contradiction | assumption]).
      apply _fade_out_Ok in Hfade as [Hlong _]. lia.
Qed.

Lemma C10_short_clip_witness :
  exists msg,
    assemble E_short (init cfg_w) (Some (FileList files_w)) None
    = Raise (Exn AudioAssemblyError msg).
Proof.
  refine (proj2 (C10_short_clip E_short cfg_w) (Some (FileList files_w)) None files_w
            2%nat (MkPath false ["output"; "c.wav"]) [0.5%float; 0.5%float]
            eq_refl eq_refl (or_intror eq_refl) _ _).
  - apply load_segment_mono; reflexivity.
  - simpl. lia.
Defined.

(** The run of the example: the first segment already stops the call. *)
Example short_clip_run :
  assemble E_short (init cfg_w) (Some (FileList files_w)) None
  = Raise (Exn AudioAssemblyError
      "Podcast assembly failed: operands could not be broadcast together with shapes (2,) (12000,) (2,) ").
Proof. vm_compute. reflexivity. Qed.

(** ** Determinism *)

Section SameInputs.
Variables E1 E2 : Env.
Variable self : AudioAssembler.
Hypothesis Hpow : forall x, pow E1 10 x = pow E2 10 x.
Hypothesis Hmul : forall x y, npmul E1 x y = npmul E2 x y.

Lemma imul_ext a s other :
  Np.imul (npmul E1) a s other = Np.imul (npmul E2) a s other.
Proof.
  unfold Np.imul. repeat case_decide; try reflexivity; do 2 f_equal.
  - apply zip_with_ext; auto.
  - apply list_fmap_ext. intros _ x _. apply Hmul.
Qed.

Lemma _fade_in_ext audio d : _fade_in E1 self audio d = _fade_in E2 self audio d.
Proof.
  unfold _fade_in. destruct (Py.int _) as [n|]; [simpl | reflexivity].
  destruct (Np.linspace 0 1 n); [simpl | reflexivity]. apply imul_ext.
Qed.

Lemma _fade_out_ext audio d : _fade_out E1 self audio d = _fade_out E2 self audio d.
Proof.
  unfold _fade_out. destruct (Py.int _) as [n|]; [simpl | reflexivity].
  destruct (Np.linspace 1 0 n); [simpl | reflexivity]. apply imul_ext.
Qed.

Lemma apply_volume_ext volume audio :
  apply_volume E1 volume audio = apply_volume E2 volume audio.
Proof.
  destruct volume as [db|]; [|reflexivity]. simpl. unfold _adjust_volume.
  destruct (db =? 0)%float; [reflexivity|]. rewrite Hpow.
  destruct (pow E2 10 _); [simpl | reflexivity].
  f_equal. apply list_fmap_ext. intros _ x _. apply Hmul.
Qed.

Lemma apply_fades_ext n i audio :
  apply_fades E1 self n i audio = apply_fades E2 self n i audio.
Proof.
  unfold apply_fades. repeat case_decide;
    [apply _fade_in_ext | apply _fade_out_ext | reflexivity].
Qed.

Hypothesis Hresample : forall audio sr,
  librosa_resample E1 audio sr (sample_rate self)
  = librosa_resample E2 audio sr (sample_rate self).
Hypothesis Hmean : forall rows, mean_axis1 E1 rows = mean_axis1 E2 rows.

Lemma load_segment_ext file :
  sf_read E1 file = sf_read E2 file ->
  load_segment E1 self file = load_segment E2 self file.
Proof.
  intros Hread. unfold load_segment. rewrite Hread.
  destruct (sf_read E2 file) as [[audio sr]|]; [simpl | reflexivity].
  rewrite Hresample.
  destruct (if decide (sr ≠ sample_rate self) then _ else _) as [[a|rows]|];
    simpl; rewrite ?Hmean; try reflexivity; apply apply_volume_ext.
Qed.

Lemma loop_ext n files : forall i acc,
  (forall file, file ∈ files -> sf_read E1 file = sf_read E2 file) ->
  loop E1 self n i files acc = loop E2 self n i files acc.
Proof.
  induction files as [|file rest IH]; intros i acc Hread; [reflexivity|].
  simpl. unfold loop_body.
  rewrite load_segment_ext by (apply Hread; left).
  destruct (load_segment E2 self file) as [pre|]; [simpl | reflexivity].
  rewrite apply_fades_ext.
  destruct (apply_fades E2 self n i pre) as [audio|]; [simpl | reflexivity].
  destruct (gap_after self n i file) as [gap|]; [simpl | reflexivity].
  apply IH. intros f Hf. apply Hread. right. exact Hf.
Qed.

Lemma build_segments_ext files :
  librosa_load E1 (music_path self) (sample_rate self)
    = librosa_load E2 (music_path self) (sample_rate self) ->
  (forall file, file ∈ files -> sf_read E1 file = sf_read E2 file) ->
  build_segments E1 self files = build_segments E2 self files.
Proof.
  intros Hmusic Hread. unfold build_segments. rewrite Hmusic.
  destruct (librosa_load E2 _ _) as [music_audio|]; [simpl | reflexivity].
  rewrite !apply_volume_ext.
  destruct (apply_volume E2 (bg_intro_volume self) _) as [first|]; [simpl | reflexivity].
  destruct (apply_volume E2 (bg_outro_volume self) _) as [last|]; [simpl | reflexivity].
  rewrite (loop_ext _ _ _ _ Hread). reflexivity.
Qed.

End SameInputs.

(** C9. Two calls of [assemble] on the same ordered segment files, with the
    same content in those files, the same music asset and the same
    configuration, compute the same output buffer or fail with the same
    error before the write; when both return, the buffers they wrote are
    equal sample for sample.  Nothing else of the environment (other files
    of the directory, the output directory, the outcome of the write)
    enters the buffer. *)
Theorem C9_deterministic (E1 E2 : Env) (self : AudioAssembler)
    (audio_files : option audio_files_arg) (output_dir1 output_dir2 : option Path)
    (files : list Path) :
  resolve_files E1 self audio_files = Ok files ->
  resolve_files E2 self audio_files = Ok files ->
  same_inputs E1 E2 self files ->
  (build_segments E1 self files ≫= Np.concatenate)
    = (build_segments E2 self files ≫= Np.concatenate) /\
  forall out1 out2,
    assemble E1 self audio_files output_dir1 = Ok out1 ->
    assemble E2 self audio_files output_dir2 = Ok out2 ->
    final_podcast out1 = final_podcast out2.
Proof.
  intros H1 H2 (Hmusic & Hread & Hres & Hmean & Hpow & Hmul).
  assert (Heq : build_segments E1 self files = build_segments E2 self files)
    by (apply build_segments_ext; assumption).
  split; [rewrite Heq; reflexivity|].
  intros out1 out2 Ho1 Ho2.
  apply assemble_Ok, assemble_body_Ok in Ho1 as (f1 & s1 & Hf1 & _ & Hs1 & Hc1 & _).
  apply assemble_Ok, assemble_body_Ok in Ho2 as (f2 & s2 & Hf2 & _ & Hs2 & Hc2 & _).
  rewrite H1 in Hf1. rewrite H2 in Hf2. injection Hf1 as <-. injection Hf2 as <-.
  rewrite Heq, Hs2 in Hs1. injection Hs1 as <-.
  rewrite Hc2 in Hc1. injection Hc1 as ->. reflexivity.
Qed.

Lemma same_inputs_w : same_inputs E_w E_w2 (init cfg_w) files_w.
Proof. repeat split. Qed.

Lemma C9_deterministic_witness :
  (build_segments E_w (init cfg_w) files_w ≫= Np.concatenate)
  = (build_segments E_w2 (init cfg_w) files_w ≫= Np.concatenate).
Proof.
  exact (proj1 (C9_deterministic E_w E_w2 (init cfg_w) (Some (FileList files_w))
                  None None files_w eq_refl eq_refl same_inputs_w)).
Defined.

(** ** The scenario of the specification *)

Section Scenario.
Variable E : Env.
Variable cfg : PodcastConfig.

Lemma loop_cons n i file rest acc :
  loop E (init cfg) n i (file :: rest) acc
  = (loop_body E (init cfg) n i file acc ≫= loop E (init cfg) n (S i) rest).
Proof. reflexivity. Qed.

Lemma loop_body_eq n i file acc pre audio gap :
  load_segment E (init cfg) file = Ok pre ->
  apply_fades E (init cfg) n i pre = Ok audio ->
  gap_after (init cfg) n i file = Ok gap ->
  loop_body E (init cfg) n i file acc = Ok ((acc ++ [audio]) ++ gap).
Proof.
  intros Hpre Haudio Hgap. unfold loop_body.
  rewrite (bind_of_Ok _ _ _ Hpre), (bind_of_Ok _ _ _ Haudio). cbv zeta.
  rewrite (bind_of_Ok _ _ _ Hgap). reflexivity.
Qed.

Lemma gap_after_inner n i file :
  (S i < n)%nat ->
  gap_after (init cfg) n i file = Ok [replicate (Z.to_nat (gap_samples file)) 0%float].
Proof.
  intros Hlt. unfold gap_after. rewrite decide_True by lia.
  rewrite _create_silence_gap. reflexivity.
Qed.

Lemma gap_after_final n i file :
  S i = n -> gap_after (init cfg) n i file = Ok [].
Proof. intros Hn. unfold gap_after. rewrite decide_False by lia. reflexivity. Qed.

End Scenario.

(** C1. Three one-second segments named a_topic.wav, b_speaker.wav and
    c.wav, in that order, at 24000 Hz, no gain configured, a music asset of
    twenty seconds: [assemble] returns, and the buffer it writes is the
    first 15 s of the music, segment a faded in, 1.5 s of silence, segment
    b, 0.7 s of silence, segment c faded out, the last 15 s of the music;
    that is 35.2 * 24000 = 844800 samples. *)
Theorem C1_scenario (E : Env) (cfg : PodcastConfig)
    (audio_files : option audio_files_arg) (output_dir : option Path)
    (pa pb pc : Path) (a b c music_audio : list float) :
  cfg_vocal_volume (cfg_audio cfg) = None ->
  cfg_bg_intro_volume (cfg_audio cfg) = None ->
  cfg_bg_outro_volume (cfg_audio cfg) = None ->
  resolve_files E (init cfg) audio_files = Ok [pa; pb; pc] ->
  name pa = "a_topic.wav" -> name pb = "b_speaker.wav" -> name pc = "c.wav" ->
  sf_read E pa = Ok (Np.Arr1 a, 24000%Z) ->
  sf_read E pb = Ok (Np.Arr1 b, 24000%Z) ->
  sf_read E pc = Ok (Np.Arr1 c, 24000%Z) ->
  Z.of_nat (length a) = 24000%Z ->
  Z.of_nat (length b) = 24000%Z ->
  Z.of_nat (length c) = 24000%Z ->
  librosa_load E (music_path (init cfg)) 24000 = Ok music_audio ->
  Z.of_nat (length music_audio) = (20 * 24000)%Z ->
  mkdir E (default (audio_dir (init cfg)) output_dir) = Ok tt ->
  (forall buf,
     sf_write E (joinpath (default (audio_dir (init cfg)) output_dir)
                   (path_of_string (output_file (init cfg)))) buf 24000 = Ok tt) ->
  exists out,
    assemble E (init cfg) audio_files output_dir = Ok out /\
    final_podcast out
      = take (Z.to_nat 360000) music_audio
        ++ faded_in E a
        ++ replicate (Z.to_nat 36000) 0%float
        ++ b
        ++ replicate (Z.to_nat 16800) 0%float
        ++ faded_out E c
        ++ drop (Z.to_nat 120000) music_audio /\
    Z.of_nat (length (final_podcast out)) = 844800%Z.
Proof.
  intros Hvocal Hintro Houtro Hfiles Hna Hnb Hnc Hra Hrb Hrc Hla Hlb Hlc
    Hmusic Hlm Hmkdir Hwrite.
  destruct (proj2 (music_excerpts cfg music_audio) ltac:(lia)) as (Hfirst & Hlast & _).
  change (15 * 24000)%Z with 360000%Z in Hfirst, Hlast.
  replace (length music_audio - Z.to_nat 360000)%nat with (Z.to_nat 120000) in Hlast by lia.
  assert (Hga : gap_samples pa = 36000%Z)
    by (unfold gap_samples; rewrite Hna; reflexivity).
  assert (Hgb : gap_samples pb = 16800%Z)
    by (unfold gap_samples; rewrite Hnb; reflexivity).
  assert (Hsegs : build_segments E (init cfg) [pa; pb; pc]
            = Ok [take (Z.to_nat 360000) music_audio; faded_in E a;
                  replicate (Z.to_nat 36000) 0%float; b;
                  replicate (Z.to_nat 16800) 0%float; faded_out E c;
                  drop (Z.to_nat 120000) music_audio]).
  { unfold build_segments.
    change (sample_rate (init cfg)) with 24000%Z.
    rewrite (bind_of_Ok _ _ _ Hmusic).
    change (bg_intro_volume (init cfg)) with (cfg_bg_intro_volume (cfg_audio cfg)).
    change (bg_outro_volume (init cfg)) with (cfg_bg_outro_volume (cfg_audio cfg)).
    rewrite Hintro, Houtro, Hfirst, Hlast. unfold apply_volume.
    rewrite 2(bind_of_Ok _ _ _ eq_refl).
    rewrite loop_cons.
    rewrite (loop_body_eq E cfg _ _ _ _ a (faded_in E a)
               [replicate (Z.to_nat 36000) 0%float]); cycle 1.
    { apply load_segment_mono; assumption. }
    { rewrite apply_fades_first. apply _fade_in_long. lia. }
    { rewrite gap_after_inner, Hga by (simpl; lia). reflexivity. }
    rewrite (bind_of_Ok _ _ _ eq_refl), loop_cons.
    rewrite (loop_body_eq E cfg _ _ _ _ b b
               [replicate (Z.to_nat 16800) 0%float]); cycle 1.
    { apply load_segment_mono; assumption. }
    { apply apply_fades_middle; simpl; lia. }
    { rewrite gap_after_inner, Hgb by (simpl; lia). reflexivity. }
    rewrite (bind_of_Ok _ _ _ eq_refl), loop_cons.
    rewrite (loop_body_eq E cfg _ _ _ _ c (faded_out E c) []); cycle 1.
    { apply load_segment_mono; assumption. }
    { rewrite apply_fades_last by (simpl; lia). apply _fade_out_long. lia. }
    { apply gap_after_final. reflexivity. }
    rewrite (bind_of_Ok _ _ _ eq_refl). reflexivity. }
  eexists. split; [|split].
  - unfold assemble, assemble_body.
    rewrite (bind_of_Ok _ _ _ Hfiles), (bind_of_Ok _ _ _ Hmkdir).
    rewrite (bind_of_Ok _ _ _ Hsegs).
    unfold Np.concatenate. rewrite (bind_of_Ok _ _ _ eq_refl).
    change (sample_rate (init cfg)) with 24000%Z.
    rewrite (bind_of_Ok _ _ _ (Hwrite _)). reflexivity.
  - cbn [final_podcast concat]. rewrite app_nil_r. reflexivity.
  - cbn [final_podcast concat]. rewrite app_nil_r.
    rewrite !length_app, length_take, length_drop, !length_replicate.
    rewrite faded_in_length, faded_out_length by lia. lia.
Qed.

Lemma C1_scenario_witness :
  exists out,
    assemble E_w (init cfg_w) (Some (FileList files_w)) None = Ok out /\
    Z.of_nat (length (final_podcast out)) = 844800%Z.
Proof.
  destruct (C1_scenario E_w cfg_w (Some (FileList files_w)) None
              (MkPath false ["output"; "a_topic.wav"])
              (MkPath false ["output"; "b_speaker.wav"])
              (MkPath false ["output"; "c.wav"])
              clip_w clip_w clip_w music_w
              eq_refl eq_refl eq_refl eq_refl eq_refl eq_refl eq_refl
              eq_refl eq_refl eq_refl clip_w_length clip_w_length clip_w_length
              eq_refl music_w_length eq_refl (fun _ => eq_refl))
    as (out & Hout & _ & Hlen).
  exists out. split; assumption.
Defined.

(** The same three files found by the directory scan come out in that
    order, whatever order the system lists them in. *)
Example scan_order :
  resolve_files E_scan (init cfg_w) None = Ok files_w.
Proof. reflexivity. Qed.

(** * Further properties of the assembler *)

(** A call returns when its files resolve, the directory can be made, the
    segments can be built and the write succeeds. *)
Lemma assemble_total (E : Env) (self : AudioAssembler)
    (audio_files : option audio_files_arg) (output_dir : option Path)
    (files : list Path) (segs : list (list float)) :
  resolve_files E self audio_files = Ok files ->
  mkdir E (default (audio_dir self) output_dir) = Ok tt ->
  build_segments E self files = Ok segs ->
  (forall buf, sf_write E (joinpath (default (audio_dir self) output_dir)
                             (path_of_string (output_file self))) buf (sample_rate self)
               = Ok tt) ->
  exists out,
    assemble E self audio_files output_dir = Ok out /\ final_podcast out = concat segs.
Proof.
  intros Hres Hmk Hsegs Hw.
  pose proof Hsegs as Hsegs'.
  apply build_segments_Ok in Hsegs' as (m & f & l & body & _ & _ & _ & _ & ->).
  destruct (body ++ [l]) as [|b bs] eqn:Hb.
  { apply app_eq_nil in Hb as [_ Hb]. discriminate. }
  eexists. unfold assemble, assemble_body.
  rewrite (bind_of_Ok _ _ _ Hres), (bind_of_Ok _ _ _ Hmk), (bind_of_Ok _ _ _ Hsegs).
  unfold Np.concatenate. rewrite (bind_of_Ok _ _ _ eq_refl).
  rewrite (bind_of_Ok _ _ _ (Hw _)). split; reflexivity.
Qed.

(** The run of the example environment returns. *)
Lemma assembled_w :
  exists out, assemble E_w (init cfg_w) (Some (FileList files_w)) None = Ok out.
Proof.
  destruct (build_segments_w files_w) as [segs Hsegs].
  destruct (assemble_total E_w (init cfg_w) (Some (FileList files_w)) None
              files_w segs eq_refl eq_refl Hsegs (fun _ => eq_refl))
    as (out & Hout & _).
  exists out. exact Hout.
Qed.

(** ** The order of the segment files *)

Section SortedFacts.
Context {A : Type}.
Variable key : A -> string.

Lemma ascii_compare_trans_lt a b c :
  Ascii.compare a b = Lt -> Ascii.compare b c = Lt -> Ascii.compare a c = Lt.
Proof.
  unfold Ascii.compare. rewrite !N.compare_lt_iff. lia.
Qed.

Lemma compare_trans_lt : forall s1 s2 s3,
  String.compare s1 s2 = Lt -> String.compare s2 s3 = Lt -> String.compare s1 s3 = Lt.
Proof.
  induction s1 as [|a s1 IH]; intros [|b s2] [|c s3]; simpl; try congruence.
  destruct (Ascii.compare a b) eqn:Hab; try discriminate;
    destruct (Ascii.compare b c) eqn:Hbc; try discriminate; intros H1 H2.
  - apply Ascii.compare_eq_iff in Hab, Hbc. subst.
    replace (Ascii.compare c c) with Eq
      by (symmetry; unfold Ascii.compare; apply N.compare_refl).
    eauto.
  - apply Ascii.compare_eq_iff in Hab. subst. rewrite Hbc. reflexivity.
  - apply Ascii.compare_eq_iff in Hbc. subst. rewrite Hab. reflexivity.
  - rewrite (ascii_compare_trans_lt _ _ _ Hab Hbc). reflexivity.
Qed.

Lemma compare_refl s : String.compare s s = Eq.
Proof.
  induction s as [|a s IH]; [reflexivity|]. simpl.
  replace (Ascii.compare a a) with Eq
    by (symmetry; unfold Ascii.compare; apply N.compare_refl).
  exact IH.
Qed.

Lemma leb_refl s : String.leb s s = true.
Proof. unfold String.leb. rewrite compare_refl. reflexivity. Qed.

Lemma leb_trans s1 s2 s3 :
  String.leb s1 s2 = true -> String.leb s2 s3 = true -> String.leb s1 s3 = true.
Proof.
  unfold String.leb.
  destruct (String.compare s1 s2) eqn:H12; try discriminate;
    destruct (String.compare s2 s3) eqn:H23; try discriminate; intros _ _.
  - apply String.compare_eq_iff in H12, H23. subst. rewrite compare_refl. reflexivity.
  - apply String.compare_eq_iff in H12. subst. rewrite H23. reflexivity.
  - apply String.compare_eq_iff in H23. subst. rewrite H12. reflexivity.
  - rewrite (compare_trans_lt _ _ _ H12 H23). reflexivity.
Qed.

Lemma leb_false_lt s1 s2 : String.leb s1 s2 = false -> String.leb s2 s1 = true.
Proof.
  intros H. destruct (String.leb_total s1 s2) as [H'|H']; congruence.
Qed.

Lemma insert_by_Permutation x l : Py.insert_by key x l ≡ₚ x :: l.
Proof.
  induction l as [|y l IH]; simpl; [reflexivity|].
  destruct (String.leb (key x) (key y)); [reflexivity|].
  rewrite IH. apply Permutation_swap.
Qed.

Lemma sorted_Permutation l : Py.sorted key l ≡ₚ l.
Proof.
  induction l as [|x l IH]; simpl; [reflexivity|].
  unfold Py.sorted in *. simpl. rewrite insert_by_Permutation, IH. reflexivity.
Qed.

Lemma ascending_cons x l :
  ascending key (x :: l)
  = match l with [] => true | y :: _ => String.leb (key x) (key y) end
    && ascending key l.
Proof. destruct l; reflexivity. Qed.

Lemma insert_by_ascending x l :
  ascending key l = true -> ascending key (Py.insert_by key x l) = true.
Proof.
  induction l as [|y l IH]; intros Hl; [reflexivity|].
  simpl Py.insert_by. destruct (String.leb (key x) (key y)) eqn:Hxy.
  - rewrite ascending_cons, Hxy. exact Hl.
  - rewrite ascending_cons in Hl. apply andb_prop in Hl as [Hy Hl].
    rewrite ascending_cons, (IH Hl), andb_true_r.
    destruct l as [|z l]; simpl.
    + apply leb_false_lt, Hxy.
    + destruct (String.leb (key x) (key z)); [apply leb_false_lt, Hxy | exact Hy].
Qed.

Lemma sorted_ascending l : ascending key (Py.sorted key l) = true.
Proof.
  induction l as [|x l IH]; [reflexivity|].
  unfold Py.sorted in *. simpl. apply insert_by_ascending, IH.
Qed.

(** A list in ascending order is left as it is: the sort is stable. *)
Lemma sorted_fixed l : ascending key l = true -> Py.sorted key l = l.
Proof.
  induction l as [|x l IH]; intros Hl; [reflexivity|].
  rewrite ascending_cons in Hl. apply andb_prop in Hl as [Hx Hl].
  unfold Py.sorted in *. simpl. rewrite (IH Hl).
  destruct l as [|y l]; [reflexivity|]. simpl. rewrite Hx. reflexivity.
Qed.

(** Every element of an ascending list is at least its head. *)
Lemma ascending_head x l :
  ascending key (x :: l) = true ->
  forall y, y ∈ l -> String.leb (key x) (key y) = true.
Proof.
  revert x. induction l as [|z l IH]; intros x Hl y Hy; [inversion Hy|].
  rewrite ascending_cons in Hl. apply andb_prop in Hl as [Hxz Hl].
  apply elem_of_cons in Hy as [->|Hy]; [exact Hxz|].
  eapply leb_trans; [exact Hxz|]. apply IH; assumption.
Qed.

(** Two ascending arrangements of the same elements are the same list when
    no two elements share a key. *)
Lemma ascending_unique l1 : forall l2,
  l1 ≡ₚ l2 -> NoDup (key <$> l1) ->
  ascending key l1 = true -> ascending key l2 = true -> l1 = l2.
Proof.
  induction l1 as [|x l1 IH]; intros l2 Hp Hnd H1 H2.
  - apply Permutation_nil_l in Hp. congruence.
  - destruct l2 as [|y l2]; [apply Permutation_nil_r in Hp; discriminate|].
    assert (Hxy : key x = key y).
    { apply String.leb_antisym.
      - assert (Hy : y ∈ x :: l1) by (rewrite Hp; left).
        apply elem_of_cons in Hy as [->|Hy]; [apply leb_refl|].
        apply (ascending_head x l1 H1 y Hy).
      - assert (Hx : x ∈ y :: l2) by (rewrite <- Hp; left).
        apply elem_of_cons in Hx as [->|Hx]; [apply leb_refl|].
        apply (ascending_head y l2 H2 x Hx). }
    assert (x = y) as <-.
    { assert (Hy : y ∈ x :: l1) by (rewrite Hp; left).
      apply elem_of_cons in Hy as [->|Hy]; [reflexivity|].
      exfalso. simpl in Hnd. apply NoDup_cons in Hnd as [Hnot _].
      apply Hnot. rewrite Hxy. apply list_elem_of_fmap. eauto. }
    f_equal. apply IH.
    + apply (Permutation_cons_inv Hp).
    + simpl in Hnd. apply NoDup_cons in Hnd as [_ Hnd]. exact Hnd.
    + rewrite ascending_cons in H1. apply andb_prop in H1 as [_ H1]. exact H1.
    + rewrite ascending_cons in H2. apply andb_prop in H2 as [_ H2]. exact H2.
Qed.

End SortedFacts.

(** X1. A dict of segment files is played in the order of the file names,
    not in the order of insertion: two dicts holding the same files, no two
    of them with the same name, resolve to the same list, which holds
    exactly the files of the dict in ascending order of name. *)
Theorem X1_dict_insertion_order (E : Env) (self : AudioAssembler)
    (d1 d2 : list (string * Path)) :
  d1.*2 ≡ₚ d2.*2 ->
  NoDup (name <$> d1.*2) ->
  resolve_files E self (Some (FileDict d1)) = resolve_files E self (Some (FileDict d2)) /\
  exists files,
    resolve_files E self (Some (FileDict d1)) = Ok files /\
    files ≡ₚ d1.*2 /\
    ascending name files = true.
Proof.
  intros Hp Hnd. unfold resolve_files. split.
  - f_equal. apply (ascending_unique name).
    + rewrite !sorted_Permutation. exact Hp.
    + rewrite (sorted_Permutation name (d1.*2)). exact Hnd.
    + apply sorted_ascending.
    + apply sorted_ascending.
  - eexists. split; [reflexivity|]. split.
    + apply sorted_Permutation.
    + apply sorted_ascending.
Qed.

Lemma X1_dict_insertion_order_witness :
  resolve_files E_w (init cfg_w) (Some (FileDict dict_w))
  = resolve_files E_w (init cfg_w) (Some (FileDict dict_w2)).
Proof.
  refine (proj1 (X1_dict_insertion_order E_w (init cfg_w) dict_w dict_w2 _ _)).
  - simpl. apply Permutation_sym. apply (Permutation_cons_append [_; _]).
  - simpl.
    repeat (apply NoDup_cons_2;
            [rewrite ?elem_of_cons, elem_of_nil; intuition discriminate|]).
    apply NoDup_nil_2.
Defined.

Example dict_order_run :
  resolve_files E_w (init cfg_w) (Some (FileDict dict_w)) = Ok files_w.
Proof. reflexivity. Qed.

(** ** Empty input *)

(** X2. An explicit list or dict without any file is not an error: where
    the directory scan raises on finding nothing, the call writes the intro
    excerpt followed by the outro excerpt and returns. *)
Theorem X2_empty_input (E : Env) (self : AudioAssembler) (output_dir : option Path)
    (music_audio first last : list float) :
  librosa_load E (music_path self) (sample_rate self) = Ok music_audio ->
  apply_volume E (bg_intro_volume self) (first_15s self music_audio) = Ok first ->
  apply_volume E (bg_outro_volume self) (last_15s self music_audio) = Ok last ->
  mkdir E (default (audio_dir self) output_dir) = Ok tt ->
  sf_write E (joinpath (default (audio_dir self) output_dir)
                (path_of_string (output_file self))) (first ++ last) (sample_rate self)
    = Ok tt ->
  let out := Assembled (joinpath (default (audio_dir self) output_dir)
                          (path_of_string (output_file self))) (first ++ last) in
  assemble E self (Some (FileList [])) output_dir = Ok out /\
  assemble E self (Some (FileDict [])) output_dir = Ok out.
Proof.
  intros Hm Hf Hl Hmk Hw out.
  assert (Hsegs : build_segments E self [] = Ok [first; last]).
  { unfold build_segments.
    rewrite (bind_of_Ok _ _ _ Hm), (bind_of_Ok _ _ _ Hf), (bind_of_Ok _ _ _ Hl).
    reflexivity. }
  assert (Hbody : forall arg, resolve_files E self (Some arg) = Ok [] ->
            assemble E self (Some arg) output_dir = Ok out).
  { intros arg Hres. unfold assemble, assemble_body.
    rewrite (bind_of_Ok _ _ _ Hres), (bind_of_Ok _ _ _ Hmk), (bind_of_Ok _ _ _ Hsegs).
    unfold Np.concatenate. rewrite (bind_of_Ok _ _ _ eq_refl).
    cbn [concat]. rewrite app_nil_r, (bind_of_Ok _ _ _ Hw). reflexivity. }
  split; apply Hbody; reflexivity.
Qed.

Lemma X2_empty_input_witness :
  assemble E_short (init cfg_w) (Some (FileList [])) None
  = Ok (Assembled (MkPath false ["output"; "podcast.wav"]) [0.25%float; 0.25%float]).
Proof.
  exact (proj1 (X2_empty_input E_short (init cfg_w) None [0.25%float]
                  [0.25%float] [0.25%float] eq_refl eq_refl eq_refl eq_refl eq_refl)).
Defined.

(** ** Sample accounting *)

Section Accounting.
Variable E : Env.

Lemma _fade_in_length self audio d v :
  _fade_in E self audio d = Ok v -> length v = length audio.
Proof.
  unfold _fade_in. intros H.
  apply bind_Ok in H as (n & _ & H). apply bind_Ok in H as (fade & _ & H).
  exact (imul_length _ _ _ _ _ H).
Qed.

Lemma _fade_out_length self audio d v :
  _fade_out E self audio d = Ok v -> length v = length audio.
Proof.
  unfold _fade_out. intros H.
  apply bind_Ok in H as (n & _ & H). apply bind_Ok in H as (fade & _ & H).
  exact (imul_length _ _ _ _ _ H).
Qed.

Lemma apply_fades_length self n i pre audio :
  apply_fades E self n i pre = Ok audio -> length audio = length pre.
Proof.
  unfold apply_fades. repeat case_decide.
  - apply _fade_in_length.
  - apply _fade_out_length.
  - intros [= <-]. reflexivity.
Qed.

Lemma samples_app l1 l2 : samples (l1 ++ l2) = (samples l1 + samples l2)%nat.
Proof. unfold samples. rewrite concat_app, length_app. reflexivity. Qed.

Lemma samples_cons a l : samples (a :: l) = (length a + samples l)%nat.
Proof. unfold samples. simpl. rewrite length_app. reflexivity. Qed.

Lemma samples_nil : samples [] = 0%nat.
Proof. reflexivity. Qed.

Lemma concatenate_Ok arrays final :
  Np.concatenate arrays = Ok final -> final = concat arrays.
Proof. destruct arrays; [discriminate|]. intros [= <-]. reflexivity. Qed.

Lemma loop_samples cfg n files : forall i acc segs,
  loop E (init cfg) n i files acc = Ok segs ->
  (i + length files = n)%nat ->
  exists pres,
    Forall2 (fun file pre => load_segment E (init cfg) file = Ok pre) files pres /\
    samples segs = (samples acc + samples pres + pause_samples files)%nat.
Proof.
  induction files as [|file rest IH]; intros i acc segs Hloop Hn.
  - injection Hloop as <-. exists []. split; [constructor|].
    unfold pause_samples. simpl. rewrite samples_nil. lia.
  - simpl in Hloop. apply bind_Ok in Hloop as (acc' & Hbody & Hloop).
    apply loop_body_Ok in Hbody as (pre & audio & gap & Hpre & Haudio & Hgap & ->).
    simpl in Hn.
    destruct (IH _ _ _ Hloop ltac:(lia)) as (pres & Hpres & Hsum).
    exists (pre :: pres). split; [constructor; assumption|].
    apply apply_fades_length in Haudio.
    rewrite Hsum, !samples_app, !samples_cons, samples_nil, Haudio.
    apply gap_after_Ok in Hgap as [[Hi ->] | (Hi & silence & Hsil & ->)].
    + assert (rest = []) as -> by (destruct rest; [reflexivity | simpl in Hn; lia]).
      unfold pause_samples. simpl. rewrite samples_nil. lia.
    + rewrite _create_silence_gap in Hsil. injection Hsil as <-.
      destruct rest as [|file' rest]; [simpl in Hn; lia|].
      unfold pause_samples. rewrite samples_cons, samples_nil, length_replicate.
      change (removelast (file :: file' :: rest))
        with (file :: removelast (file' :: rest)).
      rewrite fmap_cons. simpl sum_list. lia.
Qed.

End Accounting.

(** X3. The buffer a call writes has exactly as many samples as its parts:
    the (gained) intro excerpt, every segment as loaded (read, resampled,
    folded to mono, gained; the fades change no length), a pause of 36000,
    16800 or 24000 samples after every file but the last, and the (gained)
    outro excerpt. *)
Theorem X3_sample_accounting (E : Env) (cfg : PodcastConfig)
    (audio_files : option audio_files_arg) (output_dir : option Path) (out : assembled) :
  assemble E (init cfg) audio_files output_dir = Ok out ->
  exists files music_audio first last pres,
    resolve_files E (init cfg) audio_files = Ok files /\
    librosa_load E (music_path (init cfg)) (sample_rate (init cfg)) = Ok music_audio /\
    apply_volume E (bg_intro_volume (init cfg)) (first_15s (init cfg) music_audio) = Ok first /\
    apply_volume E (bg_outro_volume (init cfg)) (last_15s (init cfg) music_audio) = Ok last /\
    Forall2 (fun file pre => load_segment E (init cfg) file = Ok pre) files pres /\
    length (final_podcast out)
      = (length first + samples pres + pause_samples files + length last)%nat.
Proof.
  intros Hout.
  apply assemble_Ok, assemble_body_Ok in Hout as (files & segs & Hfiles & _ & Hsegs & Hcat & _).
  apply build_segments_Ok in Hsegs
    as (music_audio & first & last & body & Hm & Hf & Hl & Hloop & ->).
  destruct (loop_samples E cfg (length files) files 0 [first] body Hloop eq_refl)
    as (pres & Hpres & Hsum).
  exists files, music_audio, first, last, pres. repeat split; try assumption.
  apply concatenate_Ok in Hcat. rewrite Hcat.
  change (length (concat (body ++ [last]))) with (samples (body ++ [last])).
  rewrite samples_app, Hsum, !samples_cons, !samples_nil. lia.
Qed.

Lemma X3_sample_accounting_witness :
  exists out,
    assemble E_w (init cfg_w) (Some (FileList files_w)) None = Ok out /\
    exists files music_audio first last pres,
      resolve_files E_w (init cfg_w) (Some (FileList files_w)) = Ok files /\
      librosa_load E_w (music_path (init cfg_w)) (sample_rate (init cfg_w))
        = Ok music_audio /\
      apply_volume E_w (bg_intro_volume (init cfg_w)) (first_15s (init cfg_w) music_audio)
        = Ok first /\
      apply_volume E_w (bg_outro_volume (init cfg_w)) (last_15s (init cfg_w) music_audio)
        = Ok last /\
      Forall2 (fun file pre => load_segment E_w (init cfg_w) file = Ok pre) files pres /\
      length (final_podcast out)
        = (length first + samples pres + pause_samples files + length last)%nat.
Proof.
  destruct assembled_w as [out Hout].
  exists out. split; [exact Hout|].
  exact (X3_sample_accounting E_w cfg_w (Some (FileList files_w)) None out Hout).
Defined.

(** ** Fades of any duration *)

Section FadeWindows.
Variable E : Env.
Variable self : AudioAssembler.

Lemma imul_Ok_inv mul a s other v :
  Np.imul mul a s other = Ok v ->
  exists w, length w = length (Np.getitem a s) /\ v = Np.update a s w.
Proof.
  unfold Np.imul. repeat case_decide; intros [= <-]; eexists; (split; [|reflexivity]).
  - rewrite length_zip_with. lia.
  - apply length_fmap.
Qed.

Lemma linspace_Ok_inv start stop num l :
  Np.linspace start stop num = Ok l -> (0 <= num)%Z /\ length l = Z.to_nat num.
Proof.
  intros H. split; [|exact (linspace_length _ _ _ _ H)].
  unfold Np.linspace in H. destruct (Z.ltb_spec num 0); [discriminate | assumption].
Qed.

Lemma getitem_last_n_zero a : Np.getitem a (Np.last_n 0) = a.
Proof.
  unfold Np.getitem, Np.bounds, Np.last_n, Np.norm_index. simpl.
  rewrite Z.min_l, Nat.sub_0_r by lia. apply take_ge. lia.
Qed.

End FadeWindows.

(** X4. Whatever the duration and the sample rate, a fade that returns
    keeps the length of the clip; [_fade_in] leaves every sample from index
    [int(rate * duration)] on as it was, [_fade_out] (for a window of at
    least one sample) every sample before the last [int(rate * duration)]. *)
Theorem X4_fade_windows (E : Env) (self : AudioAssembler)
    (audio : list float) (duration_seconds : float) (v : list float) :
  (_fade_in E self audio duration_seconds = Ok v ->
   exists n,
     Py.int (Py.float_of_int (sample_rate self) * duration_seconds)%float = Ok n /\
     (0 <= n)%Z /\ length v = length audio /\
     forall k, (n <= Z.of_nat k)%Z -> v !! k = audio !! k) /\
  (_fade_out E self audio duration_seconds = Ok v ->
   exists n,
     Py.int (Py.float_of_int (sample_rate self) * duration_seconds)%float = Ok n /\
     (0 <= n)%Z /\ length v = length audio /\
     ((0 < n)%Z ->
      forall k, (Z.of_nat k + n < Z.of_nat (length audio))%Z -> v !! k = audio !! k)).
Proof.
  split; intros H.
  - pose proof (_fade_in_length E self audio _ v H) as Hlen.
    unfold _fade_in in H.
    apply bind_Ok in H as (n & Hn & H). apply bind_Ok in H as (fade & Hfade & H).
    apply linspace_Ok_inv in Hfade as [Hpos _].
    apply imul_Ok_inv in H as (w & Hw & ->).
    exists n. repeat split; try assumption.
    intros k Hk. rewrite getitem_upto, length_take in Hw by assumption.
    rewrite update_upto, lookup_app_r by lia.
    rewrite lookup_drop. f_equal. lia.
  - pose proof (_fade_out_length E self audio _ v H) as Hlen.
    unfold _fade_out in H.
    apply bind_Ok in H as (n & Hn & H). apply bind_Ok in H as (fade & Hfade & H).
    apply linspace_Ok_inv in Hfade as [Hpos _].
    apply imul_Ok_inv in H as (w & Hw & ->).
    exists n. repeat split; try assumption.
    intros Hn0 k Hk. rewrite update_last_n by assumption.
    rewrite lookup_app_l by (rewrite length_take; lia).
    apply lookup_take_lt. lia.
Qed.

Lemma X4_fade_windows_witness :
  exists n,
    Py.int (Py.float_of_int (sample_rate (init cfg_w)) * 0.0001)%float = Ok n /\
    (0 <= n)%Z /\ length [0; 1; 1]%float = length [1; 1; 1]%float /\
    forall k, (n <= Z.of_nat k)%Z -> [0; 1; 1]%float !! k = [1; 1; 1]%float !! k.
Proof.
  exact (proj1 (X4_fade_windows E_w (init cfg_w) [1; 1; 1]%float 0.0001%float
                  [0; 1; 1]%float) eq_refl).
Defined.

(** X5. A duration that truncates to zero samples treats the two fades
    differently: [_fade_in] returns the clip unchanged, while [_fade_out]
    raises numpy's shape-mismatch [ValueError] on every non-empty clip,
    because [a[-0:]] is the whole array and not its empty tail. *)
Theorem X5_zero_length_fade (E : Env) (self : AudioAssembler)
    (audio : list float) (duration_seconds : float) :
  Py.int (Py.float_of_int (sample_rate self) * duration_seconds)%float = Ok 0%Z ->
  _fade_in E self audio duration_seconds = Ok audio /\
  (audio ≠ [] ->
   exists msg, _fade_out E self audio duration_seconds = Raise (Exn ValueError msg)) /\
  (audio = [] -> _fade_out E self audio duration_seconds = Ok []).
Proof.
  intros Hn.
  assert (Hin : Np.linspace 0 1 0 = Ok []) by reflexivity.
  assert (Hout : Np.linspace 1 0 0 = Ok []) by reflexivity.
  split; [|split].
  - unfold _fade_in. rewrite (bind_of_Ok _ _ _ Hn), (bind_of_Ok _ _ _ Hin).
    cbv zeta. rewrite imul_same by (rewrite getitem_upto by lia; reflexivity).
    rewrite update_upto, getitem_upto by lia. reflexivity.
  - intros Hne. unfold _fade_out.
    rewrite (bind_of_Ok _ _ _ Hn), (bind_of_Ok _ _ _ Hout). cbv zeta.
    apply imul_mismatch; rewrite ?getitem_last_n_zero; simpl; [|lia].
    destruct audio; [congruence | simpl; lia].
  - intros ->. unfold _fade_out.
    rewrite (bind_of_Ok _ _ _ Hn), (bind_of_Ok _ _ _ Hout). reflexivity.
Qed.

Lemma X5_zero_length_fade_witness :
  _fade_in E_w (init cfg_w) [1; 1]%float 0%float = Ok [1; 1]%float /\
  exists msg, _fade_out E_w (init cfg_w) [1; 1]%float 0%float = Raise (Exn ValueError msg).
Proof.
  destruct (X5_zero_length_fade E_w (init cfg_w) [1; 1]%float 0%float eq_refl)
    as (Hin & Hout & _).
  split; [exact Hin | apply Hout; discriminate].
Defined.

(** ** Gain and fade on shared arrays *)

Lemma M_bind_unfold {A B} (m : Store.M A) (k : A -> Store.M B) (h : list (list float)) :
  (m ≫= k) h
  = match m h with
    | (h', Ok a) => k a h'
    | (h', Raise e) => (h', Raise e)
    end.
Proof. reflexivity. Qed.

(** X6. A gain followed by a fade-in never writes into the array it was
    given, although a gain of 0 dB hands that very array on to the fade:
    the fade copies first.  The array and every other existing one keep
    their samples, and the result is a new array holding the fade of the
    gained samples; the calls raise exactly when that computation raises. *)
Theorem X6_gain_then_fade_in (E : Env) (self : AudioAssembler)
    (audio : Store.loc) (db_change duration_seconds : float)
    (h : list (list float)) (buf : list float) :
  h !! audio = Some buf ->
  fade_frame audio buf h
    (_adjust_volume E buf db_change ≫= fun a => _fade_in E self a duration_seconds)
    (gain_then_fade_in E self audio db_change duration_seconds h).
Proof.
  intros Hbuf. pose proof (lookup_lt_Some _ _ _ Hbuf) as Hlt.
  unfold gain_then_fade_in. rewrite M_bind_unfold.
  rewrite (store_adjust_volume E audio db_change h buf Hbuf).
  destruct (db_change =? 0)%float eqn:Hdb.
  - unfold _adjust_volume. rewrite Hdb.
    apply (fade_frame_in E self audio duration_seconds h buf Hbuf).
  - unfold _adjust_volume. rewrite Hdb.
    destruct (pow E 10 (db_change / 20)%float) as [factor|e]; simpl.
    2:{ repeat split; [assumption | apply take_ge; lia]. }
    set (gained := (fun x => npmul E x factor) <$> buf).
    pose proof (fade_frame_in E self (length h) duration_seconds (h ++ [gained]) gained
                  (lookup_fresh h gained)) as Hframe.
    unfold fade_frame in *.
    destruct (Store._fade_in E self (length h) duration_seconds (h ++ [gained]))
      as [h' r].
    destruct Hframe as (Hg & Htake & Hr).
    assert (Hh : take (length h) h' = h).
    { rewrite <- (take_app_length h [gained]) at 2. rewrite <- Htake.
      rewrite take_take. f_equal. rewrite length_app. simpl. lia. }
    split; [|split; [exact Hh|]].
    + transitivity (take (length h) h' !! audio);
        [symmetry; apply lookup_take_lt; exact Hlt | rewrite Hh; exact Hbuf].
    + destruct r as [out|e]; [|exact Hr].
      destruct Hr as (Hne & Hnone & v & Hv & Hout).
      apply lookup_ge_None in Hnone. rewrite length_app in Hnone. simpl in Hnone.
      repeat split.
      * lia.
      * apply lookup_ge_None. lia.
      * exists v. split; assumption.
Qed.

Lemma X6_gain_then_fade_in_witness :
  fade_frame 0 [1; 1; 1]%float [[1; 1; 1]%float]
    (_adjust_volume E_w [1; 1; 1]%float 0%float
       ≫= fun a => _fade_in E_w (init cfg_w) a 0.0001%float)
    (gain_then_fade_in E_w (init cfg_w) 0 0%float 0.0001%float [[1; 1; 1]%float]).
Proof.
  exact (X6_gain_then_fade_in E_w (init cfg_w) 0%nat 0%float 0.0001%float
           [[1; 1; 1]%float] [1; 1; 1]%float eq_refl).
Defined.
(** ** Strings: append, comparison, decimal digits *)

Section StringFacts.

Lemma append_cons c s t : String c s +:+ t = String c (s +:+ t).
Proof. reflexivity. Qed.

Lemma append_nil_l t : "" +:+ t = t.
Proof. reflexivity. Qed.

Lemma append_nil_r s : s +:+ "" = s.
Proof. induction s as [|c s IH]; [reflexivity|]. rewrite append_cons, IH. reflexivity. Qed.

Lemma append_assoc s1 s2 s3 : (s1 +:+ s2) +:+ s3 = s1 +:+ (s2 +:+ s3).
Proof.
  induction s1 as [|c s1 IH]; [reflexivity|].
  rewrite !append_cons, IH. reflexivity.
Qed.

Lemma prefix_cons a s1 b s2 :
  String.prefix (String a s1) (String b s2)
  = if ascii_dec a b then String.prefix s1 s2 else false.
Proof. reflexivity. Qed.

Lemma compare_app p a b :
  String.compare (p +:+ a) (p +:+ b) = String.compare a b.
Proof.
  induction p as [|c p IH]; [reflexivity|].
  rewrite !append_cons. simpl. unfold Ascii.compare.
  rewrite N.compare_refl. exact IH.
Qed.

Lemma compare_lt_leb a b : String.compare a b = Lt -> String.leb a b = true.
Proof. unfold String.leb. intros ->. reflexivity. Qed.

Lemma compare_lt_not_leb a b : String.compare a b = Lt -> String.leb b a = false.
Proof.
  unfold String.leb. intros H. rewrite String.compare_antisym, H. reflexivity.
Qed.

Lemma compare_head_lt c1 c2 s1 s2 :
  (N_of_ascii c1 < N_of_ascii c2)%N ->
  String.compare (String c1 s1) (String c2 s2) = Lt.
Proof.
  intros H. simpl. unfold Ascii.compare.
  apply N.compare_lt_iff in H. rewrite H. reflexivity.
Qed.

Lemma all_digits_app a b : all_digits (a +:+ b) = all_digits a && all_digits b.
Proof.
  induction a as [|c a IH]; [reflexivity|].
  rewrite append_cons. simpl. rewrite IH, andb_assoc. reflexivity.
Qed.

Lemma no_slash_app a b : no_slash (a +:+ b) = no_slash a && no_slash b.
Proof.
  induction a as [|c a IH]; [reflexivity|].
  rewrite append_cons. simpl. rewrite IH, andb_assoc. reflexivity.
Qed.

Lemma is_digit_not_slash c : is_digit c = true -> Ascii.eqb c "/"%char = false.
Proof.
  intros H. destruct (Ascii.eqb_spec c "/"%char) as [->|]; [discriminate H|reflexivity].
Qed.

Lemma all_digits_no_slash s : all_digits s = true -> no_slash s = true.
Proof.
  induction s as [|c s IH]; [reflexivity|]. simpl.
  intros [Hc Hs]%andb_prop. rewrite (is_digit_not_slash c Hc), IH by exact Hs.
  reflexivity.
Qed.

Lemma pretty_N_char_code x : (x < 10)%N -> N_of_ascii (pretty_N_char x) = (48 + x)%N.
Proof.
  intros H.
  assert (x = 0 \/ x = 1 \/ x = 2 \/ x = 3 \/ x = 4 \/ x = 5 \/ x = 6 \/ x = 7
          \/ x = 8 \/ x = 9)%N as Hx by lia.
  repeat (destruct Hx as [->|Hx]; [reflexivity|]). subst x. reflexivity.
Qed.

Lemma pretty_N_char_digit x : is_digit (pretty_N_char x) = true.
Proof.
  destruct (decide (x < 10)%N) as [H|H].
  - unfold is_digit. rewrite pretty_N_char_code by exact H.
    apply andb_true_intro. split; apply N.leb_le; lia.
  - unfold pretty_N_char. repeat case_match; try reflexivity; lia.
Qed.

Lemma pretty_N_go_digits x : forall s,
  exists ds, pretty_N_go x s = ds +:+ s /\ all_digits ds = true
             /\ ((0 < x)%N -> ds <> "").
Proof.
  induction (N.lt_wf_0 x) as [x _ IH]. intros s.
  destruct (decide (x = 0)%N) as [->|Hx].
  - exists "". rewrite pretty_N_go_0. split; [reflexivity|]. split; [reflexivity|]. lia.
  - rewrite pretty_N_go_step by lia.
    destruct (IH (x `div` 10)%N) with (s := String (pretty_N_char (x `mod` 10)) s)
      as (ds & Hgo & Hds & _).
    { apply N.div_lt; lia. }
    exists (ds +:+ String (pretty_N_char (x `mod` 10)) "").
    rewrite Hgo, append_assoc, append_cons, append_nil_l.
    split; [reflexivity|]. split.
    + rewrite all_digits_app, Hds. simpl. rewrite pretty_N_char_digit. reflexivity.
    + intros _. destruct ds; discriminate.
Qed.

Lemma pretty_N_digits (x : N) : all_digits (pretty x) = true /\ pretty x <> "".
Proof.
  unfold pretty, pretty_N. case_decide as Hx; [split; [reflexivity|discriminate]|].
  destruct (pretty_N_go_digits x "") as (ds & -> & Hds & Hne).
  rewrite append_nil_r. split; [exact Hds|]. apply Hne. lia.
Qed.

Lemma pretty_nat_digits (n : nat) : all_digits (pretty n) = true.
Proof. apply (pretty_N_digits (N.of_nat n)). Qed.

Lemma pretty_nat_nonempty (n : nat) : pretty n <> "".
Proof. apply (pretty_N_digits (N.of_nat n)). Qed.

Lemma pretty_small (j : nat) :
  j < 10 -> pretty j = String (pretty_N_char (N.of_nat j)) "".
Proof.
  intros H. unfold pretty, pretty_nat, pretty, pretty_N.
  case_decide as Hj; [rewrite Hj; reflexivity|].
  rewrite pretty_N_go_step by lia.
  rewrite N.div_small, N.mod_small by lia. apply pretty_N_go_0.
Qed.

Lemma pretty_two_digits (i : nat) :
  10 <= i < 100 ->
  pretty i = String (pretty_N_char (N.of_nat i `div` 10))
               (String (pretty_N_char (N.of_nat i `mod` 10)) "").
Proof.
  intros H. unfold pretty, pretty_nat, pretty, pretty_N.
  case_decide as Hi; [lia|].
  rewrite pretty_N_go_step by lia.
  rewrite pretty_N_go_step by (apply N.div_str_pos; lia).
  rewrite (N.div_small (N.of_nat i `div` 10)), (N.mod_small (N.of_nat i `div` 10))
    by (apply N.Div0.div_lt_upper_bound; lia).
  apply pretty_N_go_0.
Qed.

Lemma fmt_02d_small (i : nat) :
  i < 100 ->
  Gen.fmt_02d i = String (pretty_N_char (N.of_nat i `div` 10))
                    (String (pretty_N_char (N.of_nat i `mod` 10)) "").
Proof.
  intros H. unfold Gen.fmt_02d. destruct (Nat.ltb_spec i 10) as [Hi|Hi].
  - rewrite pretty_small by exact Hi.
    rewrite N.div_small, N.mod_small by lia. reflexivity.
  - apply pretty_two_digits. lia.
Qed.

Lemma fmt_02d_digits i : all_digits (Gen.fmt_02d i) = true.
Proof.
  unfold Gen.fmt_02d. destruct (i <? 10)%nat; [|apply pretty_nat_digits].
  rewrite append_cons, append_nil_l. simpl. apply pretty_nat_digits.
Qed.

Lemma fmt_02d_nonempty i : Gen.fmt_02d i <> "".
Proof.
  unfold Gen.fmt_02d. destruct (i <? 10)%nat; [discriminate|apply pretty_nat_nonempty].
Qed.

(** Two strings that agree up to their first non-digit split alike. *)
Lemma digits_split a : forall a' c c' r r',
  all_digits a = true -> all_digits a' = true ->
  is_digit c = false -> is_digit c' = false ->
  a +:+ String c r = a' +:+ String c' r' -> a = a' /\ c = c' /\ r = r'.
Proof.
  induction a as [|x a IH]; intros [|x' a'] c c' r r' Ha Ha' Hc Hc';
    rewrite ?append_cons, ?append_nil_l; intros Heq.
  - injection Heq as -> ->. auto.
  - injection Heq as -> _. simpl in Ha'. rewrite Hc in Ha'. discriminate.
  - injection Heq as -> _. simpl in Ha. rewrite Hc' in Ha. discriminate.
  - injection Heq as -> Heq. simpl in Ha, Ha'.
    apply andb_prop in Ha as [_ Ha]. apply andb_prop in Ha' as [_ Ha'].
    destruct (IH a' c c' r r' Ha Ha' Hc Hc' Heq) as (-> & -> & ->). auto.
Qed.

Lemma digits_not_split a a' c r :
  all_digits a = true -> is_digit c = false -> a <> a' +:+ String c r.
Proof.
  intros Ha Hc ->. rewrite all_digits_app in Ha. simpl in Ha.
  rewrite Hc, andb_false_r in Ha. discriminate.
Qed.

Lemma split_slash_no_slash s : forall cur,
  no_slash s = true -> split_slash cur s = [cur +:+ s].
Proof.
  induction s as [|c s IH]; intros cur H; simpl.
  - rewrite append_nil_r. reflexivity.
  - simpl in H. apply andb_prop in H as [Hc Hs].
    apply negb_true_iff in Hc. rewrite Hc, IH by exact Hs.
    rewrite append_assoc. reflexivity.
Qed.

Lemma name_in_output_dir (self : Gen.AudioGenerator) (f : string) :
  no_slash f = true -> f <> "" -> f <> "." ->
  name (Gen.in_output_dir self f) = f.
Proof.
  intros Hs He Hd. unfold Gen.in_output_dir, path_of_string.
  rewrite split_slash_no_slash, append_nil_l by exact Hs.
  assert (String.prefix "/" f = false) as ->.
  { destruct f as [|c f]; [reflexivity|]. simpl in Hs.
    apply andb_prop in Hs as [Hc _]. apply negb_true_iff in Hc.
    rewrite prefix_cons.
    destruct (ascii_dec "/" c) as [<-|]; [discriminate Hc|reflexivity]. }
  assert (keep_part f = true) as Hk.
  { unfold keep_part. apply negb_true_iff, orb_false_intro; apply String.eqb_neq; assumption. }
  rewrite filter_cons_True, filter_nil by exact Hk.
  unfold joinpath, name. simpl. rewrite last_snoc. reflexivity.
Qed.

End StringFacts.
(** ** The audio generator: one text *)

Section OneText.
Variable E : Env.
Variable K : Gen.Kokoro.
Variable self : Gen.AudioGenerator.

Lemma pause_Ok :
  (n ← Py.int (Py.float_of_int 24000 * 0.3)%float; Np.zeros n)
  = Ok (replicate (Z.to_nat 7200) 0%float).
Proof. reflexivity. Qed.

Lemma collect_Ok n items : forall i audio_chunks,
  n = (i + length items)%nat ->
  Gen.collect n i items audio_chunks = Ok (audio_chunks ++ pauses_between items).
Proof.
  induction items as [|audio rest IH]; intros i audio_chunks Hn.
  - simpl. rewrite app_nil_r. reflexivity.
  - cbn [Gen.collect]. rewrite pause_Ok. destruct rest as [|audio' rest].
    + destruct (Z.ltb_spec (Z.of_nat i) (Z.of_nat n - 1)) as [Hlt|_].
      { simpl in Hn. lia. }
      reflexivity.
    + destruct (Z.ltb_spec (Z.of_nat i) (Z.of_nat n - 1)) as [_|Hge].
      2:{ simpl in Hn. lia. }
      change (Gen.collect n (S i) (audio' :: rest)
                ((audio_chunks ++ [audio]) ++ [replicate (Z.to_nat 7200) 0%float])
              = Ok (audio_chunks ++ pauses_between (audio :: audio' :: rest))).
      rewrite IH by (simpl in Hn |- *; lia).
      rewrite <- !app_assoc. reflexivity.
Qed.

Lemma pauses_between_nil chunks : pauses_between chunks = [] -> chunks = [].
Proof. destruct chunks as [|a [|b l]]; [reflexivity|discriminate..]. Qed.

Lemma with_pauses_length chunks :
  length (with_pauses chunks)
  = (samples chunks + Z.to_nat 7200 * (length chunks - 1))%nat.
Proof.
  unfold with_pauses, samples.
  induction chunks as [|a [|b l] IH]; [reflexivity| |].
  - simpl. lia.
  - change (pauses_between (a :: b :: l))
      with (a :: replicate (Z.to_nat 7200) 0%float :: pauses_between (b :: l)).
    rewrite (concat_cons a (_ :: pauses_between _)), (concat_cons (replicate _ _)).
    rewrite !length_app, IH, length_replicate.
    rewrite (concat_cons a (b :: l)), length_app.
    change (length (a :: b :: l)) with (S (S (length l))).
    change (length (b :: l)) with (S (length l)). lia.
Qed.

Lemma speak_and_write_unfold text output_path voice d :
  Gen.speak_and_write E K text output_path voice d
  = match Gen.speak K text voice with
    | Ok chunks =>
        match chunks with
        | [] => (d, Ok tt)
        | _ => Gen.write E output_path (with_pauses chunks) d
        end
    | Raise e => (d, Raise e)
    end.
Proof.
  unfold Gen.speak_and_write, mbind, Gen.M_bind, Gen.bind, Gen.lift.
  destruct (Gen.speak K text voice) as [chunks|e]; [|reflexivity].
  rewrite collect_Ok by reflexivity. rewrite app_nil_l.
  destruct chunks as [|a l]; [reflexivity|].
  destruct (pauses_between (a :: l)) as [|b l'] eqn:Hp.
  { apply pauses_between_nil in Hp. discriminate. }
  unfold with_pauses. rewrite Hp. reflexivity.
Qed.

End OneText.
(** ** Dicts *)

Section DictFacts.
Context {V : Type}.
Implicit Types d entries : list (string * V).

Lemma set_fresh d k v : k ∉ d.*1 -> Dict.set d k v = d ++ [(k, v)].
Proof.
  induction d as [|[k' v'] d IH]; intros Hk; [reflexivity|].
  rewrite fmap_cons, not_elem_of_cons in Hk. destruct Hk as [Hne Hk].
  simpl. destruct (String.eqb_spec k' k) as [->|_]; [done|].
  rewrite IH by exact Hk. reflexivity.
Qed.

Lemma dict_update_app d entries1 entries2 :
  dict_update d (entries1 ++ entries2)
  = dict_update (dict_update d entries1) entries2.
Proof. apply foldl_app. Qed.

Lemma dict_update_fresh entries : forall d,
  NoDup (d.*1 ++ entries.*1) -> dict_update d entries = d ++ entries.
Proof.
  induction entries as [|[k v] entries IH]; intros d Hd.
  - simpl. rewrite app_nil_r. reflexivity.
  - unfold dict_update. cbn [foldl fst snd]. fold (dict_update (Dict.set d k v) entries).
    rewrite fmap_cons in Hd. cbn [fst] in Hd.
    assert (k ∉ d.*1) as Hk.
    { apply NoDup_app in Hd as (_ & Hd & _). intros Hin.
      apply (Hd k Hin). left. }
    rewrite set_fresh by exact Hk. rewrite IH.
    + rewrite <- app_assoc. reflexivity.
    + rewrite fmap_app, <- app_assoc. exact Hd.
Qed.

End DictFacts.

(** ** The segments of a podcast *)

Section SegmentFacts.

Lemma exchange_segments_elem s exchanges : forall i j,
  s ∈ exchange_segments i j exchanges ->
  exists j' speaker, s = Spoken i j' speaker /\ j <= j' < j + length exchanges.
Proof.
  induction exchanges as [|exchange rest IH]; intros i j Hs; simpl in Hs.
  - inversion Hs.
  - apply elem_of_cons in Hs as [->|Hs].
    + eexists _, _. split; [reflexivity|]. simpl. lia.
    + destruct (IH _ _ Hs) as (j' & speaker & -> & Hj).
      eexists _, _. split; [reflexivity|]. simpl. lia.
Qed.

Lemma topic_segments_elem s topics : forall i,
  s ∈ topic_segments i topics ->
  exists i', i <= i' < i + length topics /\
    (s = Announcement i' \/ exists j' speaker, s = Spoken i' j' speaker /\ 1 <= j').
Proof.
  induction topics as [|topic rest IH]; intros i Hs; simpl in Hs.
  - inversion Hs.
  - apply elem_of_cons in Hs as [->|Hs].
    { exists i. split; [simpl; lia|]. left. reflexivity. }
    apply elem_of_app in Hs as [Hs|Hs].
    + apply exchange_segments_elem in Hs as (j' & speaker & -> & Hj).
      exists i. split; [simpl; lia|]. right. eexists _, _. split; [reflexivity|lia].
    + destruct (IH _ Hs) as (i' & Hi & Hs').
      exists i'. split; [simpl; lia|exact Hs'].
Qed.

Lemma exchange_segments_sorted exchanges : forall i j,
  StronglySorted before (exchange_segments i j exchanges).
Proof.
  induction exchanges as [|exchange rest IH]; intros i j; simpl.
  - constructor.
  - constructor; [apply IH|].
    apply Forall_forall. intros s Hs.
    apply exchange_segments_elem in Hs as (j' & speaker & -> & Hj).
    simpl. right. lia.
Qed.

Lemma topic_segments_sorted topics : forall i,
  StronglySorted before (topic_segments i topics).
Proof.
  induction topics as [|topic rest IH]; intros i; simpl.
  - constructor.
  - constructor.
    + apply StronglySorted_app. split; [|split].
      * intros s1 s2 Hs1 Hs2.
        apply exchange_segments_elem in Hs1 as (j' & speaker & -> & Hj).
        apply topic_segments_elem in Hs2 as (i' & Hi & [->|(j2 & sp2 & -> & _)]);
          simpl; lia.
      * apply exchange_segments_sorted.
      * apply IH.
    + apply Forall_forall. intros s Hs.
      apply elem_of_app in Hs as [Hs|Hs].
      * apply exchange_segments_elem in Hs as (j' & speaker & -> & Hj). simpl. lia.
      * apply topic_segments_elem in Hs as (i' & Hi & [->|(j2 & sp2 & -> & _)]);
          simpl; lia.
Qed.

Lemma segments_sorted podcast : StronglySorted before (segments podcast).
Proof.
  unfold segments. constructor.
  - apply StronglySorted_app. split; [|split].
    + intros s1 s2 Hs1 Hs2. apply list_elem_of_singleton in Hs2 as ->.
      apply topic_segments_elem in Hs1 as (i' & Hi & [->|(j2 & sp2 & -> & _)]);
        exact I.
    + apply topic_segments_sorted.
    + repeat constructor.
  - apply Forall_forall. intros s Hs.
    apply elem_of_app in Hs as [Hs|Hs].
    + apply topic_segments_elem in Hs as (i' & Hi & [->|(j2 & sp2 & -> & _)]);
        exact I.
    + apply list_elem_of_singleton in Hs as ->. exact I.
Qed.

Lemma exchange_segments_in_range exchanges : forall i j,
  1 <= i <= 99 -> 1 <= j -> j + length exchanges <= 10 ->
  Forall in_range (exchange_segments i j exchanges).
Proof.
  intros i j Hi Hj Hlen. apply Forall_forall. intros s Hs.
  apply exchange_segments_elem in Hs as (j' & speaker & -> & Hj'). simpl. lia.
Qed.

Lemma topic_segments_in_range topics : forall i,
  1 <= i -> i + length topics <= 100 ->
  Forall (fun topic => length (Topic.exchanges topic) <= 9) topics ->
  Forall in_range (topic_segments i topics).
Proof.
  induction topics as [|topic rest IH]; intros i Hi Hlen Hex; simpl.
  - constructor.
  - simpl in Hlen. inversion Hex as [|? ? Hx Hrest]; subst.
    constructor; [simpl; lia|].
    apply Forall_app. split.
    + apply exchange_segments_in_range; lia.
    + apply IH; [lia|lia|exact Hrest].
Qed.

Lemma segments_in_range podcast : small podcast -> Forall in_range (segments podcast).
Proof.
  intros [Hlen Hex]. unfold segments. constructor; [exact I|].
  apply Forall_app. split.
  - apply topic_segments_in_range; [lia|lia|exact Hex].
  - repeat constructor.
Qed.

Lemma topic_segments_app topics1 topics2 : forall i,
  topic_segments i (topics1 ++ topics2)
  = topic_segments i topics1 ++ topic_segments (i + length topics1) topics2.
Proof.
  induction topics1 as [|topic rest IH]; intros i; simpl.
  - rewrite Nat.add_0_r. reflexivity.
  - rewrite IH, <- app_assoc.
    replace (S i + length rest) with (i + S (length rest)) by lia. reflexivity.
Qed.

End SegmentFacts.
(** ** Keys and file names of the segments *)

Section NameFacts.
Variable K : Gen.Kokoro.

Lemma before_key_ne a b : before a b -> segment_key a <> segment_key b.
Proof.
  destruct a as [|i|i j sp|], b as [|i'|i' j' sp'|]; simpl; intros Hb Heq;
    try contradiction; try discriminate Heq.
  - apply String.app_inj, (inj pretty) in Heq. lia.
  - apply String.app_inj in Heq.
    exact (digits_not_split (pretty i) (pretty i') "_"%char ("exchange_" +:+ pretty j')
             (pretty_nat_digits i) eq_refl Heq).
  - apply String.app_inj in Heq. symmetry in Heq.
    exact (digits_not_split (pretty i') (pretty i) "_"%char ("exchange_" +:+ pretty j)
             (pretty_nat_digits i') eq_refl Heq).
  - apply String.app_inj in Heq.
    destruct (digits_split (pretty i) (pretty i') "_"%char "_"%char
                ("exchange_" +:+ pretty j) ("exchange_" +:+ pretty j')
                (pretty_nat_digits i) (pretty_nat_digits i') eq_refl eq_refl Heq)
      as (Hi & _ & Hj).
    apply (inj pretty) in Hi. apply String.app_inj, (inj pretty) in Hj. lia.
Qed.

Lemma segments_keys_NoDup podcast : NoDup (segment_key <$> segments podcast).
Proof.
  generalize (segments_sorted podcast).
  induction 1 as [|s l Hl IH Hs]; [constructor|].
  rewrite fmap_cons. constructor; [|exact IH].
  intros (s' & Heq & Hin)%list_elem_of_fmap.
  rewrite Forall_forall in Hs. exact (before_key_ne s s' (Hs s' Hin) Heq).
Qed.

Lemma digit_char_lt x y s1 s2 :
  (x < y < 10)%N ->
  String.compare (String (pretty_N_char x) s1) (String (pretty_N_char y) s2) = Lt.
Proof.
  intros H. apply compare_head_lt. rewrite !pretty_N_char_code by lia. lia.
Qed.

Lemma fmt_02d_lt i i' x y :
  i < i' < 100 ->
  String.compare (Gen.fmt_02d i +:+ x) (Gen.fmt_02d i' +:+ y) = Lt.
Proof.
  intros H. rewrite !fmt_02d_small by lia. rewrite !append_cons.
  assert (N.of_nat i `div` 10 < N.of_nat i' `div` 10 \/
          (N.of_nat i `div` 10 = N.of_nat i' `div` 10 /\
           N.of_nat i `mod` 10 < N.of_nat i' `mod` 10))%N as [Ht|[Ht Hu]].
  { pose proof (N.div_mod (N.of_nat i) 10 ltac:(lia)).
    pose proof (N.div_mod (N.of_nat i') 10 ltac:(lia)).
    pose proof (N.mod_lt (N.of_nat i) 10 ltac:(lia)).
    pose proof (N.mod_lt (N.of_nat i') 10 ltac:(lia)).
    assert (N.of_nat i < N.of_nat i')%N by lia.
    generalize dependent (N.of_nat i `div` 10)%N.
    generalize dependent (N.of_nat i `mod` 10)%N.
    generalize dependent (N.of_nat i' `div` 10)%N.
    generalize dependent (N.of_nat i' `mod` 10)%N.
    intros. lia. }
  - apply digit_char_lt. split; [exact Ht|]. apply N.Div0.div_lt_upper_bound. lia.
  - rewrite Ht. cbn [String.compare]. unfold Ascii.compare at 1.
    rewrite N.compare_refl. apply digit_char_lt.
    split; [exact Hu|]. apply N.mod_lt. lia.
Qed.

Lemma pretty_lt j j' x y :
  j < j' < 10 -> String.compare (pretty j +:+ x) (pretty j' +:+ y) = Lt.
Proof.
  intros H. rewrite !pretty_small by lia. rewrite !append_cons.
  apply digit_char_lt. lia.
Qed.

(** Within the range, files generated earlier have the smaller names. *)
Lemma before_file_lt a b :
  in_range a -> in_range b -> before a b ->
  String.compare (segment_file K a) (segment_file K b) = Lt.
Proof.
  destruct a as [|i|i j sp|], b as [|i'|i' j' sp'|]; simpl; intros Ha Hb Hab;
    try contradiction.
  - apply (fmt_02d_lt 0 i' "_intro.wav"). lia.
  - apply (fmt_02d_lt 0 i' "_intro.wav"). lia.
  - reflexivity.
  - apply fmt_02d_lt. lia.
  - destruct (decide (i = i')) as [<-|Hne]; [|apply fmt_02d_lt; lia].
    unfold Gen.topic_name, Gen.exchange_name.
    rewrite compare_app.
    set (rest := "_speaker_" +:+ Gen.lower K sp' +:+ ".wav").
    transitivity (String.compare "0_topic.wav" (pretty j' +:+ rest));
      [exact (compare_app "_" "0_topic.wav" (pretty j' +:+ rest))|].
    rewrite pretty_small by lia. apply (digit_char_lt 0). lia.
  - unfold Gen.topic_name. destruct (decide (i = 99)) as [->|Hne].
    + transitivity (String.compare "_0_topic.wav" "_outro.wav"); [|reflexivity].
      exact (compare_app (Gen.fmt_02d 99) "_0_topic.wav" "_outro.wav").
    + apply (fmt_02d_lt i 99 _ "_outro.wav"). lia.
  - apply fmt_02d_lt. lia.
  - unfold Gen.exchange_name. destruct Hab as [Hlt|[<- Hlt]]; [apply fmt_02d_lt; lia|].
    rewrite compare_app.
    set (rest := "_speaker_" +:+ Gen.lower K sp +:+ ".wav").
    set (rest' := "_speaker_" +:+ Gen.lower K sp' +:+ ".wav").
    transitivity (String.compare (pretty j +:+ rest) (pretty j' +:+ rest'));
      [exact (compare_app "_" (pretty j +:+ rest) (pretty j' +:+ rest'))|].
    apply pretty_lt. lia.
  - unfold Gen.exchange_name. destruct (decide (i = 99)) as [->|Hne].
    + set (rest := "_speaker_" +:+ Gen.lower K sp +:+ ".wav").
      transitivity (String.compare ("_" +:+ pretty j +:+ rest) "_outro.wav");
        [exact (compare_app (Gen.fmt_02d 99) ("_" +:+ pretty j +:+ rest) "_outro.wav")|].
      transitivity (String.compare (pretty j +:+ rest) "outro.wav");
        [exact (compare_app "_" (pretty j +:+ rest) "outro.wav")|].
      rewrite pretty_small by lia. apply compare_head_lt.
      rewrite pretty_N_char_code by lia. change (N_of_ascii "o") with 111%N. lia.
    + apply (fmt_02d_lt i 99 _ "_outro.wav"). lia.
Qed.

Lemma segment_file_name (self : Gen.AudioGenerator) s :
  match s with Spoken _ _ speaker => no_slash (Gen.lower K speaker) = true | _ => True end ->
  name (Gen.in_output_dir self (segment_file K s)) = segment_file K s.
Proof.
  intros Hs.
  assert (forall i rest, no_slash rest = true ->
            name (Gen.in_output_dir self (Gen.fmt_02d i +:+ String "_" rest))
            = Gen.fmt_02d i +:+ String "_" rest) as Hfmt.
  { intros i rest Hrest. apply name_in_output_dir.
    - rewrite no_slash_app, (all_digits_no_slash _ (fmt_02d_digits i)). simpl. exact Hrest.
    - pose proof (fmt_02d_nonempty i). destruct (Gen.fmt_02d i); [done|discriminate].
    - pose proof (fmt_02d_nonempty i).
      destruct (Gen.fmt_02d i) as [|c [|c' f]]; [done| |]; discriminate. }
  destruct s as [|i|i j sp|]; simpl.
  - apply name_in_output_dir; [reflexivity|discriminate..].
  - apply (Hfmt i "0_topic.wav"). reflexivity.
  - apply (Hfmt i (pretty j +:+ "_speaker_" +:+ Gen.lower K sp +:+ ".wav")).
    rewrite !no_slash_app, (all_digits_no_slash _ (pretty_nat_digits j)), Hs.
    reflexivity.
  - apply name_in_output_dir; [reflexivity|discriminate..].
Qed.

End NameFacts.
(** ** The audio generator: a whole podcast *)

Section GenerateFacts.
Variable E : Env.
Variable K : Gen.Kokoro.
Variable self : Gen.AudioGenerator.

Lemma _generate_audio_for_text_unfold text output_path voice d :
  Gen._generate_audio_for_text E K self text output_path voice d
  = match Gen.speak K text voice with
    | Ok [] => (d, Ok tt)
    | Ok chunks =>
        match sf_write E output_path (with_pauses chunks) 24000 with
        | Ok _ => (d ++ [(output_path, with_pauses chunks)], Ok tt)
        | Raise e =>
            (d, Raise (Exn AudioGenerationError (Gen.failure_message K self voice e)))
        end
    | Raise e =>
        (d, Raise (Exn AudioGenerationError (Gen.failure_message K self voice e)))
    end.
Proof.
  unfold Gen._generate_audio_for_text. rewrite speak_and_write_unfold.
  destruct (Gen.speak K text voice) as [[|a l]|e]; try reflexivity.
  unfold Gen.write. destruct (sf_write E output_path _ 24000) as [[]|e]; reflexivity.
Qed.

Lemma _generate_audio_for_text_Raise text output_path voice d d' e :
  Gen._generate_audio_for_text E K self text output_path voice d = (d', Raise e) ->
  d' = d /\ exn_cls e = AudioGenerationError.
Proof.
  rewrite _generate_audio_for_text_unfold.
  destruct (Gen.speak K text voice) as [[|a l]|e0].
  - discriminate.
  - destruct (sf_write E output_path _ 24000) as [[]|e0]; [discriminate|].
    intros [= <- <-]. split; reflexivity.
  - intros [= <- <-]. split; reflexivity.
Qed.

Lemma generate_exchanges_cons i j exchange rest audio_files d :
  Gen.generate_exchanges E K self i j (exchange :: rest) audio_files d
  = match Gen._generate_audio_for_text E K self (Exchange.content exchange)
            (segment_entry K self (Spoken i j (Exchange.speaker exchange))).2
            (voice_of self exchange) d with
    | (d', Ok _) =>
        Gen.generate_exchanges E K self i (S j) rest
          (dict_update audio_files
             [segment_entry K self (Spoken i j (Exchange.speaker exchange))]) d'
    | (d', Raise e) => (d', Raise e)
    end.
Proof. reflexivity. Qed.

Lemma generate_topics_cons i topic rest audio_files d :
  Gen.generate_topics E K self i (topic :: rest) audio_files d
  = match Gen._generate_audio_for_text E K self
            ("Topic " +:+ pretty i +:+ ": " +:+ Topic.title topic)
            (segment_entry K self (Announcement i)).2 (Gen.host_voice self) d with
    | (d1, Ok _) =>
        match Gen.generate_exchanges E K self i 1 (Topic.exchanges topic)
                (dict_update audio_files [segment_entry K self (Announcement i)]) d1 with
        | (d2, Ok audio_files) => Gen.generate_topics E K self (S i) rest audio_files d2
        | (d2, Raise e) => (d2, Raise e)
        end
    | (d1, Raise e) => (d1, Raise e)
    end.
Proof. reflexivity. Qed.

Lemma generate_unfold podcast d :
  Gen.generate E K self podcast d
  = match Gen._generate_audio_for_text E K self (Podcast.intro podcast)
            (segment_entry K self Intro).2 (Gen.host_voice self) d with
    | (d1, Ok _) =>
        match Gen.generate_topics E K self 1 (Podcast.topics podcast)
                (dict_update [] [segment_entry K self Intro]) d1 with
        | (d2, Ok audio_files) =>
            match Gen._generate_audio_for_text E K self (Podcast.outro podcast)
                    (segment_entry K self Outro).2 (Gen.host_voice self) d2 with
            | (d3, Ok _) =>
                (d3, Ok (dict_update audio_files [segment_entry K self Outro]))
            | (d3, Raise e) => (d3, Raise e)
            end
        | (d2, Raise e) => (d2, Raise e)
        end
    | (d1, Raise e) => (d1, Raise e)
    end.
Proof. reflexivity. Qed.

Lemma generate_exchanges_Ok exchanges : forall i j audio_files d d' dict,
  Gen.generate_exchanges E K self i j exchanges audio_files d = (d', Ok dict) ->
  dict = dict_update audio_files
           (segment_entry K self <$> exchange_segments i j exchanges).
Proof.
  induction exchanges as [|exchange rest IH]; intros i j audio_files d d' dict.
  - intros [= _ <-]. reflexivity.
  - rewrite generate_exchanges_cons.
    destruct (Gen._generate_audio_for_text _ _ _ _ _ _ d) as [d1 [[]|e]]; [|discriminate].
    intros H%IH. rewrite H. reflexivity.
Qed.

Lemma generate_topics_Ok topics : forall i audio_files d d' dict,
  Gen.generate_topics E K self i topics audio_files d = (d', Ok dict) ->
  dict = dict_update audio_files (segment_entry K self <$> topic_segments i topics).
Proof.
  induction topics as [|topic rest IH]; intros i audio_files d d' dict.
  - intros [= _ <-]. reflexivity.
  - rewrite generate_topics_cons.
    destruct (Gen._generate_audio_for_text _ _ _ _ _ _ d) as [d1 [[]|e]]; [|discriminate].
    destruct (Gen.generate_exchanges _ _ _ _ _ _ _ d1) as [d2 [files|e]] eqn:Hex;
      [|discriminate].
    apply generate_exchanges_Ok in Hex. intros H%IH. rewrite H, Hex.
    cbn [topic_segments]. rewrite fmap_cons, fmap_app.
    change (segment_entry K self (Announcement i) :: ?l)
      with ([segment_entry K self (Announcement i)] ++ l).
    rewrite !dict_update_app. reflexivity.
Qed.

Lemma generate_Ok podcast d d' dict :
  Gen.generate E K self podcast d = (d', Ok dict) ->
  dict = segment_entry K self <$> segments podcast.
Proof.
  rewrite generate_unfold.
  destruct (Gen._generate_audio_for_text _ _ _ _ _ _ d) as [d1 [[]|e]]; [|discriminate].
  destruct (Gen.generate_topics _ _ _ _ _ _ d1) as [d2 [files|e]] eqn:Htopics;
    [|discriminate].
  destruct (Gen._generate_audio_for_text _ _ _ _ _ _ d2) as [d3 [[]|e]]; [|discriminate].
  intros [= _ <-]. apply generate_topics_Ok in Htopics. rewrite Htopics.
  transitivity (dict_update [] (segment_entry K self <$> segments podcast)).
  { unfold segments. rewrite fmap_cons, fmap_app.
    change (segment_entry K self Intro :: ?l) with ([segment_entry K self Intro] ++ l).
    rewrite !dict_update_app. reflexivity. }
  rewrite dict_update_fresh; [reflexivity|].
  rewrite app_nil_l, <- list_fmap_compose. apply segments_keys_NoDup.
Qed.

Lemma generate_exchanges_Raise exchanges : forall i j audio_files d d' e,
  Gen.generate_exchanges E K self i j exchanges audio_files d = (d', Raise e) ->
  exn_cls e = AudioGenerationError.
Proof.
  induction exchanges as [|exchange rest IH]; intros i j audio_files d d' e.
  - discriminate.
  - rewrite generate_exchanges_cons.
    destruct (Gen._generate_audio_for_text _ _ _ _ _ _ d) as [d1 [[]|e1]] eqn:H1.
    + apply IH.
    + intros [= <- <-]. apply _generate_audio_for_text_Raise in H1 as [_ H1]. exact H1.
Qed.

Lemma generate_topics_Raise topics : forall i audio_files d d' e,
  Gen.generate_topics E K self i topics audio_files d = (d', Raise e) ->
  exn_cls e = AudioGenerationError.
Proof.
  induction topics as [|topic rest IH]; intros i audio_files d d' e.
  - discriminate.
  - rewrite generate_topics_cons.
    destruct (Gen._generate_audio_for_text _ _ _ _ _ _ d) as [d1 [[]|e1]] eqn:H1.
    + destruct (Gen.generate_exchanges _ _ _ _ _ _ _ d1) as [d2 [files|e2]] eqn:Hex.
      * apply IH.
      * intros [= <- <-]. exact (generate_exchanges_Raise _ _ _ _ _ _ _ Hex).
    + intros [= <- <-]. apply _generate_audio_for_text_Raise in H1 as [_ H1]. exact H1.
Qed.

Lemma segments_length podcast :
  length (segments podcast)
  = 2 + sum_list ((fun topic => S (length (Topic.exchanges topic)))
                    <$> Podcast.topics podcast).
Proof.
  assert (forall exchanges i j, length (exchange_segments i j exchanges) = length exchanges)
    as Hex.
  { induction exchanges as [|x l IH]; intros i j; simpl; [reflexivity|].
    rewrite IH. reflexivity. }
  assert (forall topics i,
            length (topic_segments i topics)
            = sum_list ((fun topic => S (length (Topic.exchanges topic))) <$> topics))
    as Htopics.
  { induction topics as [|x l IH]; intros i; simpl; [reflexivity|].
    rewrite length_app, Hex, IH. reflexivity. }
  unfold segments. simpl. rewrite length_app, Htopics. simpl. lia.
Qed.

End GenerateFacts.
Section AscendingLookup.
Context {A : Type}.
Variable key : A -> string.

Lemma ascending_lookup l : forall p q x y,
  ascending key l = true -> l !! p = Some x -> l !! q = Some y -> p <= q ->
  String.leb (key x) (key y) = true.
Proof.
  induction l as [|z l IH]; intros p q x y Hl Hp Hq Hpq; [discriminate Hp|].
  destruct p as [|p].
  - injection Hp as ->. destruct q as [|q].
    + injection Hq as ->. apply leb_refl.
    + apply (ascending_head key x l Hl). apply list_elem_of_lookup. eauto.
  - destruct q as [|q]; [lia|].
    rewrite ascending_cons in Hl. apply andb_prop in Hl as [_ Hl].
    apply (IH p q x y Hl Hp Hq). lia.
Qed.

Lemma ascending_fmap {B} (f : B -> A) (l : list B) :
  ascending key (f <$> l) = ascending (fun x => key (f x)) l.
Proof.
  induction l as [|x [|y l] IH]; [reflexivity..|].
  change (String.leb (key (f x)) (key (f y)) && ascending key (f <$> y :: l)
          = String.leb (key (f x)) (key (f y)) && ascending (fun x => key (f x)) (y :: l)).
  rewrite IH. reflexivity.
Qed.

Lemma ascending_ext (key' : A -> string) l :
  Forall (fun x => key x = key' x) l -> ascending key l = ascending key' l.
Proof.
  induction 1 as [|x l Hx Hl IH]; [reflexivity|].
  rewrite !ascending_cons, IH, Hx. destruct Hl as [|y l Hy _]; [reflexivity|].
  rewrite Hy. reflexivity.
Qed.

Lemma StronglySorted_ascending (R : A -> A -> Prop) (P : A -> Prop) l :
  (forall x y, P x -> P y -> R x y -> String.leb (key x) (key y) = true) ->
  Forall P l -> StronglySorted R l -> ascending key l = true.
Proof.
  intros HR HP Hl. induction Hl as [|x l Hl IH Hx]; [reflexivity|].
  inversion HP as [|? ? Px Pl]; subst.
  rewrite ascending_cons, (IH Pl), andb_true_r.
  destruct Hl as [|y l ? ?]; [reflexivity|].
  inversion Hx as [|? ? Rxy _]; subst. inversion Pl; subst. apply HR; assumption.
Qed.

End AscendingLookup.
(** ** Properties of the audio generator *)

(** X7 ([_generate_audio_for_text]).  When the pipeline yields at least one
    chunk and the file can be written, exactly one file is written: the
    chunks in order with 7200 zero samples (0.3 s at 24 kHz) between two
    consecutive chunks and none after the last, so that its length is the
    chunks' samples plus 7200 for every chunk but one. *)
Theorem X7_chunks_and_pauses (E : Env) (K : Gen.Kokoro) (self : Gen.AudioGenerator)
    (text voice : string) (output_path : Path) (chunks : list (list float))
    (d : Gen.disk) :
  Gen.speak K text voice = Ok chunks ->
  chunks <> [] ->
  sf_write E output_path (with_pauses chunks) 24000 = Ok tt ->
  Gen._generate_audio_for_text E K self text output_path voice d
    = (d ++ [(output_path, with_pauses chunks)], Ok tt)
  /\ length (with_pauses chunks)
     = (samples chunks + Z.to_nat 7200 * (length chunks - 1))%nat.
Proof.
  intros Hspeak Hne Hwrite. split; [|apply with_pauses_length].
  rewrite _generate_audio_for_text_unfold, Hspeak.
  destruct chunks as [|a l]; [done|]. rewrite Hwrite. reflexivity.
Qed.

Lemma X7_chunks_and_pauses_witness :
  Gen._generate_audio_for_text E_w K_w2 gen_w "Hello" (MkPath false ["a.wav"]) "bf_emma" []
    = ([] ++ [(MkPath false ["a.wav"],
               with_pauses [[0.5%float]; [0.25%float; 0.125%float]])], Ok tt)
  /\ length (with_pauses [[0.5%float]; [0.25%float; 0.125%float]])
     = (samples [[0.5%float]; [0.25%float; 0.125%float]]
        + Z.to_nat 7200 * (length [[0.5%float]; [0.25%float; 0.125%float]] - 1))%nat.
Proof.
  apply (X7_chunks_and_pauses E_w K_w2 gen_w "Hello" "bf_emma" (MkPath false ["a.wav"])
           [[0.5%float]; [0.25%float; 0.125%float]] []).
  - reflexivity.
  - discriminate.
  - reflexivity.
Defined.

(** X8 ([_generate_audio_for_text]).  A failure leaves the files as they were
    and is an [AudioGenerationError]; what failed is the pipeline or the
    writing of the file, never the pauses or the concatenation, and the
    message ends with the original one. *)
Theorem X8_one_text_failure (E : Env) (K : Gen.Kokoro) (self : Gen.AudioGenerator)
    (text voice : string) (output_path : Path) (d d' : Gen.disk) (e : exn) :
  Gen._generate_audio_for_text E K self text output_path voice d = (d', Raise e) ->
  d' = d /\ exn_cls e = AudioGenerationError /\
  exists e0 advice,
    (Gen.speak K text voice = Raise e0 \/
     exists chunks, Gen.speak K text voice = Ok chunks /\
       sf_write E output_path (with_pauses chunks) 24000 = Raise e0) /\
    exn_str e = "Failed to generate audio with voice '" +:+ voice
                +:+ "' for language '" +:+ Gen.lang_code self +:+ "'"
                +:+ advice +:+ ": " +:+ exn_str e0.
Proof.
  intros H. destruct (_generate_audio_for_text_Raise E K self _ _ _ _ _ _ H) as [-> Hcls].
  split; [reflexivity|]. split; [exact Hcls|].
  assert (forall e0, exists advice,
            Gen.failure_message K self voice e0
            = "Failed to generate audio with voice '" +:+ voice
              +:+ "' for language '" +:+ Gen.lang_code self +:+ "'"
              +:+ advice +:+ ": " +:+ exn_str e0) as Hmsg.
  { intros e0. unfold Gen.failure_message.
    set (base := "Failed to generate audio with voice '" +:+ voice
                 +:+ "' for language '" +:+ Gen.lang_code self +:+ "'").
    set (tail := ": " +:+ exn_str e0).
    set (sure := ". Make sure the voice '" +:+ voice +:+ "' is available for "
                 +:+ default "the selected language"
                       (Dict.get Gen.LANG_CODES (Gen.lang_code self))).
    assert (forall advice,
              (base +:+ advice) +:+ tail
              = "Failed to generate audio with voice '" +:+ voice
                +:+ "' for language '" +:+ Gen.lang_code self +:+ "'"
                +:+ advice +:+ tail) as Hbase.
    { intros advice. unfold base. rewrite !append_assoc. reflexivity. }
    destruct (_ || _).
    - destruct (_ && _); [|destruct (_ && _)].
      + exists (sure +:+ ". For Japanese support, run: pip install misaki[ja]").
        rewrite <- Hbase, (append_assoc base). reflexivity.
      + exists (sure +:+ ". For Chinese support, run: pip install misaki[zh]").
        rewrite <- Hbase, (append_assoc base). reflexivity.
      + exists sure. rewrite <- Hbase. reflexivity.
    - exists "". rewrite <- Hbase, append_nil_r. reflexivity. }
  rewrite _generate_audio_for_text_unfold in H.
  destruct (Gen.speak K text voice) as [[|a l]|e0]; [discriminate| |].
  - destruct (sf_write E output_path _ 24000) as [[]|e0] eqn:Hw; [discriminate|].
    injection H as <-. destruct (Hmsg e0) as [advice Hadv].
    exists e0, advice. split; [right; eauto|exact Hadv].
  - injection H as <-. destruct (Hmsg e0) as [advice Hadv].
    exists e0, advice. split; [left; reflexivity|exact Hadv].
Qed.

Lemma X8_one_text_failure_witness :
  [] = ([] : Gen.disk) /\
  exn_cls (Exn AudioGenerationError
             (Gen.failure_message K_fail gen_w "bf_emma"
                (Exn (LibraryError "RuntimeError") "Voice not found")))
    = AudioGenerationError /\
  exists e0 advice,
    (Gen.speak K_fail "Hello" "bf_emma" = Raise e0 \/
     exists chunks, Gen.speak K_fail "Hello" "bf_emma" = Ok chunks /\
       sf_write E_w (MkPath false ["a.wav"]) (with_pauses chunks) 24000 = Raise e0) /\
    exn_str (Exn AudioGenerationError
               (Gen.failure_message K_fail gen_w "bf_emma"
                  (Exn (LibraryError "RuntimeError") "Voice not found")))
    = "Failed to generate audio with voice '" +:+ "bf_emma"
      +:+ "' for language '" +:+ Gen.lang_code gen_w +:+ "'"
      +:+ advice +:+ ": " +:+ exn_str e0.
Proof.
  apply (X8_one_text_failure E_w K_fail gen_w "Hello" "bf_emma" (MkPath false ["a.wav"])
           [] []).
  reflexivity.
Defined.
(** X9 ([generate]).  On success the dict holds one entry per segment, in
    the order of generation (intro, then per topic its announcement and its
    exchanges, then outro), under pairwise distinct keys: no assignment
    overwrites an earlier one, and there are two entries more than topics
    and exchanges together. *)
Theorem X9_generate_dict (E : Env) (K : Gen.Kokoro) (self : Gen.AudioGenerator)
    (podcast : Podcast.t) (d d' : Gen.disk) (dict : list (string * Path)) :
  Gen.generate E K self podcast d = (d', Ok dict) ->
  dict = segment_entry K self <$> segments podcast /\
  NoDup dict.*1 /\
  length dict
  = 2 + sum_list ((fun topic => S (length (Topic.exchanges topic)))
                    <$> Podcast.topics podcast).
Proof.
  intros ->%generate_Ok. split; [reflexivity|]. split.
  - rewrite <- list_fmap_compose. apply segments_keys_NoDup.
  - rewrite length_fmap. apply segments_length.
Qed.

Lemma X9_generate_dict_witness :
  exists d' dict,
    Gen.generate E_w K_w gen_w podcast_w [] = (d', Ok dict) /\
    dict = segment_entry K_w gen_w <$> segments podcast_w /\
    NoDup dict.*1 /\
    length dict
    = 2 + sum_list ((fun topic => S (length (Topic.exchanges topic)))
                      <$> Podcast.topics podcast_w).
Proof.
  eexists _, _. split; [vm_compute; reflexivity|].
  eapply (X9_generate_dict E_w K_w gen_w podcast_w []). vm_compute; reflexivity.
Defined.

(** X10 ([generate]).  Whatever fails while a podcast is voiced, [generate]
    raises an [AudioGenerationError]: the voices of the three roles are
    always found, and every other failure is wrapped. *)
Theorem X10_generate_failure (E : Env) (K : Gen.Kokoro) (self : Gen.AudioGenerator)
    (podcast : Podcast.t) (d d' : Gen.disk) (e : exn) :
  Gen.generate E K self podcast d = (d', Raise e) ->
  exn_cls e = AudioGenerationError.
Proof.
  rewrite generate_unfold.
  destruct (Gen._generate_audio_for_text _ _ _ _ _ _ d) as [d1 [[]|e1]] eqn:H1.
  - destruct (Gen.generate_topics _ _ _ _ _ _ d1) as [d2 [files|e2]] eqn:Htopics.
    + destruct (Gen._generate_audio_for_text _ _ _ _ _ _ d2) as [d3 [[]|e3]] eqn:H3;
        [discriminate|].
      intros [= <- <-]. apply _generate_audio_for_text_Raise in H3 as [_ H3]. exact H3.
    + intros [= <- <-]. exact (generate_topics_Raise E K self _ _ _ _ _ _ Htopics).
  - intros [= <- <-]. apply _generate_audio_for_text_Raise in H1 as [_ H1]. exact H1.
Qed.

Lemma X10_generate_failure_witness :
  exists d' e,
    Gen.generate E_w K_fail gen_w podcast_w [] = (d', Raise e) /\
    exn_cls e = AudioGenerationError.
Proof.
  eexists _, _. split; [vm_compute; reflexivity|].
  eapply (X10_generate_failure E_w K_fail gen_w podcast_w []). vm_compute; reflexivity.
Defined.

Section Mute.
Variable E : Env.
Variable K : Gen.Kokoro.
Variable self : Gen.AudioGenerator.
Hypothesis Hmute : forall text voice, Gen.speak K text voice = Ok [].

Lemma mute_text text output_path voice d :
  Gen._generate_audio_for_text E K self text output_path voice d = (d, Ok tt).
Proof. rewrite _generate_audio_for_text_unfold, Hmute. reflexivity. Qed.

Lemma mute_exchanges exchanges : forall i j audio_files d,
  exists dict,
    Gen.generate_exchanges E K self i j exchanges audio_files d = (d, Ok dict).
Proof.
  induction exchanges as [|exchange rest IH]; intros i j audio_files d.
  - eexists. reflexivity.
  - rewrite generate_exchanges_cons, mute_text. apply IH.
Qed.

Lemma mute_topics topics : forall i audio_files d,
  exists dict, Gen.generate_topics E K self i topics audio_files d = (d, Ok dict).
Proof.
  induction topics as [|topic rest IH]; intros i audio_files d.
  - eexists. reflexivity.
  - rewrite generate_topics_cons, mute_text.
    destruct (mute_exchanges (Topic.exchanges topic) i 1
                (dict_update audio_files [segment_entry K self (Announcement i)]) d)
      as [dict ->].
    apply IH.
Qed.

End Mute.

(** X11 ([generate], [_generate_audio_for_text]).  When the pipeline yields
    no chunk for any text, [generate] writes no file at all and still
    returns the path of every segment. *)
Theorem X11_no_audio_no_file (E : Env) (K : Gen.Kokoro) (self : Gen.AudioGenerator)
    (podcast : Podcast.t) (d : Gen.disk) :
  (forall text voice, Gen.speak K text voice = Ok []) ->
  Gen.generate E K self podcast d
    = (d, Ok (segment_entry K self <$> segments podcast)).
Proof.
  intros Hmute.
  assert (exists dict, Gen.generate E K self podcast d = (d, Ok dict)) as [dict H].
  { rewrite generate_unfold, mute_text by exact Hmute.
    destruct (mute_topics E K self Hmute (Podcast.topics podcast) 1
                (dict_update [] [segment_entry K self Intro]) d) as [dict ->].
    rewrite mute_text by exact Hmute. eexists. reflexivity. }
  rewrite H. apply generate_Ok in H. rewrite H. reflexivity.
Qed.

Lemma X11_no_audio_no_file_witness :
  Gen.generate E_w K_mute gen_w podcast_w []
    = ([], Ok (segment_entry K_mute gen_w <$> segments podcast_w)).
Proof.
  apply (X11_no_audio_no_file E_w K_mute gen_w podcast_w []).
  intros text voice. reflexivity.
Defined.

Section Order.
Variable K : Gen.Kokoro.
Variable self : Gen.AudioGenerator.

Lemma segments_plain podcast :
  speakers (plain K) podcast ->
  Forall (fun s => match s with
                   | Spoken _ _ speaker => plain K speaker
                   | _ => True
                   end) (segments podcast).
Proof.
  unfold speakers, segments. intros Hsp.
  assert (forall exchanges i j,
            Forall (fun exchange => plain K (Exchange.speaker exchange)) exchanges ->
            Forall (fun s => match s with Spoken _ _ speaker => plain K speaker | _ => True end)
                   (exchange_segments i j exchanges)) as Hex.
  { induction exchanges as [|x l IH]; intros i j Hl; simpl; [constructor|].
    inversion Hl; subst. constructor; [assumption|]. apply IH. assumption. }
  assert (forall topics i,
            Forall (fun topic => Forall (fun exchange => plain K (Exchange.speaker exchange))
                                   (Topic.exchanges topic)) topics ->
            Forall (fun s => match s with Spoken _ _ speaker => plain K speaker | _ => True end)
                   (topic_segments i topics)) as Htopics.
  { induction topics as [|x l IH]; intros i Hl; simpl; [constructor|].
    inversion Hl; subst. constructor; [exact I|]. apply Forall_app. split.
    - apply Hex. assumption.
    - apply IH. assumption. }
  constructor; [exact I|]. apply Forall_app. split; [apply Htopics, Hsp|].
  repeat constructor.
Qed.

Lemma segment_names podcast :
  speakers (plain K) podcast ->
  Forall (fun s => name (segment_entry K self s).2 = segment_file K s)
         (segments podcast).
Proof.
  intros Hsp. eapply Forall_impl; [apply segments_plain, Hsp|].
  intros s Hs. apply segment_file_name. exact Hs.
Qed.

End Order.
Section OrderFacts.
Variable K : Gen.Kokoro.
Variable self : Gen.AudioGenerator.

Lemma entries_names_ascending podcast :
  small podcast -> speakers (plain K) podcast ->
  ascending name (segment_entry K self <$> segments podcast).*2 = true.
Proof.
  intros Hsmall Hsp. rewrite <- list_fmap_compose, ascending_fmap.
  rewrite (ascending_ext _ (segment_file K)) by exact (segment_names K self podcast Hsp).
  apply (StronglySorted_ascending (segment_file K) before in_range).
  - intros a b Ha Hb Hab. apply compare_lt_leb, before_file_lt; assumption.
  - apply segments_in_range, Hsmall.
  - apply segments_sorted.
Qed.

(** The tenth exchange of a topic is named before its first. *)
Lemma tenth_before_first i speaker1 speaker10 :
  String.compare (Gen.exchange_name K i 10 speaker10) (Gen.exchange_name K i 1 speaker1)
  = Lt.
Proof.
  unfold Gen.exchange_name. rewrite compare_app.
  set (rest10 := "_speaker_" +:+ Gen.lower K speaker10 +:+ ".wav").
  set (rest1 := "_speaker_" +:+ Gen.lower K speaker1 +:+ ".wav").
  transitivity (String.compare ("0" +:+ rest10) rest1);
    [exact (compare_app "_1" ("0" +:+ rest10) rest1)|].
  reflexivity.
Qed.

Lemma long_topic_segments podcast :
  Exists (fun topic => 10 <= length (Topic.exchanges topic)) (Podcast.topics podcast) ->
  exists i speaker1 speaker10,
    Spoken i 1 speaker1 ∈ segments podcast /\ Spoken i 10 speaker10 ∈ segments podcast.
Proof.
  intros (topic & Hin & Hlen)%Exists_exists.
  apply list_elem_of_split in Hin as (topics1 & topics2 & Htopics).
  destruct (Topic.exchanges topic)
    as [|e1 [|e2 [|e3 [|e4 [|e5 [|e6 [|e7 [|e8 [|e9 [|e10 rest]]]]]]]]]] eqn:Hex;
    simpl in Hlen; try lia.
  exists (1 + length topics1), (Exchange.speaker e1), (Exchange.speaker e10).
  unfold segments. rewrite Htopics, topic_segments_app.
  cbn [topic_segments]. rewrite Hex. cbn [exchange_segments].
  split; apply elem_of_cons; right; apply elem_of_app; left;
    apply elem_of_app; right; apply elem_of_cons; right.
  - left.
  - do 9 (apply elem_of_cons; right). left.
Qed.

End OrderFacts.

(** X12 ([generate], [assemble]).  For a podcast of at most 99 topics with at
    most 9 exchanges each, whose lowercased speaker names have no ['/'], the
    assembler's sort by file name puts the generated files in the very order
    in which they were generated. *)
Theorem X12_small_podcast_in_order (E : Env) (K : Gen.Kokoro)
    (self : Gen.AudioGenerator) (assembler : AudioAssembler)
    (podcast : Podcast.t) (d d' : Gen.disk) (dict : list (string * Path)) :
  small podcast ->
  speakers (plain K) podcast ->
  Gen.generate E K self podcast d = (d', Ok dict) ->
  resolve_files E assembler (Some (FileDict dict)) = Ok dict.*2.
Proof.
  intros Hsmall Hsp ->%generate_Ok. unfold resolve_files.
  rewrite sorted_fixed; [reflexivity|].
  apply entries_names_ascending; assumption.
Qed.

Lemma X12_small_podcast_in_order_witness :
  exists d' dict,
    Gen.generate E_w K_w gen_w podcast_w [] = (d', Ok dict) /\
    resolve_files E_w (init cfg_w) (Some (FileDict dict)) = Ok dict.*2.
Proof.
  eexists _, _. split; [vm_compute; reflexivity|].
  eapply (X12_small_podcast_in_order E_w K_w gen_w (init cfg_w) podcast_w []).
  - split; [simpl; lia|]. repeat constructor.
  - repeat constructor.
  - vm_compute; reflexivity.
Defined.

(** X13 ([generate], [assemble]).  The exchange number in a file name is not
    padded: as soon as a topic has ten exchanges, the assembler's sort by
    file name places the file of its tenth exchange before the file of its
    first, so the podcast is not assembled in the order of generation. *)
Theorem X13_tenth_exchange_first (E : Env) (K : Gen.Kokoro)
    (self : Gen.AudioGenerator) (assembler : AudioAssembler)
    (podcast : Podcast.t) (d d' : Gen.disk) (dict : list (string * Path)) :
  speakers (plain K) podcast ->
  Exists (fun topic => 10 <= length (Topic.exchanges topic)) (Podcast.topics podcast) ->
  Gen.generate E K self podcast d = (d', Ok dict) ->
  exists files i speaker1 speaker10 p q,
    resolve_files E assembler (Some (FileDict dict)) = Ok files /\
    files !! p = Some (Gen.in_output_dir self (Gen.exchange_name K i 10 speaker10)) /\
    files !! q = Some (Gen.in_output_dir self (Gen.exchange_name K i 1 speaker1)) /\
    p < q.
Proof.
  intros Hsp Hlong ->%generate_Ok.
  destruct (long_topic_segments podcast Hlong) as (i & sp1 & sp10 & H1 & H10).
  set (entries := segment_entry K self <$> segments podcast).
  assert (forall s, s ∈ segments podcast ->
            (segment_entry K self s).2 ∈ Py.sorted name entries.*2) as Hin.
  { intros s Hs. rewrite sorted_Permutation. unfold entries.
    rewrite <- list_fmap_compose. apply list_elem_of_fmap. eauto. }
  destruct (proj1 (list_elem_of_lookup _ _) (Hin _ H1)) as [q Hq].
  destruct (proj1 (list_elem_of_lookup _ _) (Hin _ H10)) as [p Hp].
  exists (Py.sorted name entries.*2), i, sp1, sp10, p, q.
  split; [reflexivity|]. split; [exact Hp|]. split; [exact Hq|].
  destruct (le_lt_dec q p) as [Hqp|Hpq]; [exfalso|exact Hpq].
  pose proof (ascending_lookup name _ q p _ _ (sorted_ascending name entries.*2) Hq Hp Hqp)
    as Hle.
  pose proof (segment_names K self podcast Hsp) as Hnames.
  rewrite Forall_forall in Hnames.
  rewrite (Hnames _ H1), (Hnames _ H10) in Hle. simpl in Hle.
  rewrite (compare_lt_not_leb _ _ (tenth_before_first K i sp1 sp10)) in Hle.
  discriminate.
Qed.

Lemma X13_tenth_exchange_first_witness :
  exists d' dict,
    Gen.generate E_w K_w gen_w podcast_long [] = (d', Ok dict) /\
    exists files i speaker1 speaker10 p q,
      resolve_files E_w (init cfg_w) (Some (FileDict dict)) = Ok files /\
      files !! p = Some (Gen.in_output_dir gen_w (Gen.exchange_name K_w i 10 speaker10)) /\
      files !! q = Some (Gen.in_output_dir gen_w (Gen.exchange_name K_w i 1 speaker1)) /\
      p < q.
Proof.
  eexists _, _. split; [vm_compute; reflexivity|].
  eapply (X13_tenth_exchange_first E_w K_w gen_w (init cfg_w) podcast_long []).
  - repeat constructor.
  - left. simpl. lia.
  - vm_compute; reflexivity.
Defined.
Section GapFacts.
Variable K : Gen.Kokoro.
Variable self : Gen.AudioGenerator.

Lemma str_in_cons needle c rest :
  Py.str_in needle (String c rest)
  = String.prefix needle (String c rest) || Py.str_in needle rest.
Proof. reflexivity. Qed.

(** A needle that starts with no digit is not found in leading digits. *)
Lemma str_in_skip_digits c needle ds rest :
  is_digit c = false -> all_digits ds = true ->
  Py.str_in (String c needle) (ds +:+ rest) = Py.str_in (String c needle) rest.
Proof.
  intros Hc. induction ds as [|x ds IH]; intros Hds; [reflexivity|].
  simpl in Hds. apply andb_prop in Hds as [Hx Hds].
  rewrite append_cons, str_in_cons, prefix_cons.
  destruct (ascii_dec c x) as [->|_]; [congruence|]. apply IH, Hds.
Qed.

Lemma prefix_digits_false c needle ds rest :
  is_digit c = false -> all_digits ds = true -> ds <> "" ->
  String.prefix (String c needle) (ds +:+ rest) = false.
Proof.
  intros Hc Hds Hne. destruct ds as [|x ds]; [done|].
  simpl in Hds. apply andb_prop in Hds as [Hx _].
  rewrite append_cons, prefix_cons.
  destruct (ascii_dec c x) as [->|_]; [congruence|reflexivity].
Qed.

Lemma exchange_name_topic i j speaker :
  Py.str_in "_topic" (Gen.exchange_name K i j speaker)
  = Py.str_in "_topic" ("_" +:+ Gen.lower K speaker +:+ ".wav").
Proof.
  unfold Gen.exchange_name.
  rewrite (str_in_skip_digits "_" "topic") by (reflexivity || apply fmt_02d_digits).
  set (rest := Gen.lower K speaker +:+ ".wav").
  change (String.prefix "_topic" ("_" +:+ pretty j +:+ "_speaker_" +:+ rest)
          || Py.str_in "_topic" (pretty j +:+ "_speaker_" +:+ rest)
          = Py.str_in "_topic" ("_" +:+ rest)).
  replace (String.prefix "_topic" ("_" +:+ pretty j +:+ "_speaker_" +:+ rest))
    with false.
  2:{ symmetry. rewrite append_cons, append_nil_l, prefix_cons.
      destruct (ascii_dec "_" "_") as [_|Hne]; [|done].
      apply prefix_digits_false;
        [reflexivity|apply pretty_nat_digits|apply pretty_nat_nonempty]. }
  rewrite (str_in_skip_digits "_" "topic") by (reflexivity || apply pretty_nat_digits).
  reflexivity.
Qed.

Lemma exchange_name_speaker i j speaker :
  Py.str_in "_speaker" (Gen.exchange_name K i j speaker) = true.
Proof.
  unfold Gen.exchange_name.
  rewrite (str_in_skip_digits "_" "speaker") by (reflexivity || apply fmt_02d_digits).
  set (rest := Gen.lower K speaker +:+ ".wav").
  change (String.prefix "_speaker" ("_" +:+ pretty j +:+ "_speaker_" +:+ rest)
          || Py.str_in "_speaker" (pretty j +:+ "_speaker_" +:+ rest) = true).
  rewrite (str_in_skip_digits "_" "speaker") by (reflexivity || apply pretty_nat_digits).
  apply orb_true_r.
Qed.

Lemma topic_name_topic i : Py.str_in "_topic" (Gen.topic_name i) = true.
Proof.
  unfold Gen.topic_name.
  rewrite (str_in_skip_digits "_" "topic") by (reflexivity || apply fmt_02d_digits).
  reflexivity.
Qed.

End GapFacts.

(** X14 ([generate], [assemble]).  The pause the assembler puts after a
    generated file: 1.5 s after a topic announcement, 1.0 s after the intro,
    0.7 s after an exchange, except that an exchange whose lowercased speaker
    name makes the file name contain ["_topic"] (a speaker called "Topic
    Expert", say) is followed by the 1.5 s of an announcement. *)
Theorem X14_pause_after_generated_file (K : Gen.Kokoro) (self : Gen.AudioGenerator)
    (s : segment) :
  match s with Spoken _ _ speaker => plain K speaker | _ => True end ->
  gap_seconds (segment_entry K self s).2 = segment_gap K s.
Proof.
  intros Hs. unfold gap_seconds, segment_entry. cbn [snd].
  rewrite (segment_file_name K self s Hs).
  destruct s as [|i|i j speaker|]; simpl.
  - reflexivity.
  - rewrite topic_name_topic. reflexivity.
  - rewrite exchange_name_topic, exchange_name_speaker. reflexivity.
  - reflexivity.
Qed.

Lemma X14_pause_after_generated_file_witness :
  gap_seconds (segment_entry K_w gen_w (Spoken 1 2 "Topic Expert")).2
  = segment_gap K_w (Spoken 1 2 "Topic Expert").
Proof.
  apply (X14_pause_after_generated_file K_w gen_w (Spoken 1 2 "Topic Expert")).
  reflexivity.
Defined.

Example topic_expert_pause :
  segment_gap K_w (Spoken 1 2 "Topic Expert") = 1.5%float /\
  segment_gap K_w (Spoken 1 1 "Moderator") = 0.7%float.
Proof. split; reflexivity. Qed.
(** ** The voices of the generator *)

Section VoiceFacts.

Lemma get_Some_elem {V} (d : list (string * V)) k v :
  Dict.get d k = Some v -> (k, v) ∈ d.
Proof.
  induction d as [|[k' v'] d IH]; [discriminate|]. simpl.
  destruct (String.eqb_spec k' k) as [->|_].
  - intros [= ->]. left.
  - intros H. right. apply IH, H.
Qed.

Lemma get_existsb {V} (d : list (string * V)) k :
  existsb (fun entry => String.eqb entry.1 k) d = true -> exists v, Dict.get d k = Some v.
Proof.
  induction d as [|[k' v'] d IH]; [discriminate|]. simpl.
  destruct (String.eqb k' k); [eauto|exact IH].
Qed.

Lemma prefix_true p : forall s,
  String.prefix p s = true -> exists rest, s = p +:+ rest.
Proof.
  induction p as [|c p IH]; intros s H.
  - exists s. reflexivity.
  - destruct s as [|c' s]; [discriminate|]. rewrite prefix_cons in H.
    destruct (ascii_dec c c') as [<-|]; [|discriminate].
    destruct (IH s H) as [rest ->]. exists rest. reflexivity.
Qed.

Lemma existsb_prefix voice prefixes :
  existsb (fun prefix => String.prefix prefix voice) prefixes = true ->
  exists prefix rest, prefix ∈ prefixes /\ voice = prefix +:+ rest.
Proof.
  induction prefixes as [|p l IH]; [discriminate|]. cbn [existsb].
  intros [H|H]%orb_prop.
  - apply prefix_true in H as [rest ->]. exists p, rest. split; [left|reflexivity].
  - destruct (IH H) as (p' & rest & Hin & ->). exists p', rest.
    split; [right; exact Hin|reflexivity].
Qed.

Lemma known_language lang language :
  Dict.get Gen.LANG_CODES lang = Some language -> exists c, lang = String c "".
Proof.
  intros H%get_Some_elem. unfold Gen.LANG_CODES in H.
  repeat (apply elem_of_cons in H as [H|H]);
    [injection H as -> _; eexists; reflexivity..|apply elem_of_nil in H; contradiction].
Qed.

Lemma _validate_voice_Ok lang voice role :
  Gen._validate_voice lang voice role = Ok tt ->
  voice_of_language lang voice /\ exists language, Dict.get Gen.LANG_CODES lang = Some language.
Proof.
  unfold Gen._validate_voice.
  destruct (Dict.get Gen.VOICE_PREFIXES lang) as [prefixes|] eqn:Hget.
  2:{ cbn [from_option existsb negb]. destruct (Gen.lookup_or_KeyError _ _); discriminate. }
  cbn [from_option id].
  destruct (existsb _ prefixes) eqn:Hany; cbn [negb].
  2:{ destruct (Gen.lookup_or_KeyError _ _); discriminate. }
  intros _. apply existsb_prefix in Hany as (prefix & rest & Hin & ->).
  apply get_Some_elem in Hget. unfold Gen.VOICE_PREFIXES in Hget.
  repeat (apply elem_of_cons in Hget as [Hget|Hget]);
    [injection Hget as -> ->..|apply elem_of_nil in Hget; contradiction];
    (split; [|eexists; reflexivity]);
    repeat (apply elem_of_cons in Hin as [Hin|Hin]);
    try (apply elem_of_nil in Hin; contradiction); subst prefix;
    first [ (exists "f", rest; split; [reflexivity|left; reflexivity])
          | (exists "m", rest; split; [reflexivity|right; reflexivity]) ].
Qed.

Lemma _validate_voice_Raise lang voice role e :
  (exists language, Dict.get Gen.LANG_CODES lang = Some language) ->
  Gen._validate_voice lang voice role = Raise e -> exn_cls e = ValueError.
Proof.
  intros [language Hlang]. unfold Gen._validate_voice, Gen.lookup_or_KeyError.
  rewrite Hlang. destruct (negb _); [|discriminate].
  intros [= <-]. reflexivity.
Qed.

End VoiceFacts.

(** X15 ([_validate_voice]).  A voice is accepted for a language only if its
    name is the language code, then [f] or [m], then an underscore: in
    particular no voice is accepted for two languages, and none for an
    unknown language code. *)
Theorem X15_accepted_voice (lang voice role : string) :
  Gen._validate_voice lang voice role = Ok tt ->
  voice_of_language lang voice /\
  (forall lang' role', Gen._validate_voice lang' voice role' = Ok tt -> lang' = lang) /\
  exists language, Dict.get Gen.LANG_CODES lang = Some language.
Proof.
  intros H. destruct (_validate_voice_Ok _ _ _ H) as [Hv Hl].
  split; [exact Hv|]. split; [|exact Hl].
  intros lang' role' H'. destruct (_validate_voice_Ok _ _ _ H') as [Hv' [language' Hl']].
  destruct Hl as [language Hl].
  apply known_language in Hl as [c ->]. apply known_language in Hl' as [c' ->].
  destruct Hv as (g & rest & -> & _), Hv' as (g' & rest' & Heq & _).
  rewrite !append_cons in Heq. injection Heq as -> _. reflexivity.
Qed.

Lemma X15_accepted_voice_witness :
  voice_of_language "b" "bf_emma" /\
  (forall lang' role', Gen._validate_voice lang' "bf_emma" role' = Ok tt -> lang' = "b") /\
  exists language, Dict.get Gen.LANG_CODES "b" = Some language.
Proof.
  apply (X15_accepted_voice "b" "bf_emma" "host"). reflexivity.
Defined.
Section InitFacts.
Variable E : Env.
Variable K : Gen.Kokoro.

Lemma init_Ok config self :
  Gen.init E K config = Ok self ->
  mkdir E (path_of_string (Gen.cfg_audio_output_dir config)) = Ok tt /\
  (exists language, Dict.get Gen.LANG_CODES (Gen.cfg_lang config) = Some language) /\
  Gen._validate_voice (Gen.cfg_lang config)
    (Gen._extract_voice_name (Gen.cfg_host_voice config)) "host" = Ok tt /\
  Gen._validate_voice (Gen.cfg_lang config)
    (Gen._extract_voice_name (Gen.cfg_moderator_voice config)) "moderator" = Ok tt /\
  Gen._validate_voice (Gen.cfg_lang config)
    (Gen._extract_voice_name (Gen.cfg_guest_voice config)) "guest" = Ok tt /\
  Gen.kpipeline_init K (Gen.cfg_lang config) = Ok tt /\
  self = {| Gen.output_dir := path_of_string (Gen.cfg_audio_output_dir config);
            Gen.chunk_size := Gen.cfg_chunk_size config;
            Gen.lang_code := Gen.cfg_lang config;
            Gen.host_voice := Gen._extract_voice_name (Gen.cfg_host_voice config);
            Gen.moderator_voice := Gen._extract_voice_name (Gen.cfg_moderator_voice config);
            Gen.guest_voice := Gen._extract_voice_name (Gen.cfg_guest_voice config) |}.
Proof.
  unfold Gen.init.
  destruct (mkdir E _) as [[]|e]; [|discriminate].
  destruct (existsb _ Gen.LANG_CODES) eqn:Hlang; [|discriminate].
  apply get_existsb in Hlang.
  cbn [negb mbind result_bind bind].
  destruct (Gen._validate_voice _ _ "host") as [[]|e]; [|discriminate].
  destruct (Gen._validate_voice _ _ "moderator") as [[]|e]; [|discriminate].
  destruct (Gen._validate_voice _ _ "guest") as [[]|e]; [|discriminate].
  cbn [mbind result_bind bind].
  destruct (Gen.kpipeline_init K _) as [[]|e].
  - intros [= <-]. repeat split; try reflexivity. exact Hlang.
  - destruct (Gen.is_ImportError _); discriminate.
Qed.

End InitFacts.

(** X16 ([__init__], [generate]).  A generator that was constructed has a
    known language code, and its three voices are voices of that language;
    so is the voice [generate] picks for any exchange, whoever speaks. *)
Theorem X16_constructed_generator (E : Env) (K : Gen.Kokoro) (config : Gen.Config)
    (self : Gen.AudioGenerator) :
  Gen.init E K config = Ok self ->
  (exists language, Dict.get Gen.LANG_CODES (Gen.lang_code self) = Some language) /\
  Forall (fun entry => voice_of_language (Gen.lang_code self) entry.2) (Gen.voices self) /\
  forall exchange, voice_of_language (Gen.lang_code self) (voice_of self exchange).
Proof.
  intros (_ & Hlang & Hh & Hm & Hg & _ & ->)%init_Ok.
  apply _validate_voice_Ok in Hh as [Hh _].
  apply _validate_voice_Ok in Hm as [Hm _].
  apply _validate_voice_Ok in Hg as [Hg _].
  split; [exact Hlang|]. split.
  - unfold Gen.voices. cbn [Gen.host_voice Gen.moderator_voice Gen.guest_voice Gen.lang_code].
    repeat constructor; assumption.
  - intros exchange. unfold voice_of, Gen.voices.
    cbn [Gen.host_voice Gen.moderator_voice Gen.guest_voice Gen.lang_code Dict.get].
    repeat (destruct (String.eqb _ (Exchange.speaker exchange)); [assumption|]).
    exact Hg.
Qed.

Lemma X16_constructed_generator_witness :
  (exists language, Dict.get Gen.LANG_CODES (Gen.lang_code gen_w) = Some language) /\
  Forall (fun entry => voice_of_language (Gen.lang_code gen_w) entry.2) (Gen.voices gen_w) /\
  forall exchange, voice_of_language (Gen.lang_code gen_w) (voice_of gen_w exchange).
Proof.
  apply (X16_constructed_generator E_w K_w gen_cfg_w gen_w). reflexivity.
Defined.

(** X17 ([__init__]).  The constructor fails in three ways only: the output
    directory cannot be created (that error, as it is); the language code or
    a voice is rejected ([ValueError], never the [KeyError] of an unknown
    language); or Kokoro fails, and then only an [ImportError] is turned into
    an [AudioGenerationError], any other error of Kokoro leaving as it is. *)
Theorem X17_constructor_failures (E : Env) (K : Gen.Kokoro) (config : Gen.Config)
    (e : exn) :
  Gen.init E K config = Raise e ->
  mkdir E (path_of_string (Gen.cfg_audio_output_dir config)) = Raise e \/
  exn_cls e = ValueError \/
  exists e0,
    Gen.kpipeline_init K (Gen.cfg_lang config) = Raise e0 /\
    (Gen.is_ImportError (exn_cls e0) = true -> exn_cls e = AudioGenerationError) /\
    (Gen.is_ImportError (exn_cls e0) = false -> e = e0).
Proof.
  unfold Gen.init.
  destruct (mkdir E _) as [[]|e1]; [|intros [= <-]; left; reflexivity].
  destruct (existsb _ Gen.LANG_CODES) eqn:Hlang;
    [|intros [= <-]; right; left; reflexivity].
  apply get_existsb in Hlang.
  cbn [negb mbind result_bind bind].
  destruct (Gen._validate_voice _ _ "host") as [[]|e1] eqn:Hh;
    [|intros [= <-]; right; left; exact (_validate_voice_Raise _ _ _ _ Hlang Hh)].
  destruct (Gen._validate_voice _ _ "moderator") as [[]|e1] eqn:Hm;
    [|intros [= <-]; right; left; exact (_validate_voice_Raise _ _ _ _ Hlang Hm)].
  destruct (Gen._validate_voice _ _ "guest") as [[]|e1] eqn:Hg;
    [|intros [= <-]; right; left; exact (_validate_voice_Raise _ _ _ _ Hlang Hg)].
  cbn [mbind result_bind bind].
  destruct (Gen.kpipeline_init K _) as [[]|e0]; [discriminate|].
  intros H. right. right. exists e0. split; [reflexivity|].
  destruct (Gen.is_ImportError (exn_cls e0)); injection H as <-;
    split; intros; (reflexivity || discriminate).
Qed.

Lemma X17_constructor_failures_witness :
  mkdir E_w (path_of_string (Gen.cfg_audio_output_dir gen_cfg_w))
    = Raise (Exn (LibraryError "RuntimeError") "CUDA out of memory") \/
  exn_cls (Exn (LibraryError "RuntimeError") "CUDA out of memory") = ValueError \/
  exists e0,
    Gen.kpipeline_init
      {| Gen.kpipeline_init :=
           fun _ => Raise (Exn (LibraryError "RuntimeError") "CUDA out of memory");
         Gen.speak := Gen.speak K_w; Gen.lower := Gen.lower K_w |}
      (Gen.cfg_lang gen_cfg_w) = Raise e0 /\
    (Gen.is_ImportError (exn_cls e0) = true ->
     exn_cls (Exn (LibraryError "RuntimeError") "CUDA out of memory")
     = AudioGenerationError) /\
    (Gen.is_ImportError (exn_cls e0) = false ->
     Exn (LibraryError "RuntimeError") "CUDA out of memory" = e0).
Proof.
  apply (X17_constructor_failures E_w
           {| Gen.kpipeline_init :=
                fun _ => Raise (Exn (LibraryError "RuntimeError") "CUDA out of memory");
              Gen.speak := Gen.speak K_w; Gen.lower := Gen.lower K_w |}
           gen_cfg_w).
  reflexivity.
Defined.
(** ** Voice names from paths *)

Section VoiceNameFacts.

Lemma rev_app_append a : forall b c,
  String.rev_app (a +:+ b) c = String.rev_app b (String.rev_app a c).
Proof.
  induction a as [|x a IH]; intros b c; [reflexivity|].
  rewrite append_cons. simpl. apply IH.
Qed.

Lemma rev_app_acc a : forall c, String.rev_app a c = String.rev_app a "" +:+ c.
Proof.
  induction a as [|x a IH]; intros c; [reflexivity|]. simpl.
  rewrite (IH (String x c)), (IH (String x "")), append_assoc. reflexivity.
Qed.

Lemma prefix_append p t : String.prefix p (p +:+ t) = true.
Proof.
  induction p as [|c p IH]; [destruct t; reflexivity|].
  rewrite append_cons, prefix_cons.
  destruct (ascii_dec c c) as [_|Hne]; [exact IH|done].
Qed.

Lemma endswith_append suffix s : Gen.endswith suffix (s +:+ suffix) = true.
Proof.
  unfold Gen.endswith, String.rev.
  rewrite rev_app_append, (rev_app_acc suffix (String.rev_app s "")).
  apply prefix_append.
Qed.

Lemma rfind_dot_pt v : Gen.rfind_dot (v +:+ ".pt") = Some (String.length v).
Proof.
  induction v as [|c v IH]; [reflexivity|].
  rewrite append_cons. simpl. rewrite IH. reflexivity.
Qed.

Lemma length_append a b :
  String.length (a +:+ b) = String.length a + String.length b.
Proof.
  induction a as [|c a IH]; [reflexivity|]. rewrite append_cons. simpl.
  rewrite IH. reflexivity.
Qed.

Lemma substring_append a b : String.substring 0 (String.length a) (a +:+ b) = a.
Proof.
  induction a as [|c a IH]; [destruct b; reflexivity|].
  rewrite append_cons. simpl. rewrite IH. reflexivity.
Qed.

Lemma stem_pt p v :
  name p = v +:+ ".pt" -> v <> "" -> Gen.stem p = v.
Proof.
  intros Hname Hv. unfold Gen.stem. rewrite Hname, rfind_dot_pt, length_append.
  assert (0 < String.length v) as Hlen by (destruct v; [done|simpl; lia]).
  replace ((0 <? String.length v) && (String.length v <? String.length v + String.length ".pt" - 1))
    with true.
  - apply substring_append.
  - symmetry. apply andb_true_intro. split; apply Nat.ltb_lt; simpl; lia.
Qed.

Lemma split_slash_last f a : forall cur,
  no_slash f = true -> exists l, split_slash cur (a +:+ String "/" f) = l ++ [f].
Proof.
  intros cur Hf. revert cur. induction a as [|c a IH]; intros cur.
  - exists [cur]. rewrite append_nil_l. simpl.
    rewrite split_slash_no_slash by exact Hf. reflexivity.
  - rewrite append_cons. simpl. destruct (Ascii.eqb c "/").
    + destruct (IH "") as [l ->]. exists (cur :: l). reflexivity.
    + apply IH.
Qed.

Lemma name_plain f :
  no_slash f = true -> keep_part f = true -> name (path_of_string f) = f.
Proof.
  intros Hf Hk. unfold path_of_string, name. cbn [parts].
  rewrite split_slash_no_slash, append_nil_l by exact Hf.
  rewrite filter_cons_True by exact Hk. reflexivity.
Qed.

Lemma name_in_directory dir f :
  no_slash f = true -> keep_part f = true ->
  name (path_of_string (dir +:+ "/" +:+ f)) = f.
Proof.
  intros Hf Hk. unfold path_of_string, name. cbn [parts].
  destruct (split_slash_last f dir "" Hf) as [l Hl].
  change (dir +:+ "/" +:+ f) with (dir +:+ String "/" f).
  rewrite Hl, filter_app, filter_cons_True, filter_nil, last_snoc by exact Hk.
  reflexivity.
Qed.

Lemma keep_part_pt v : v <> "" -> keep_part (v +:+ ".pt") = true.
Proof.
  intros Hv. destruct v as [|c [|c' v]]; [done| |]; unfold keep_part.
  - apply negb_true_iff, orb_false_intro; apply String.eqb_neq; discriminate.
  - apply negb_true_iff, orb_false_intro; apply String.eqb_neq; discriminate.
Qed.

End VoiceNameFacts.

(** X18 ([_extract_voice_name]).  A voice given as the path of a [.pt] file
    is reduced to the file's name without the extension, whatever directory
    the path names; the name itself may contain dots. *)
Theorem X18_voice_from_path (dir v : string) :
  no_slash v = true -> v <> "" ->
  Gen._extract_voice_name (v +:+ ".pt") = v /\
  Gen._extract_voice_name (dir +:+ "/" +:+ v +:+ ".pt") = v.
Proof.
  intros Hs Hv.
  assert (no_slash (v +:+ ".pt") = true) as Hs'
    by (rewrite no_slash_app, Hs; reflexivity).
  pose proof (keep_part_pt v Hv) as Hk.
  unfold Gen._extract_voice_name. split.
  - rewrite endswith_append. apply stem_pt; [|exact Hv]. apply name_plain; assumption.
  - replace (dir +:+ "/" +:+ v +:+ ".pt") with ((dir +:+ "/" +:+ v) +:+ ".pt")
      by (rewrite !append_assoc; reflexivity).
    rewrite endswith_append. apply stem_pt; [|exact Hv].
    replace ((dir +:+ "/" +:+ v) +:+ ".pt") with (dir +:+ "/" +:+ (v +:+ ".pt"))
      by (rewrite !append_assoc; reflexivity).
    apply name_in_directory; assumption.
Qed.

Lemma X18_voice_from_path_witness :
  Gen._extract_voice_name ("bf_emma.v1" +:+ ".pt") = "bf_emma.v1" /\
  Gen._extract_voice_name ("/models/voices" +:+ "/" +:+ "bf_emma.v1" +:+ ".pt")
  = "bf_emma.v1".
Proof.
  apply (X18_voice_from_path "/models/voices" "bf_emma.v1").
  - reflexivity.
  - discriminate.
Defined.
(** ** The directory scan and the pipeline *)

Section ScanFacts.
Variable E : Env.

Lemma path_of_plain f :
  no_slash f = true -> keep_part f = true -> path_of_string f = MkPath false [f].
Proof.
  intros Hs Hk. unfold path_of_string.
  rewrite split_slash_no_slash, append_nil_l by exact Hs.
  rewrite filter_cons_True by exact Hk.
  destruct f as [|c f]; [reflexivity|]. simpl in Hs.
  apply andb_prop in Hs as [Hc _]. apply negb_true_iff in Hc.
  rewrite prefix_cons. destruct (ascii_dec "/" c) as [<-|]; [discriminate Hc|reflexivity].
Qed.

Lemma scan_elem self files nm :
  resolve_files E self None = Ok files ->
  nm ∈ glob_wav E (audio_dir self) ->
  joinpath (audio_dir self) (MkPath false [nm]) ∈ files.
Proof.
  unfold resolve_files. intros H Hnm.
  assert (joinpath (audio_dir self) (MkPath false [nm])
          ∈ (fun nm => joinpath (audio_dir self) (MkPath false [nm]))
              <$> Py.sorted id (glob_wav E (audio_dir self))) as Hin.
  { apply list_elem_of_fmap. exists nm. split; [reflexivity|].
    rewrite sorted_Permutation. exact Hnm. }
  destruct (_ <$> _) as [|x l]; [discriminate|].
  injection H as <-. exact Hin.
Qed.

Lemma joinpath_inj_dir p q nm f :
  joinpath p (MkPath false [nm]) = joinpath q (MkPath false [f]) -> p = q.
Proof.
  unfold joinpath. simpl. intros [= Ha Hp].
  apply app_inj_2 in Hp as [Hp _]; [|reflexivity].
  destruct p, q. simpl in *. congruence.
Qed.

End ScanFacts.

(** X19 ([assemble]).  The directory scan takes every [.wav] file of the
    directory it assembles into.  With the default output directory a file
    left there by an earlier run under the output name is therefore a
    segment of the new podcast: the path the call writes is one of the
    files it reads. *)
Theorem X19_previous_output_is_a_segment (E : Env) (self : AudioAssembler)
    (files : list Path) :
  no_slash (output_file self) = true ->
  keep_part (output_file self) = true ->
  output_file self ∈ glob_wav E (audio_dir self) ->
  resolve_files E self None = Ok files ->
  joinpath (audio_dir self) (path_of_string (output_file self)) ∈ files /\
  forall out, assemble E self None None = Ok out -> output_path out ∈ files.
Proof.
  intros Hs Hk Hin Hfiles.
  assert (joinpath (audio_dir self) (path_of_string (output_file self)) ∈ files) as H.
  { rewrite path_of_plain by assumption. apply (scan_elem E); assumption. }
  split; [exact H|].
  intros out Hout%assemble_Ok%assemble_body_Ok.
  destruct Hout as (files' & segs & _ & _ & _ & _ & Hpath & _).
  rewrite Hpath. exact H.
Qed.

Lemma X19_previous_output_is_a_segment_witness :
  joinpath (audio_dir (init cfg_w)) (path_of_string (output_file (init cfg_w)))
    ∈ [MkPath false ["output"; "00_intro.wav"]; MkPath false ["output"; "99_outro.wav"];
       MkPath false ["output"; "podcast.wav"]] /\
  forall out, assemble E_prev (init cfg_w) None None = Ok out ->
    output_path out
      ∈ [MkPath false ["output"; "00_intro.wav"]; MkPath false ["output"; "99_outro.wav"];
         MkPath false ["output"; "podcast.wav"]].
Proof.
  apply (X19_previous_output_is_a_segment E_prev (init cfg_w)).
  - reflexivity.
  - reflexivity.
  - left.
  - reflexivity.
Defined.
Section PipelineFacts.
Variable E : Env.
Variable K : Gen.Kokoro.
Variable S : Pipeline.Stages.

Lemma pipeline_init_Ok config self :
  Pipeline.init E K S config = Ok self ->
  exists audio_generator,
    Gen.init E K (Pipeline.generation config) = Ok audio_generator /\
    self = {| Pipeline.output_dir :=
                path_of_string (cfg_output_dir (Pipeline.assembly config));
              Pipeline.audio_generator := audio_generator;
              Pipeline.audio_assembler := init (Pipeline.assembly config);
              Pipeline.config_output_file :=
                cfg_output_file (cfg_audio (Pipeline.assembly config)) |}.
Proof.
  unfold Pipeline.init.
  destruct (mkdir E _) as [[]|e]; [|discriminate].
  destruct (Pipeline.simulation_init S) as [[]|e]; [|discriminate].
  destruct (Pipeline.translation_init S) as [[]|e]; [|discriminate].
  cbn [mbind result_bind bind].
  destruct (Gen.init E K _) as [g|e]; [|discriminate].
  intros [= <-]. exists g. split; reflexivity.
Qed.

(** With the audio stage skipped, [run] is the assembly of a directory
    scan: the generator is not consulted and no file of its is written. *)
Lemma run_skipped_audio self skip_stages podcast0 podcast d :
  Pipeline.skipped (default [] skip_stages) "audio" = true ->
  Pipeline.skipped (default [] skip_stages) "assembly" = false ->
  Pipeline.content_stage S self (default [] skip_stages) = Ok podcast0 ->
  Pipeline.translation_stage S self (default [] skip_stages) podcast0 = Ok podcast ->
  Pipeline.run E K S self skip_stages d
  = (d, match assemble E (Pipeline.audio_assembler self) None None with
        | Ok out => Ok (output_path out)
        | Raise e => Raise (Pipeline.wrap e)
        end).
Proof.
  intros Haudio Hassembly Hcontent Htranslation.
  unfold Pipeline.run, Pipeline.run_body, mbind, Gen.M_bind, Gen.bind, Gen.lift.
  rewrite Hcontent, Htranslation.
  unfold Pipeline.audio_stage, Pipeline.assembly_stage.
  rewrite Haudio, Hassembly. cbn [negb mret Gen.M_ret Gen.ret].
  destruct (assemble E _ None None) as [out|e]; reflexivity.
Qed.

End PipelineFacts.

(** X20 ([run], [assemble]).  When the audio stage is skipped, the assembler
    is handed no files and scans the directory [config.output_dir]; if no
    [.wav] file is there the caller gets a [PodcastGenerationError] whose
    message carries the two handlers' prefixes, and nothing has been
    written by the generator. *)
Theorem X20_skipped_audio_empty_directory (E : Env) (K : Gen.Kokoro)
    (S : Pipeline.Stages) (self : Pipeline.PodcastPipeline)
    (skip_stages : option (list (string * bool))) (podcast0 podcast : Podcast.t)
    (d : Gen.disk) :
  Pipeline.skipped (default [] skip_stages) "audio" = true ->
  Pipeline.skipped (default [] skip_stages) "assembly" = false ->
  Pipeline.content_stage S self (default [] skip_stages) = Ok podcast0 ->
  Pipeline.translation_stage S self (default [] skip_stages) podcast0 = Ok podcast ->
  glob_wav E (audio_dir (Pipeline.audio_assembler self)) = [] ->
  Pipeline.run E K S self skip_stages d
  = (d, Raise (Exn PodcastGenerationError
                 ("Pipeline execution failed: Podcast assembly failed: "
                  +:+ "No WAV files found in "
                  +:+ path_str (audio_dir (Pipeline.audio_assembler self))))).
Proof.
  intros Haudio Hassembly Hcontent Htranslation Hglob.
  rewrite (run_skipped_audio E K S self skip_stages podcast0 podcast d)
    by assumption.
  unfold assemble, assemble_body, resolve_files. rewrite Hglob. reflexivity.
Qed.

Lemma X20_skipped_audio_empty_directory_witness :
  Pipeline.run E_w K_w S_w pipeline_w (Some [("content", true); ("audio", true)]) []
  = ([], Raise (Exn PodcastGenerationError
                  ("Pipeline execution failed: Podcast assembly failed: "
                   +:+ "No WAV files found in "
                   +:+ path_str (audio_dir (Pipeline.audio_assembler pipeline_w))))).
Proof.
  apply (X20_skipped_audio_empty_directory E_w K_w S_w pipeline_w
           (Some [("content", true); ("audio", true)]) podcast_w podcast_w []);
    reflexivity.
Defined.

(** X21 ([__init__] of the pipeline, the generator and the assembler).  The
    generator writes into [config.audio.output_dir], the assembler scans
    [config.output_dir].  When the two settings name different paths, no
    path the scan returns is a path the generator writes a segment to. *)
Theorem X21_scan_misses_generated_paths (E : Env) (K : Gen.Kokoro)
    (S : Pipeline.Stages) (config : Pipeline.Config)
    (self : Pipeline.PodcastPipeline) (files : list Path) (file_name : string) :
  Pipeline.init E K S config = Ok self ->
  path_of_string (Gen.cfg_audio_output_dir (Pipeline.generation config))
    <> path_of_string (cfg_output_dir (Pipeline.assembly config)) ->
  no_slash file_name = true -> keep_part file_name = true ->
  resolve_files E (Pipeline.audio_assembler self) None = Ok files ->
  Gen.in_output_dir (Pipeline.audio_generator self) file_name ∉ files.
Proof.
  intros (g & Hg & ->)%pipeline_init_Ok Hne Hs Hk Hfiles Hin.
  apply init_Ok in Hg as (_ & _ & _ & _ & _ & _ & ->).
  cbn [Pipeline.audio_generator Pipeline.audio_assembler] in *.
  unfold Gen.in_output_dir in Hin. cbn [Gen.output_dir] in Hin.
  rewrite (path_of_plain file_name) in Hin by assumption.
  unfold resolve_files in Hfiles.
  destruct (_ <$> Py.sorted id _) as [|x l] eqn:Hscan; [discriminate|].
  injection Hfiles as <-. rewrite <- Hscan in Hin.
  apply list_elem_of_fmap in Hin as (nm & Heq & _).
  apply joinpath_inj_dir in Heq. exact (Hne Heq).
Qed.

Lemma X21_scan_misses_generated_paths_witness :
  Gen.in_output_dir (Pipeline.audio_generator pipeline_w) "00_intro.wav"
    ∉ [MkPath false ["output"; "00_intro.wav"]; MkPath false ["output"; "99_outro.wav"];
       MkPath false ["output"; "podcast.wav"]].
Proof.
  apply (X21_scan_misses_generated_paths E_prev K_w S_w pipeline_cfg_w pipeline_w
           _ "00_intro.wav"); try reflexivity.
  discriminate.
Defined.
(** ** The podcast and its dict *)

Section PodcastFacts.

Lemma set_fmap {V W} (f : V -> W) (d : list (string * V)) k v :
  Dict.set (prod_map id f <$> d) k (f v) = prod_map id f <$> Dict.set d k v.
Proof.
  induction d as [|[k' v'] d IH]; [reflexivity|].
  rewrite fmap_cons. change (prod_map id f (k', v')) with (k', f v').
  cbn [Dict.set]. destruct (String.eqb k' k); [reflexivity|].
  rewrite IH. reflexivity.
Qed.

Lemma dict_update_fmap {V W} (f : V -> W) entries : forall d : list (string * V),
  dict_update (prod_map id f <$> d) (prod_map id f <$> entries)
  = prod_map id f <$> dict_update d entries.
Proof.
  induction entries as [|[k v] entries IH]; intros d; [reflexivity|].
  change (dict_update (Dict.set (prod_map id f <$> d) k (f v)) (prod_map id f <$> entries)
          = prod_map id f <$> dict_update (Dict.set d k v) entries).
  rewrite set_fmap. apply IH.
Qed.

Lemma conversations_by_title p :
  Podcast.conversations p
  = prod_map id exchanges_json <$> by_title (Podcast.topics p).
Proof.
  unfold Podcast.conversations, by_title.
  rewrite <- (dict_update_fmap exchanges_json _ []).
  unfold dict_update. rewrite <- list_fmap_compose, foldl_fmap. reflexivity.
Qed.

Lemma exchanges_of_dicts exchanges :
  mapM Podcast.exchange_of (Exchange.__dict__ <$> exchanges)
  = Ok (Exchange.as_obj <$> exchanges).
Proof.
  induction exchanges as [|exchange rest IH]; [reflexivity|].
  cbn [fmap list_fmap mapM]. fold (mapM Podcast.exchange_of).
  change (list_fmap _ _ Exchange.__dict__ rest) with (Exchange.__dict__ <$> rest).
  rewrite IH. reflexivity.
Qed.

Lemma topics_of_conversations (d : list (string * list Exchange.t)) :
  mapM Podcast.topic_of (prod_map id exchanges_json <$> d)
  = Ok ((fun item => Topic.MakeObj item.1 (Exchange.as_obj <$> item.2)) <$> d).
Proof.
  induction d as [|[k exchanges] d IH]; [reflexivity|].
  cbn [fmap list_fmap mapM]. fold (mapM Podcast.topic_of).
  change (list_fmap _ _ (prod_map id exchanges_json) d)
    with (prod_map id exchanges_json <$> d).
  rewrite IH. unfold Podcast.topic_of. cbn [prod_map fst snd id exchanges_json Json.iter].
  cbn [mbind result_bind bind]. rewrite exchanges_of_dicts. reflexivity.
Qed.

Lemma from_dict_to_dict now p :
  Podcast.from_dict now (Podcast.to_dict p)
  = Ok {| Podcast.o_title := Json.Str (Podcast.title p);
          Podcast.o_description := Json.Str (Podcast.description p);
          Podcast.o_intro := Json.Str (Podcast.intro p);
          Podcast.o_outro := Json.Str (Podcast.outro p);
          Podcast.o_topics :=
            (fun item => Topic.MakeObj item.1 (Exchange.as_obj <$> item.2))
              <$> by_title (Podcast.topics p);
          Podcast.o_document_text := Json.Str (Podcast.document_text p);
          Podcast.o_created_at := Json.Str (Podcast.created_at p);
          Podcast.o_original_intro := Json.of_option (truthy (Podcast.original_intro p));
          Podcast.o_original_outro := Json.of_option (truthy (Podcast.original_outro p)) |}.
Proof.
  assert (Podcast.from_dict now (Podcast.to_dict p)
          = (topics ← mapM Podcast.topic_of (Podcast.conversations p);
             Ok {| Podcast.o_title := Json.Str (Podcast.title p);
                   Podcast.o_description := Json.Str (Podcast.description p);
                   Podcast.o_intro := Json.Str (Podcast.intro p);
                   Podcast.o_outro := Json.Str (Podcast.outro p);
                   Podcast.o_topics := topics;
                   Podcast.o_document_text := Json.Str (Podcast.document_text p);
                   Podcast.o_created_at := Json.Str (Podcast.created_at p);
                   Podcast.o_original_intro :=
                     Json.of_option (truthy (Podcast.original_intro p));
                   Podcast.o_original_outro :=
                     Json.of_option (truthy (Podcast.original_outro p)) |})) as ->.
  { destruct p as [t de i o ts doc cr [[|c1 s1]|] [[|c2 s2]|]]; reflexivity. }
  rewrite conversations_by_title, topics_of_conversations. reflexivity.
Qed.

Lemma set_keys {V} (d : list (string * V)) k v :
  (Dict.set d k v).*1 = if decide (k ∈ d.*1) then d.*1 else d.*1 ++ [k].
Proof.
  induction d as [|[k' v'] d IH]; [reflexivity|]. cbn [Dict.set].
  destruct (String.eqb_spec k' k) as [->|Hne]; rewrite !fmap_cons; cbn [fst].
  - rewrite decide_True by left. reflexivity.
  - rewrite IH. destruct (decide (k ∈ d.*1)) as [Hin|Hout].
    + rewrite decide_True by (right; exact Hin). reflexivity.
    + rewrite decide_False; [reflexivity|].
      intros [Heq|Hin]%elem_of_cons; [congruence|contradiction].
Qed.

Lemma dict_update_keys {V} (entries : list (string * V)) : forall d,
  NoDup d.*1 ->
  NoDup (dict_update d entries).*1 /\
  forall k, k ∈ (dict_update d entries).*1 -> k ∈ d.*1 \/ k ∈ entries.*1.
Proof.
  induction entries as [|[k v] entries IH]; intros d Hd.
  - split; [exact Hd|]. intros k Hk. left. exact Hk.
  - unfold dict_update. cbn [foldl fst snd]. fold (dict_update (Dict.set d k v) entries).
    assert (NoDup (Dict.set d k v).*1) as Hset.
    { rewrite set_keys. destruct (decide (k ∈ d.*1)) as [Hin|Hout]; [exact Hd|].
      apply NoDup_app. split; [exact Hd|]. split.
      - intros x Hx [->|Hx']%elem_of_cons; [contradiction|inversion Hx'].
      - apply NoDup_singleton. }
    destruct (IH _ Hset) as [Hnd Hsub]. split; [exact Hnd|].
    intros x Hx. apply Hsub in Hx as [Hx|Hx].
    + rewrite set_keys in Hx. destruct (decide (k ∈ d.*1)) as [Hin|Hout].
      * left. exact Hx.
      * apply elem_of_app in Hx as [Hx|Hx]; [left; exact Hx|].
        apply list_elem_of_singleton in Hx as ->. right. left.
    + right. right. exact Hx.
Qed.

Lemma by_title_length topics :
  length (by_title topics) <= length topics /\
  (length (by_title topics) = length topics -> NoDup (Topic.title <$> topics)).
Proof.
  unfold by_title.
  destruct (dict_update_keys
              ((fun topic => (Topic.title topic, Topic.exchanges topic)) <$> topics)
              [] (NoDup_nil_2)) as [Hnd Hsub].
  rewrite <- list_fmap_compose in Hsub.
  assert ((dict_update []
             ((fun topic => (Topic.title topic, Topic.exchanges topic)) <$> topics)).*1
          ⊆+ Topic.title <$> topics) as Hsubm.
  { apply NoDup_submseteq; [exact Hnd|]. intros k Hk.
    destruct (Hsub k Hk) as [Hin|Hin]; [inversion Hin|exact Hin]. }
  pose proof (submseteq_length _ _ Hsubm) as Hle. rewrite !length_fmap in Hle.
  split; [exact Hle|]. intros Heq.
  rewrite <- (submseteq_length_Permutation _ _ Hsubm); [exact Hnd|].
  rewrite !length_fmap. lia.
Qed.

Lemma by_title_NoDup topics :
  NoDup (Topic.title <$> topics) ->
  by_title topics = (fun topic => (Topic.title topic, Topic.exchanges topic)) <$> topics.
Proof.
  intros Hnd. unfold by_title. rewrite dict_update_fresh; [reflexivity|].
  rewrite <- list_fmap_compose. exact Hnd.
Qed.

End PodcastFacts.

(** X22 ([to_dict], [from_dict]).  A podcast whose topics have pairwise
    distinct titles comes back from its own dict as it was, topics and
    exchanges in order, except that an empty [original_intro] or
    [original_outro] comes back as [None]: [to_dict] writes these two keys
    only for non-empty strings. *)
Theorem X22_podcast_round_trip (now : string) (p : Podcast.t) :
  NoDup (Topic.title <$> Podcast.topics p) ->
  Podcast.from_dict now (Podcast.to_dict p) = Ok (Podcast.as_obj (reloaded p)).
Proof.
  intros Hnd. rewrite from_dict_to_dict, (by_title_NoDup _ Hnd).
  rewrite <- list_fmap_compose. reflexivity.
Qed.

Lemma X22_podcast_round_trip_witness :
  Podcast.from_dict "2025-01-01T00:00:00" (Podcast.to_dict podcast_w)
  = Ok (Podcast.as_obj (reloaded podcast_w)).
Proof.
  apply (X22_podcast_round_trip "2025-01-01T00:00:00" podcast_w).
  apply NoDup_singleton.
Defined.

(** X23 ([to_dict], [from_dict]).  [to_dict] keys the conversations by topic
    title.  When two topics share a title, the podcast that comes back has
    fewer topics than the one written (whose number [total_topics] still
    records): the later topic's exchanges take the place of the earlier
    topic's. *)
Theorem X23_same_title_topics_merge (now : string) (p : Podcast.t) :
  ~ NoDup (Topic.title <$> Podcast.topics p) ->
  exists obj,
    Podcast.from_dict now (Podcast.to_dict p) = Ok obj /\
    length (Podcast.o_topics obj) < length (Podcast.topics p) /\
    Json.get (Podcast.to_dict p) "metadata" Json.Null
    ≫= (fun m => Json.get m "total_topics" Json.Null)
    = Ok (Json.Int (Z.of_nat (length (Podcast.topics p)))).
Proof.
  intros Hdup. eexists. split; [apply from_dict_to_dict|]. split; [|reflexivity].
  cbn [Podcast.o_topics]. rewrite length_fmap.
  destruct (by_title_length (Podcast.topics p)) as [Hle Heq].
  destruct (decide (length (by_title (Podcast.topics p)) = length (Podcast.topics p)))
    as [Hlen|Hlen]; [|lia].
  destruct (Hdup (Heq Hlen)).
Qed.

Lemma X23_same_title_topics_merge_witness :
  exists obj,
    Podcast.from_dict "2025-01-01T00:00:00" (Podcast.to_dict podcast_twice) = Ok obj /\
    length (Podcast.o_topics obj) < length (Podcast.topics podcast_twice) /\
    Json.get (Podcast.to_dict podcast_twice) "metadata" Json.Null
    ≫= (fun m => Json.get m "total_topics" Json.Null)
    = Ok (Json.Int (Z.of_nat (length (Podcast.topics podcast_twice)))).
Proof.
  apply (X23_same_title_topics_merge "2025-01-01T00:00:00" podcast_twice).
  intros Hnd. simpl in Hnd. apply NoDup_cons in Hnd as [Hnot _].
  apply Hnot. left.
Defined.

Example same_title_run :
  (obj ← Podcast.from_dict "now" (Podcast.to_dict podcast_twice);
   Ok (Podcast.o_topics obj))
  = Ok [Topic.MakeObj "Agents" [Exchange.as_obj (say "Guest" "Because.")]].
Proof. reflexivity. Qed.
(** ** Model names and providers *)

Section ProviderFacts.

Lemma prefix_app n a b :
  String.prefix n a = true -> String.prefix n (a +:+ b) = true.
Proof.
  intros [rest ->]%prefix_true. rewrite append_assoc. apply prefix_append.
Qed.

Lemma str_in_app_l n a b : Py.str_in n a = true -> Py.str_in n (a +:+ b) = true.
Proof.
  induction a as [|c a IH].
  - intros H. destruct n as [|x n]; [destruct b; reflexivity|discriminate H].
  - rewrite append_cons, !str_in_cons. intros [H|H]%orb_prop.
    + apply (prefix_app n (String c a) b) in H. rewrite append_cons in H.
      rewrite H. reflexivity.
    + rewrite (IH H). apply orb_true_r.
Qed.

Lemma slash_prefix_false p name :
  Py.str_in "/" p = true -> Py.str_in "/" name = false -> String.prefix p name = false.
Proof.
  intros Hp Hname. destruct (String.prefix p name) eqn:Hpre; [|reflexivity].
  apply prefix_true in Hpre as [rest ->].
  rewrite (str_in_app_l "/" p rest Hp) in Hname. discriminate.
Qed.

Lemma get_provider_for_model_cases model_name :
  (exists model, model_name = "ollama/" +:+ model /\
     ModelConfig.get_provider_for_model model_name = Ok ("ollama", model)) \/
  (exists model, model_name = "openai/" +:+ model /\
     ModelConfig.get_provider_for_model model_name = Ok ("openai", model)) \/
  (exists model, model_name = "anthropic/" +:+ model /\
     ModelConfig.get_provider_for_model model_name = Ok ("anthropic", model)) \/
  (exists model, model_name = "groq/" +:+ model /\
     ModelConfig.get_provider_for_model model_name = Ok ("groq", model)) \/
  (String.prefix "ollama/" model_name = false /\
   String.prefix "openai/" model_name = false /\
   String.prefix "anthropic/" model_name = false /\
   String.prefix "groq/" model_name = false /\
   ModelConfig.get_provider_for_model model_name = Ok ("ollama", model_name)).
Proof.
  unfold ModelConfig.get_provider_for_model.
  destruct (String.prefix "ollama/" model_name) eqn:H1.
  { apply prefix_true in H1 as [model ->]. left. exists model. split; reflexivity. }
  destruct (String.prefix "openai/" model_name) eqn:H2.
  { apply prefix_true in H2 as [model ->]. right. left. exists model. split; reflexivity. }
  destruct (String.prefix "anthropic/" model_name) eqn:H3.
  { apply prefix_true in H3 as [model ->]. right. right. left. exists model.
    split; reflexivity. }
  destruct (String.prefix "groq/" model_name) eqn:H4.
  { apply prefix_true in H4 as [model ->]. right. right. right. left. exists model.
    split; reflexivity. }
  right. right. right. right. repeat split.
Qed.

Lemma get_provider_for_model_known provider model :
  provider ∈ known_providers ->
  ModelConfig.get_provider_for_model (provider +:+ "/" +:+ model) = Ok (provider, model).
Proof.
  intros Hp. unfold known_providers in Hp.
  unfold ModelConfig.get_provider_for_model.
  repeat (apply elem_of_cons in Hp as [->|Hp]).
  - change ("ollama" +:+ "/" +:+ model) with ("ollama/" +:+ model).
    rewrite prefix_append. reflexivity.
  - change ("openai" +:+ "/" +:+ model) with ("openai/" +:+ model).
    rewrite prefix_append. reflexivity.
  - change ("anthropic" +:+ "/" +:+ model) with ("anthropic/" +:+ model).
    rewrite prefix_append. reflexivity.
  - change ("groq" +:+ "/" +:+ model) with ("groq/" +:+ model).
    rewrite prefix_append. reflexivity.
  - apply elem_of_nil in Hp. contradiction.
Qed.

End ProviderFacts.

(** X24 ([get_provider_for_model]).  A model name written as one of the
    four known providers, a slash and a model is split into the two, for
    every model (slashes in it included).  The method never fails: every
    other name, one with an unknown provider before the slash included, is
    returned whole as an [ollama] model. *)
Theorem X24_provider_of_model (provider model : string) :
  provider ∈ known_providers ->
  ModelConfig.get_provider_for_model (provider +:+ "/" +:+ model) = Ok (provider, model) /\
  forall model_name, exists p m,
    ModelConfig.get_provider_for_model model_name = Ok (p, m) /\
    p ∈ known_providers /\
    (model_name = p +:+ "/" +:+ m \/ (p = "ollama" /\ m = model_name)).
Proof.
  intros Hp. split; [apply get_provider_for_model_known, Hp|].
  intros model_name.
  destruct (get_provider_for_model_cases model_name)
    as [(m & -> & H)|[(m & -> & H)|[(m & -> & H)|[(m & -> & H)|(_ & _ & _ & _ & H)]]]];
      rewrite H; eexists _, _; (split; [reflexivity|]).
  - split; [left|left; reflexivity].
  - split; [right; left|left; reflexivity].
  - split; [do 2 right; left|left; reflexivity].
  - split; [do 3 right; left|left; reflexivity].
  - split; [left|right; split; reflexivity].
Qed.

Lemma X24_provider_of_model_witness :
  ModelConfig.get_provider_for_model ("groq" +:+ "/" +:+ "meta/llama-3")
    = Ok ("groq", "meta/llama-3") /\
  forall model_name, exists p m,
    ModelConfig.get_provider_for_model model_name = Ok (p, m) /\
    p ∈ known_providers /\
    (model_name = p +:+ "/" +:+ m \/ (p = "ollama" /\ m = model_name)).
Proof.
  apply (X24_provider_of_model "groq" "meta/llama-3").
  do 3 right. left.
Defined.

(** X25 ([create_llm], [get_provider_for_model]).  Whatever the model name,
    [create_llm] calls the constructor of one of the four providers after
    setting that provider's environment variable: its last branch, the
    [ValueError] for an unsupported provider, is never taken. *)
Theorem X25_llm_for_every_name {LLM : Type} (B : LLMFactory.Backends LLM)
    (model_name : string) (model_config : ModelConfig.t) (context_window : Z)
    (additional_kwargs : option (list (string * Json.value)))
    (env : LLMFactory.environ) :
  exists provider model r,
    ModelConfig.get_provider_for_model model_name = Ok (provider, model) /\
    LLMFactory.create_llm B model_name model_config context_window additional_kwargs env
    = (LLMFactory._setup_environment_variables provider
         (ModelConfig.providers model_config) env, r) /\
    ((provider = "ollama" /\
      r = LLMFactory.Ollama B model context_window
            (ModelConfig.ollama_base_url (ModelConfig.providers model_config))
            (default [] additional_kwargs)) \/
     (provider = "openai" /\
      r = LLMFactory.OpenAI B model context_window
            (ModelConfig.openai_api_key (ModelConfig.providers model_config))
            (default [] additional_kwargs)) \/
     (provider = "anthropic" /\
      r = LLMFactory.Anthropic B model context_window
            (ModelConfig.anthropic_api_key (ModelConfig.providers model_config))
            (default [] additional_kwargs)) \/
     (provider = "groq" /\
      r = LLMFactory.Groq B model context_window
            (ModelConfig.groq_api_key (ModelConfig.providers model_config))
            (default [] additional_kwargs))).
Proof.
  unfold LLMFactory.create_llm.
  destruct (get_provider_for_model_cases model_name)
    as [(m & _ & H)|[(m & _ & H)|[(m & _ & H)|[(m & _ & H)|(_ & _ & _ & _ & H)]]]];
    rewrite H; eexists _, _, _; (split; [reflexivity|]); (split; [reflexivity|]).
  - left. split; reflexivity.
  - right. left. split; reflexivity.
  - right. right. left. split; reflexivity.
  - right. right. right. split; reflexivity.
  - left. split; reflexivity.
Qed.

Example unknown_provider_goes_to_ollama :
  LLMFactory.create_llm B_w "mistral/7b" models_w 4096 None []
  = ([], Ok (CallOllama "mistral/7b" 4096 "http://localhost:11434")).
Proof. reflexivity. Qed.

Lemma with_provider_neutral model_name :
  ModelConfig.get_provider_for_model (Cli.with_provider model_name)
  = ModelConfig.get_provider_for_model model_name.
Proof.
  unfold Cli.with_provider.
  destruct (String.eqb model_name ""); [reflexivity|].
  destruct (Py.str_in "/" model_name) eqn:Hslash; [reflexivity|]. cbn [negb andb].
  change ("ollama/" +:+ model_name) with ("ollama" +:+ "/" +:+ model_name).
  rewrite (get_provider_for_model_known "ollama" model_name) by left.
  unfold ModelConfig.get_provider_for_model.
  rewrite !slash_prefix_false by (reflexivity || exact Hslash). reflexivity.
Qed.

(** X26 ([main], [get_provider_for_model], [create_llm]).  The prefix
    [ollama/] that [main] puts before a model name without a slash changes
    nothing downstream: each of the six names it rewrites resolves to the
    same provider and model as before, and [create_llm] makes the same call
    for a name with or without the prefix. *)
Theorem X26_prefix_is_neutral {LLM : Type} (B : LLMFactory.Backends LLM)
    (models : ModelConfig.t) (model_name : string) (context_window : Z)
    (additional_kwargs : option (list (string * Json.value)))
    (env : LLMFactory.environ) :
  ModelConfig.get_provider_for_model <$> model_fields (Cli.normalize_models models)
    = ModelConfig.get_provider_for_model <$> model_fields models /\
  ModelConfig.get_provider_for_model (Cli.with_provider model_name)
    = ModelConfig.get_provider_for_model model_name /\
  LLMFactory.create_llm B (Cli.with_provider model_name) models context_window
    additional_kwargs env
  = LLMFactory.create_llm B model_name models context_window additional_kwargs env.
Proof.
  split; [|split].
  - unfold model_fields, Cli.normalize_models. cbn.
    rewrite !with_provider_neutral. reflexivity.
  - apply with_provider_neutral.
  - unfold LLMFactory.create_llm. rewrite with_provider_neutral. reflexivity.
Qed.
(** ** The configuration dict of the command line *)

Section HeapFacts.

Lemma cli_bind_inv {A B} (m : Cli.M A) (k : A -> Cli.M B) h h' b :
  (m ≫= k) h = (h', Ok b) ->
  exists h1 a, m h = (h1, Ok a) /\ k a h1 = (h', Ok b).
Proof.
  unfold mbind, Cli.M_bind, Cli.bind.
  destruct (m h) as [h1 [a|e]]; [eauto|discriminate].
Qed.

Lemma writes_ret {A} keys (a : A) : writes keys (Cli.ret a).
Proof. intros h h' r [= <- _]. auto. Qed.

Lemma writes_raise {A} keys cls message : writes keys (@Cli.raise A cls message).
Proof. intros h h' r [= <- _]. auto. Qed.

Lemma writes_bind {A B} keys (m : Cli.M A) (k : A -> Cli.M B) :
  writes keys m -> (forall a, writes keys (k a)) -> writes keys (m ≫= k).
Proof.
  intros Hm Hk h h' r. unfold mbind, Cli.M_bind, Cli.bind.
  destruct (m h) as [h1 [a|e]] eqn:H1; intros H.
  - destruct (Hm _ _ _ H1) as [Hm1 Hm2]. destruct (Hk a _ _ _ H) as [Hk1 Hk2].
    split; eauto.
  - injection H as <- <-. exact (Hm _ _ _ H1).
Qed.

Lemma writes_mono {A} keys keys' (m : Cli.M A) :
  (forall k, k ∈ keys -> k ∈ keys') -> writes keys m -> writes keys' m.
Proof.
  intros Hsub Hm h h' r H. destruct (Hm _ _ _ H) as [H1 H2].
  split; [|exact H2]. intros c k v Hk. apply H1. intros Hin. apply Hk, Hsub, Hin.
Qed.

Lemma writes_read keys l : writes keys (Cli.read l).
Proof.
  intros h h' r. unfold Cli.read. destruct (h !! l); intros [= <- _]; auto.
Qed.

Lemma writes_alloc keys d : writes keys (Cli.alloc d).
Proof.
  intros h h' r [= <- _]. split.
  - intros c k v _ (dc & Hc & Hk). exists dc. split; [|exact Hk].
    apply lookup_app_l_Some, Hc.
  - intros c [dc Hc]. exists dc. apply lookup_app_l_Some, Hc.
Qed.

Lemma get_set_ne {V} (d : list (string * V)) k k' v :
  k <> k' -> Dict.get (Dict.set d k' v) k = Dict.get d k.
Proof.
  intros Hne. induction d as [|[k0 v0] d IH]; cbn [Dict.set Dict.get].
  - destruct (String.eqb_spec k' k); [congruence|reflexivity].
  - destruct (String.eqb_spec k0 k') as [->|Hne0]; cbn [Dict.get].
    + destruct (String.eqb_spec k' k); [congruence|reflexivity].
    + rewrite IH. reflexivity.
Qed.

Lemma get_set_eq {V} (d : list (string * V)) k v :
  Dict.get (Dict.set d k v) k = Some v.
Proof.
  induction d as [|[k0 v0] d IH]; cbn [Dict.set Dict.get].
  - rewrite String.eqb_refl. reflexivity.
  - destruct (String.eqb_spec k0 k) as [->|Hne]; cbn [Dict.get].
    + rewrite String.eqb_refl. reflexivity.
    + destruct (String.eqb_spec k0 k); [congruence|exact IH].
Qed.

Lemma writes_setitem keys v k x : k ∈ keys -> writes keys (Cli.setitem v k x).
Proof.
  intros Hk. destruct v; try apply writes_raise.
  intros h h' r. unfold Cli.setitem, mbind, Cli.M_bind, Cli.bind, Cli.read, Cli.write.
  destruct (h !! l) as [d|] eqn:Hl; intros [= <- _]; [|auto].
  split.
  - intros c k0 v0 Hk0 (dc & Hc & Hget).
    destruct (decide (c = l)) as [->|Hne].
    + exists (Dict.set d k x). split.
      * apply list_lookup_insert_eq. apply lookup_lt_Some in Hl. exact Hl.
      * rewrite Hl in Hc. injection Hc as <-. rewrite get_set_ne; [exact Hget|].
        intros ->. contradiction.
    + exists dc. split; [|exact Hget]. rewrite list_lookup_insert_ne by congruence.
      exact Hc.
  - intros c [dc Hc]. apply lookup_lt_is_Some. rewrite length_insert.
    apply lookup_lt_Some in Hc. exact Hc.
Qed.

Lemma writes_getitem keys v k : writes keys (Cli.getitem v k).
Proof.
  destruct v; try apply writes_raise. unfold Cli.getitem.
  apply writes_bind; [apply writes_read|]. intros d.
  destruct (Dict.get d k); [apply writes_ret|apply writes_raise].
Qed.

Lemma writes_contains keys v k : writes keys (Cli.contains v k).
Proof.
  destruct v; try apply writes_raise; try apply writes_ret. unfold Cli.contains.
  apply writes_bind; [apply writes_read|]. intros d. apply writes_ret.
Qed.

Lemma writes_set_if_given keys d k o : k ∈ keys -> writes keys (Cli.set_if_given d k o).
Proof.
  intros Hk. destruct o; [apply writes_setitem, Hk|apply writes_ret].
Qed.

Lemma writes_ensure_dict keys d k : k ∈ keys -> writes keys (Cli.ensure_dict d k).
Proof.
  intros Hk. unfold Cli.ensure_dict.
  apply writes_bind; [apply writes_contains|]. intros has.
  destruct has; cbn [negb]; [apply writes_ret|].
  apply writes_bind; [apply writes_alloc|]. intros new. apply writes_setitem, Hk.
Qed.

Lemma writes_set_api_key keys u k arg env variable :
  k ∈ keys -> writes keys (Cli.set_api_key u k arg env variable).
Proof.
  intros Hk. unfold Cli.set_api_key.
  destruct (Cli.given arg), (Dict.get env variable); try apply writes_ret;
    (apply writes_bind; [apply writes_getitem|]; intros models;
     apply writes_bind; [apply writes_getitem|]; intros providers;
     apply writes_setitem, Hk).
Qed.

Lemma holds_getitem c k v h :
  holds c k v h -> Cli.getitem (Cli.PRef c) k h = (h, Ok v).
Proof.
  intros (d & Hc & Hk). unfold Cli.getitem, mbind, Cli.M_bind, Cli.bind, Cli.read.
  rewrite Hc, Hk. reflexivity.
Qed.

Lemma get_Some_key {V} (d : list (string * V)) k v : Dict.get d k = Some v -> k ∈ d.*1.
Proof.
  induction d as [|[k0 v0] d IH]; [discriminate|]. cbn [Dict.get].
  destruct (String.eqb_spec k0 k) as [->|Hne]; intros H.
  - left.
  - right. apply IH, H.
Qed.

Lemma holds_ensure_dict c k v h :
  holds c k v h -> Cli.ensure_dict (Cli.PRef c) k h = (h, Ok tt).
Proof.
  intros (d & Hc & Hk).
  unfold Cli.ensure_dict, Cli.contains, mbind, Cli.M_bind, Cli.bind, Cli.read.
  rewrite Hc. unfold Cli.ret at 1.
  rewrite bool_decide_eq_true_2 by (eapply get_Some_key, Hk). reflexivity.
Qed.

End HeapFacts.
Section OverrideFacts.

Lemma holds_setitem l k x h h' r :
  is_Some (h !! l) -> Cli.setitem (Cli.PRef l) k x h = (h', r) -> holds l k x h'.
Proof.
  intros [d Hl]. unfold Cli.setitem, mbind, Cli.M_bind, Cli.bind, Cli.read, Cli.write.
  rewrite Hl. intros [= <- _]. exists (Dict.set d k x). split.
  - apply list_lookup_insert_eq. apply lookup_lt_Some in Hl. exact Hl.
  - apply get_set_eq.
Qed.

Lemma writes_output_dir u (o : option string) :
  writes ["output_dir"; "audio"]
    (match o with
     | Some dir =>
         _ ← Cli.setitem u "output_dir" (Cli.PStr dir);
         _ ← Cli.ensure_dict u "audio";
         audio ← Cli.getitem u "audio";
         Cli.setitem audio "output_dir" (Cli.PStr dir)
     | None => Cli.ret tt
     end).
Proof.
  destruct o as [dir|]; [|apply writes_ret].
  apply writes_bind; [apply writes_setitem; left|]. intros _.
  apply writes_bind; [apply writes_ensure_dict; right; left|]. intros _.
  apply writes_bind; [apply writes_getitem|]. intros audio.
  apply writes_setitem. left.
Qed.

Lemma writes_log_file u (o : option string) :
  writes ["file"]
    (match o with
     | Some file =>
         logging ← Cli.getitem u "logging";
         Cli.setitem logging "file" (Cli.PStr file)
     | None => Cli.ret tt
     end).
Proof.
  destruct o as [file|]; [|apply writes_ret].
  apply writes_bind; [apply writes_getitem|]. intros logging.
  apply writes_setitem. left.
Qed.

Lemma writes_verbose u (b : bool) :
  writes ["verbose"]
    (if b then
       logging ← Cli.getitem u "logging";
       Cli.setitem logging "verbose" (Cli.PBool true)
     else Cli.ret tt).
Proof.
  destruct b; [|apply writes_ret].
  apply writes_bind; [apply writes_getitem|]. intros logging.
  apply writes_setitem. left.
Qed.

Lemma writes_providers u (has : bool) :
  writes ["providers"]
    (if negb has then
       new ← Cli.alloc [];
       models ← Cli.getitem u "models";
       Cli.setitem models "providers" (Cli.PRef new)
     else Cli.ret tt).
Proof.
  destruct has; cbn [negb]; [apply writes_ret|].
  apply writes_bind; [apply writes_alloc|]. intros new.
  apply writes_bind; [apply writes_getitem|]. intros models.
  apply writes_setitem. left.
Qed.

Lemma writes_ollama_url u (o : option string) :
  writes ["ollama_base_url"]
    (match o with
     | Some url =>
         models ← Cli.getitem u "models";
         providers ← Cli.getitem models "providers";
         Cli.setitem providers "ollama_base_url" (Cli.PStr url)
     | None => Cli.ret tt
     end).
Proof.
  destruct o as [url|]; [|apply writes_ret].
  apply writes_bind; [apply writes_getitem|]. intros models.
  apply writes_bind; [apply writes_getitem|]. intros providers.
  apply writes_setitem. left.
Qed.

End OverrideFacts.

Ltac not_among :=
  let H := fresh in
  intros H; repeat (apply elem_of_cons in H as [H|H]; [discriminate H|]);
  apply elem_of_nil in H; exact H.

(** X27 ([override_config]).  The copy [override_config] makes of the
    configuration is shallow.  When the configuration it is given has a
    [logging] section, the returned dict is a new object, but its [logging]
    entry is the caller's own section, and the caller's section has been
    assigned the [--log-level] of the command line: the original
    configuration is modified. *)
Theorem X27_override_config_shares_sections (config l : Cli.loc)
    (d : list (string * Cli.pyval)) (args : Cli.Namespace)
    (env : list (string * string)) (h h' : Cli.heap) (updated : Cli.loc) :
  h !! config = Some d ->
  Dict.get d "logging" = Some (Cli.PRef l) ->
  is_Some (h !! l) ->
  Cli.override_config config args env h = (h', Ok updated) ->
  updated <> config /\
  holds updated "logging" (Cli.PRef l) h' /\
  holds config "logging" (Cli.PRef l) h' /\
  holds l "level" (Cli.PStr (Cli.log_level args)) h'.
Proof.
  intros Hconfig Hlogging Hl H. unfold Cli.override_config in H.
  apply cli_bind_inv in H as (h1 & u & Hcopy & H).
  unfold Cli.copy, Cli.read, Cli.alloc, mbind, Cli.M_bind, Cli.bind in Hcopy.
  rewrite Hconfig in Hcopy. injection Hcopy as <- <-.
  assert (holds config "logging" (Cli.PRef l) (h ++ [d])) as Fc.
  { exists d. split; [apply lookup_app_l_Some, Hconfig|exact Hlogging]. }
  assert (holds (length h) "logging" (Cli.PRef l) (h ++ [d])) as Fu.
  { exists d. split; [|exact Hlogging]. rewrite lookup_app_r by lia.
    rewrite Nat.sub_diag. reflexivity. }
  assert (is_Some ((h ++ [d]) !! l)) as Fl.
  { destruct Hl as [dl Hdl]. exists dl. apply lookup_app_l_Some, Hdl. }
  assert (length h <> config) as Hne.
  { apply lookup_lt_Some in Hconfig. lia. }
  (* the statements before the logging section *)
  apply cli_bind_inv in H as (h2 & [] & Hs & H).
  destruct (writes_set_if_given ["pdf_path"] _ _ _ ltac:(left) _ _ _ Hs) as [W1 W2].
  apply W1 in Fc; [|not_among]. apply W1 in Fu; [|not_among]. apply W2 in Fl.
  clear W1 W2 Hs.
  apply cli_bind_inv in H as (h3 & [] & Hs & H).
  destruct (writes_set_if_given ["num_topics"] _ _ _ ltac:(left) _ _ _ Hs) as [W1 W2].
  apply W1 in Fc; [|not_among]. apply W1 in Fu; [|not_among]. apply W2 in Fl.
  clear W1 W2 Hs.
  apply cli_bind_inv in H as (h4 & [] & Hs & H).
  destruct (writes_set_if_given ["num_turns"] _ _ _ ltac:(left) _ _ _ Hs) as [W1 W2].
  apply W1 in Fc; [|not_among]. apply W1 in Fu; [|not_among]. apply W2 in Fl.
  clear W1 W2 Hs.
  apply cli_bind_inv in H as (h5 & [] & Hs & H).
  destruct (writes_output_dir _ _ _ _ _ Hs) as [W1 W2].
  apply W1 in Fc; [|not_among]. apply W1 in Fu; [|not_among]. apply W2 in Fl.
  clear W1 W2 Hs.
  (* the logging section: found, not created *)
  apply cli_bind_inv in H as (h6 & [] & Hs & H).
  rewrite (holds_ensure_dict _ _ _ _ Fu) in Hs. injection Hs as <-.
  apply cli_bind_inv in H as (h7 & logging & Hs & H).
  rewrite (holds_getitem _ _ _ _ Fu) in Hs. injection Hs as <- <-.
  apply cli_bind_inv in H as (h8 & [] & Hs & H).
  pose proof (holds_setitem _ _ _ _ _ _ Fl Hs) as Flevel.
  destruct (writes_setitem ["level"] _ _ _ ltac:(left) _ _ _ Hs) as [W1 W2].
  apply W1 in Fc; [|not_among]. apply W1 in Fu; [|not_among].
  clear W1 W2 Hs Fl.
  (* the statements after it *)
  apply cli_bind_inv in H as (h9 & [] & Hs & H).
  destruct (writes_log_file _ _ _ _ _ Hs) as [W1 W2].
  apply W1 in Fc; [|not_among]. apply W1 in Fu; [|not_among].
  apply W1 in Flevel; [|not_among]. clear W1 W2 Hs.
  apply cli_bind_inv in H as (h10 & [] & Hs & H).
  destruct (writes_verbose _ _ _ _ _ Hs) as [W1 W2].
  apply W1 in Fc; [|not_among]. apply W1 in Fu; [|not_among].
  apply W1 in Flevel; [|not_among]. clear W1 W2 Hs.
  apply cli_bind_inv in H as (h11 & [] & Hs & H).
  destruct (writes_ensure_dict ["models"] _ _ ltac:(left) _ _ _ Hs) as [W1 W2].
  apply W1 in Fc; [|not_among]. apply W1 in Fu; [|not_among].
  apply W1 in Flevel; [|not_among]. clear W1 W2 Hs.
  apply cli_bind_inv in H as (h12 & models & Hs & H).
  destruct (writes_getitem [] _ _ _ _ _ Hs) as [W1 W2].
  apply W1 in Fc; [|not_among]. apply W1 in Fu; [|not_among].
  apply W1 in Flevel; [|not_among]. clear W1 W2 Hs.
  apply cli_bind_inv in H as (h13 & has & Hs & H).
  destruct (writes_contains [] _ _ _ _ _ Hs) as [W1 W2].
  apply W1 in Fc; [|not_among]. apply W1 in Fu; [|not_among].
  apply W1 in Flevel; [|not_among]. clear W1 W2 Hs.
  apply cli_bind_inv in H as (h14 & [] & Hs & H).
  destruct (writes_providers _ _ _ _ _ Hs) as [W1 W2].
  apply W1 in Fc; [|not_among]. apply W1 in Fu; [|not_among].
  apply W1 in Flevel; [|not_among]. clear W1 W2 Hs.
  apply cli_bind_inv in H as (h15 & [] & Hs & H).
  destruct (writes_set_api_key ["openai_api_key"] _ _ _ _ _ ltac:(left) _ _ _ Hs)
    as [W1 W2].
  apply W1 in Fc; [|not_among]. apply W1 in Fu; [|not_among].
  apply W1 in Flevel; [|not_among]. clear W1 W2 Hs.
  apply cli_bind_inv in H as (h16 & [] & Hs & H).
  destruct (writes_set_api_key ["anthropic_api_key"] _ _ _ _ _ ltac:(left) _ _ _ Hs)
    as [W1 W2].
  apply W1 in Fc; [|not_among]. apply W1 in Fu; [|not_among].
  apply W1 in Flevel; [|not_among]. clear W1 W2 Hs.
  apply cli_bind_inv in H as (h17 & [] & Hs & H).
  destruct (writes_set_api_key ["groq_api_key"] _ _ _ _ _ ltac:(left) _ _ _ Hs)
    as [W1 W2].
  apply W1 in Fc; [|not_among]. apply W1 in Fu; [|not_among].
  apply W1 in Flevel; [|not_among]. clear W1 W2 Hs.
  apply cli_bind_inv in H as (h18 & [] & Hs & H).
  destruct (writes_ollama_url _ _ _ _ _ Hs) as [W1 W2].
  apply W1 in Fc; [|not_among]. apply W1 in Fu; [|not_among].
  apply W1 in Flevel; [|not_among]. clear W1 W2 Hs.
  injection H as <- <-. auto.
Qed.

Lemma X27_override_config_shares_sections_witness :
  exists h' updated,
    Cli.override_config 0 args_w [] heap_w = (h', Ok updated) /\
    updated <> 0 /\
    holds updated "logging" (Cli.PRef 1) h' /\
    holds 0 "logging" (Cli.PRef 1) h' /\
    holds 1 "level" (Cli.PStr (Cli.log_level args_w)) h'.
Proof.
  eexists _, _. split; [vm_compute; reflexivity|].
  eapply (X27_override_config_shares_sections 0 1 _ args_w [] heap_w).
  - reflexivity.
  - reflexivity.
  - eexists. reflexivity.
  - vm_compute; reflexivity.
Defined.

Example override_config_run :
  (Cli.override_config 0 args_w [] heap_w).1 !! 1%nat
  = Some [("level", Cli.PStr "INFO")].
Proof. reflexivity. Qed.
(** ** The silence of a generated podcast *)

Section SilenceTotal.
Variable K : Gen.Kokoro.
Variable self : Gen.AudioGenerator.




End SilenceTotal.


(** ** Reading a podcast from arbitrary data *)

Section FromDictFacts.

Lemma get_Raise v k fallback e : Json.get v k fallback = Raise e -> lookup_error e.
Proof. destruct v; intros [= <-]; left; reflexivity. Qed.

Lemma items_Raise v e : Json.items v = Raise e -> lookup_error e.
Proof. destruct v; intros [= <-]; left; reflexivity. Qed.

Lemma iter_Raise v e : Json.iter v = Raise e -> lookup_error e.
Proof. destruct v; intros [= <-]; right; reflexivity. Qed.

Lemma result_bind_Raise {A B} (r : result A) (k : A -> result B) e (P : exn -> Prop) :
  (r ≫= k) = Raise e ->
  (r = Raise e -> P e) -> (forall a, r = Ok a -> k a = Raise e -> P e) -> P e.
Proof.
  destruct r as [a|e0]; intros H Hr Hk.
  - apply (Hk a eq_refl H).
  - injection H as ->. apply Hr. reflexivity.
Qed.

Lemma mapM_Raise {A B} (f : A -> result B) (P : exn -> Prop) l e :
  (forall x e, f x = Raise e -> P e) -> mapM f l = Raise e -> P e.
Proof.
  intros Hf. induction l as [|x l IH]; [discriminate|].
  cbn [mapM]. fold (mapM f). intros H.
  apply (result_bind_Raise _ _ _ P H); [apply Hf|].
  intros y _ H'. apply (result_bind_Raise _ _ _ P H'); [exact IH|].
  intros ys _ [=].
Qed.

Lemma exchange_of_Raise v e : Podcast.exchange_of v = Raise e -> lookup_error e.
Proof.
  unfold Podcast.exchange_of. intros H.
  repeat (apply (result_bind_Raise _ _ _ lookup_error H);
          [apply get_Raise|]; clear H; intros ? _ H).
  discriminate H.
Qed.

Lemma topic_of_Raise item e : Podcast.topic_of item = Raise e -> lookup_error e.
Proof.
  unfold Podcast.topic_of. intros H.
  apply (result_bind_Raise _ _ _ lookup_error H); [apply iter_Raise|].
  clear H. intros exchanges_data _ H.
  apply (result_bind_Raise _ _ _ lookup_error H);
    [apply mapM_Raise; apply exchange_of_Raise|].
  intros ? _ [=].
Qed.

Lemma metadata_Raise data key fallback e :
  Podcast.metadata data key fallback = Raise e -> lookup_error e.
Proof.
  unfold Podcast.metadata. intros H.
  apply (result_bind_Raise _ _ _ lookup_error H); [apply get_Raise|].
  intros m _. apply get_Raise.
Qed.

Lemma from_dict_Raise now data e :
  Podcast.from_dict now data = Raise e -> lookup_error e.
Proof.
  unfold Podcast.from_dict. intros H.
  do 2 (apply (result_bind_Raise _ _ _ lookup_error H);
        [apply metadata_Raise|]; clear H; intros ? _ H).
  do 2 (apply (result_bind_Raise _ _ _ lookup_error H);
        [apply get_Raise|]; clear H; intros ? _ H).
  do 2 (apply (result_bind_Raise _ _ _ lookup_error H);
        [apply metadata_Raise|]; clear H; intros ? _ H).
  do 2 (apply (result_bind_Raise _ _ _ lookup_error H);
        [apply get_Raise|]; clear H; intros ? _ H).
  apply (result_bind_Raise _ _ _ lookup_error H).
  { intros H'. apply (result_bind_Raise _ _ _ lookup_error H'); [apply get_Raise|].
    intros c _. apply items_Raise. }
  clear H. intros conversations _ H.
  apply (result_bind_Raise _ _ _ lookup_error H);
    [apply mapM_Raise; apply topic_of_Raise|].
  intros ? _ [=].
Qed.

Lemma mapM_Ok_length {A B} (f : A -> result B) l :
  Forall (fun x => exists y, f x = Ok y) l ->
  exists ys, mapM f l = Ok ys /\ length ys = length l.
Proof.
  induction 1 as [|x l [y Hy] Hl (ys & IH & Hlen)]; [exists []; split; reflexivity|].
  exists (y :: ys). cbn [mapM]. fold (mapM f). rewrite Hy, IH.
  split; [reflexivity|]. simpl. rewrite Hlen. reflexivity.
Qed.

Lemma exchange_of_dict v : is_dict v -> exists exchange, Podcast.exchange_of v = Ok exchange.
Proof. destruct v; try contradiction. intros _. eexists. reflexivity. Qed.

Lemma topic_of_conversation item :
  is_conversation item.2 -> exists topic, Podcast.topic_of item = Ok topic.
Proof.
  destruct item as [k v]. destruct v; try contradiction. cbn [snd is_conversation].
  intros Hall. unfold Podcast.topic_of. cbn [snd Json.iter mbind result_bind bind].
  destruct (mapM_Ok_length Podcast.exchange_of l) as (ys & -> & _).
  { eapply Forall_impl; [exact Hall|]. apply exchange_of_dict. }
  eexists. reflexivity.
Qed.

Lemma from_dict_shaped now data :
  shaped data ->
  exists obj, Podcast.from_dict now data = Ok obj /\
    length (Podcast.o_topics obj) = conversation_count data.
Proof.
  destruct data as [| | | | | |d]; try contradiction.
  intros [Hmeta Hconv]. unfold Podcast.from_dict, Podcast.metadata, conversation_count.
  cbn [Json.get mbind result_bind bind].
  assert (exists m, default (Json.Dict []) (Dict.get d "metadata") = Json.Dict m) as [m ->].
  { destruct (Dict.get d "metadata") as [[]|]; try contradiction; eexists; reflexivity. }
  cbn [Json.get mbind result_bind bind].
  destruct (Dict.get d "conversations") as [[| | | | | |c]|]; try contradiction.
  - cbn [default from_option id Json.items mbind result_bind bind].
    destruct (mapM_Ok_length Podcast.topic_of c) as (topics & -> & Hlen).
    { eapply Forall_impl; [exact Hconv|]. apply topic_of_conversation. }
    eexists. split; [reflexivity|]. exact Hlen.
  - eexists. split; reflexivity.
Qed.

End FromDictFacts.

(** X29 ([from_dict]).  On data of the expected shape (dicts for the data,
    its metadata and its conversations, each conversation a list of dicts)
    [from_dict] returns a podcast with one topic per conversation whatever
    keys are missing: every key has a default.  On any data at all, the only
    failures are the [AttributeError] of a value that is no dict and the
    [TypeError] of a conversation that cannot be iterated; no [KeyError]. *)
Theorem X29_from_dict_defaults (now : string) (data : Json.value) :
  shaped data ->
  (exists obj, Podcast.from_dict now data = Ok obj /\
     length (Podcast.o_topics obj) = conversation_count data) /\
  forall other e,
    Podcast.from_dict now other = Raise e ->
    exn_cls e = LibraryError "AttributeError" \/ exn_cls e = LibraryError "TypeError".
Proof.
  intros Hshaped. split; [apply from_dict_shaped, Hshaped|].
  intros other e. apply from_dict_Raise.
Qed.

Lemma X29_from_dict_defaults_witness :
  (exists obj, Podcast.from_dict "2025-01-01T00:00:00" data_w = Ok obj /\
     length (Podcast.o_topics obj) = conversation_count data_w) /\
  forall other e,
    Podcast.from_dict "2025-01-01T00:00:00" other = Raise e ->
    exn_cls e = LibraryError "AttributeError" \/ exn_cls e = LibraryError "TypeError".
Proof.
  apply (X29_from_dict_defaults "2025-01-01T00:00:00" data_w).
  split; [exact I|]. repeat constructor.
Defined.

Example from_dict_of_nothing :
  Podcast.from_dict "now" (Json.Dict [])
  = Ok (Podcast.MakeObj (Json.Str "") (Json.Str "") (Json.Str "") (Json.Str "") []
          (Json.Str "") (Json.Str "now") Json.Null Json.Null).
Proof. reflexivity. Qed.

Example from_dict_of_a_list :
  Podcast.from_dict "now" (Json.List [])
  = Raise (Exn (LibraryError "AttributeError") "'list' object has no attribute 'get'").
Proof. reflexivity. Qed.
